(** * Pose-skeleton preprocessing and dataset construction

    A shallow embedding of [preprocessing.py], [dataset.py] and the
    function [run_experiment] of [validation.py]: the landmark-table
    normalizer (pandas data frames), the length normalization, centring
    and min-max layers (tensors), and the dataset builder (one-hot
    labels, length bucketing, the [Dataset] class).

    Numbers.  Coordinates are IEEE floats in the program.  Here a cell is
    an extended rational: a finite rational, one of the two infinities, or
    NaN (the missing value of pandas).  Rounding inside the range of the
    format and signed zeros are not modelled; every other rule of the
    arithmetic used by the program (overflow to an infinity past the
    largest finite number of the format, NaN propagation, comparisons
    with NaN being false, [0/0 = NaN], [x/0 = inf], NaN-skipping row
    reductions) is written out.  The columns of a table are float64; the
    tensors of the centring and min-max layers have the format of their
    dtype; the tensors of length normalization, of which only the shape
    and the padding matter here, hold exact rationals. *)

From Stdlib Require Import QArith Qabs Qround Lqa Lia ZArith String Ascii List Bool.
From Stdlib Require Import Sorted DecimalString.
From Stdlib Require OrderedTypeEx.
From stdpp Require Import base option list gmap strings.

Set Warnings "-register-all".

Local Open Scope string_scope.
Local Open Scope Z_scope.
Local Open Scope Q_scope.
Local Open Scope list_scope.

(** ** Python exceptions and results *)

Module Py.

Inductive exc : Type :=
| TypeError (msg : string)
| KeyError (key : string)
| ValueError (msg : string)
| IndexError (msg : string)
| AttributeError (msg : string)
| InvalidArgumentError (msg : string)
| Exception (msg : string).

Inductive result (A : Type) : Type :=
| Ok (a : A)
| Raise (e : exc).
Arguments Ok {A} a.
Arguments Raise {A} e.

Definition rbind {A B} (r : result A) (k : A -> result B) : result B :=
  match r with
  | Ok a => k a
  | Raise e => Raise e
  end.

Definition is_ok {A} (r : result A) : bool :=
  match r with Ok _ => true | Raise _ => false end.

Definition raises {A} (r : result A) : Prop :=
  exists e, r = Raise e.

Definition is_TypeError {A} (r : result A) : Prop :=
  exists msg, r = Raise (TypeError msg).

End Py.
Export Py.

#[export] Instance result_ret : MRet result := fun A a => Ok a.
#[export] Instance result_bind : MBind result := fun A B k r => rbind r k.
#[export] Instance result_fmap : FMap result :=
  fun A B f r => rbind r (fun a => Ok (f a)).

(** ** Floating-point cells *)

Module Float.

Inductive fval : Type :=
| Fin (q : Q)
| PInf
| NInf
| NaN.

Definition fzero : fval := Fin 0.

(** [np.isnan] *)
Definition isnan (a : fval) : bool :=
  match a with NaN => true | _ => false end.

Definition isfinite (a : fval) : bool :=
  match a with Fin _ => true | _ => false end.

Definition Qlt_bool (x y : Q) : bool := negb (Qle_bool y x).

Definition fneg (a : fval) : fval :=
  match a with
  | Fin q => Fin (- q)
  | PInf => NInf
  | NInf => PInf
  | NaN => NaN
  end.

Definition fabs (a : fval) : fval :=
  match a with
  | Fin q => Fin (Qabs q)
  | PInf | NInf => PInf
  | NaN => NaN
  end.

(** The largest finite number of each floating format: 65504 for
    float16, [(2 - 2^-7) * 2^127] for bfloat16, [(2 - 2^-23) * 2^127] for
    float32 and [(2 - 2^-52) * 2^1023] for float64. *)
Definition float16_max : Q := 65504.
Definition bfloat16_max : Q := inject_Z ((2 ^ 8 - 1) * 2 ^ 120).
Definition float32_max : Q := inject_Z ((2 ^ 24 - 1) * 2 ^ 104).
Definition float64_max : Q := inject_Z ((2 ^ 53 - 1) * 2 ^ 971).

(** The result of an operation in a format whose largest finite number
    is [M]: past [M] it is an infinity.  (A result less than half a unit
    in the last place above [M] rounds to [M] in the program; as rounding
    is not modelled it counts as past [M] here.) *)
Definition overflow (M q : Q) : fval :=
  if Qlt_bool M q then PInf
  else if Qlt_bool q (- M) then NInf
  else Fin q.

Definition fadd_in (M : Q) (a b : fval) : fval :=
  match a, b with
  | NaN, _ | _, NaN => NaN
  | Fin x, Fin y => overflow M (x + y)
  | PInf, NInf | NInf, PInf => NaN
  | PInf, _ | _, PInf => PInf
  | NInf, _ | _, NInf => NInf
  end.

Definition fsub_in (M : Q) (a b : fval) : fval := fadd_in M a (fneg b).

(** Float division: a finite non-zero value over zero is an infinity,
    zero over zero is NaN. *)
Definition fdiv_in (M : Q) (a b : fval) : fval :=
  match a, b with
  | NaN, _ | _, NaN => NaN
  | Fin x, Fin y =>
      if Qeq_bool y 0 then
        if Qeq_bool x 0 then NaN
        else if Qlt_bool 0 x then PInf else NInf
      else overflow M (x / y)
  | Fin _, (PInf | NInf) => Fin 0
  | PInf, Fin y => if Qlt_bool y 0 then NInf else PInf
  | NInf, Fin y => if Qlt_bool y 0 then PInf else NInf
  | (PInf | NInf), (PInf | NInf) => NaN
  end.

(** The arithmetic of the float64 columns of a table. *)
Definition fadd : fval -> fval -> fval := fadd_in float64_max.
Definition fsub : fval -> fval -> fval := fsub_in float64_max.
Definition fdiv : fval -> fval -> fval := fdiv_in float64_max.

(** [a < b]; false as soon as one side is NaN. *)
Definition fltb (a b : fval) : bool :=
  match a, b with
  | NaN, _ | _, NaN => false
  | _, NInf => false
  | NInf, _ => true
  | PInf, _ => false
  | Fin _, PInf => true
  | Fin x, Fin y => Qlt_bool x y
  end.

(** [a > b] *)
Definition fgtb (a b : fval) : bool := fltb b a.

(** Row reductions of pandas skip NaN; a row without any number gives NaN. *)
Fixpoint nanmax (l : list fval) : fval :=
  match l with
  | [] => NaN
  | x :: t =>
      let m := nanmax t in
      if isnan x then m
      else if isnan m then x
      else if fltb x m then m else x
  end.

Fixpoint nanmin (l : list fval) : fval :=
  match l with
  | [] => NaN
  | x :: t =>
      let m := nanmin t in
      if isnan x then m
      else if isnan m then x
      else if fltb m x then m else x
  end.

(** Equality of values (rationals up to [==]) and the order on numbers. *)
Definition feq (a b : fval) : Prop :=
  match a, b with
  | Fin x, Fin y => x == y
  | PInf, PInf | NInf, NInf | NaN, NaN => True
  | _, _ => False
  end.

Definition fle (a b : fval) : Prop :=
  match a, b with
  | NaN, _ | _, NaN => False
  | NInf, _ => True
  | _, PInf => True
  | Fin x, Fin y => x <= y
  | _, _ => False
  end.

End Float.
Export Float.

(** ** Landmark tables (pandas data frames)

    A table has the three metadata columns [video], [frame], [label]
    first, then the coordinate columns.  [columns] lists the labels of the
    coordinate columns, that is [dataframe.columns[3:]]; a row keeps its
    coordinate cells in the same order. *)

Module Frame.

Record Row : Type := mkRow {
  video : Z;
  frame : Z;
  label : Z;
  cells : list fval
}.

Record DataFrame : Type := mkDF {
  columns : list string;
  rows : list Row
}.

(** [dataframe.columns[:3]] *)
Definition base_columns : list string := ["video"; "frame"; "label"].

Fixpoint index_of (n : string) (l : list string) : option nat :=
  match l with
  | [] => None
  | x :: t => if String.eqb n x then Some 0%nat else S <$> index_of n t
  end.

Definition cell (r : Row) (p : nat) : fval := default NaN (cells r !! p).

Definition meta_value (r : Row) (n : string) : option fval :=
  if String.eqb n "video" then Some (Fin (inject_Z (video r)))
  else if String.eqb n "frame" then Some (Fin (inject_Z (frame r)))
  else if String.eqb n "label" then Some (Fin (inject_Z (label r)))
  else None.

Definition is_base (n : string) : bool :=
  String.eqb n "video" || String.eqb n "frame" || String.eqb n "label".

(** Does the table have a column with this label? *)
Definition has_column (d : DataFrame) (n : string) : bool :=
  is_base n || bool_decide (is_Some (index_of n (columns d))).

(** One cell of a row, by column label. *)
Definition cell_by_name (d : DataFrame) (r : Row) (n : string) : fval :=
  match meta_value r n with
  | Some v => v
  | None =>
      match index_of n (columns d) with
      | Some p => cell r p
      | None => NaN
      end
  end.

(** [columns[0::2]] of a list of labels *)
Fixpoint step2 {A} (l : list A) : list A :=
  match l with
  | [] => []
  | x :: t => x :: match t with [] => [] | _ :: t' => step2 t' end
  end.

(** [dataframe.columns[3::2]], [dataframe.columns[4::2]], [dataframe.columns[3:]] *)
Definition x_columns_of (d : DataFrame) : list string := step2 (columns d).
Definition y_columns_of (d : DataFrame) : list string := step2 (tail (columns d)).
Definition xy_columns_of (d : DataFrame) : list string := columns d.

(** The first label among [ns] that the table lacks. *)
Definition missing_column (d : DataFrame) (ns : list string) : option string :=
  List.find (fun n => negb (has_column d n)) ns.

(** [dataframe[n].to_numpy()] *)
Definition getitem (d : DataFrame) (n : string) : result (list fval) :=
  if has_column d n then Ok (map (fun r => cell_by_name d r n) (rows d))
  else Raise (KeyError n).

(** [dataframe[ns].to_numpy()]: one list per row, one entry per label.
    When labels are missing pandas raises [KeyError] with a message that
    lists them; only its first label is kept here. *)
Definition getitems (d : DataFrame) (ns : list string) : result (list (list fval)) :=
  match missing_column d ns with
  | Some n => Raise (KeyError n)
  | None => Ok (map (fun r => map (cell_by_name d r) ns) (rows d))
  end.

(** Writing one cell of a row by label; the metadata columns hold
    integers and are never written by the program. *)
Definition set_cell (d : DataFrame) (n : string) (v : fval) (r : Row) : Row :=
  match index_of n (columns d) with
  | Some p => mkRow (video r) (frame r) (label r) (<[p := v]> (cells r))
  | None => r
  end.

(** Writing the cells of the columns [ns] of one row, left to right. *)
Fixpoint set_cells (d : DataFrame) (ns : list string) (vs : list fval) (r : Row) : Row :=
  match ns, vs with
  | n :: ns', v :: vs' => set_cells d ns' vs' (set_cell d n v r)
  | _, _ => r
  end.

(** [dataframe.loc[mask, ns] = arr]: the k-th selected row receives the
    k-th line of [arr]. *)
Fixpoint assign_rows (d : DataFrame) (mask : list bool) (ns : list string)
    (arr : list (list fval)) (rs : list Row) : list Row :=
  match rs, mask with
  | r :: rs', true :: mask' =>
      match arr with
      | line :: arr' => set_cells d ns line r :: assign_rows d mask' ns arr' rs'
      | [] => r :: rs'
      end
  | r :: rs', false :: mask' => r :: assign_rows d mask' ns arr rs'
  | _, _ => rs
  end.

Definition count_true (mask : list bool) : nat := length (List.filter id mask).

Definition loc_assign (d : DataFrame) (mask : list bool) (ns : list string)
    (arr : list (list fval)) : result DataFrame :=
  match missing_column d ns with
  | Some n => Raise (KeyError n)
  | None =>
      if negb (Nat.eqb (length arr) (count_true mask))
         || negb (forallb (fun line => Nat.eqb (length line) (length ns)) arr)
      then Raise (ValueError "shape mismatch")
      else Ok (mkDF (columns d) (assign_rows d mask ns arr (rows d)))
  end.

Definition all_rows (d : DataFrame) : list bool := map (fun _ => true) (rows d).

(** [dataframe[n] = vals]: overwrite the column, or append a new one. *)
Definition setitem (d : DataFrame) (n : string) (vals : list fval) : result DataFrame :=
  if negb (Nat.eqb (length vals) (length (rows d)))
  then Raise (ValueError "Length of values does not match length of index")
  else
    match index_of n (columns d) with
    | Some p =>
        Ok (mkDF (columns d)
              (zip_with (fun r v => set_cell d n v r) (rows d) vals))
    | None =>
        Ok (mkDF (columns d ++ [n])
              (zip_with (fun r v =>
                           mkRow (video r) (frame r) (label r) (cells r ++ [v]))
                        (rows d) vals))
    end.

(** [dataframe.loc[:, ns]]: a new table with the metadata columns kept and
    the coordinate columns [ns]. *)
Definition select_columns_of (d : DataFrame) (ns : list string) : result DataFrame :=
  match missing_column d ns with
  | Some n => Raise (KeyError n)
  | None =>
      Ok (mkDF ns
            (map (fun r => mkRow (video r) (frame r) (label r)
                             (map (cell_by_name d r) ns)) (rows d)))
  end.

(** [dataframe.loc[mask, :]] *)
Fixpoint select_rows (mask : list bool) (rs : list Row) : list Row :=
  match rs, mask with
  | r :: rs', true :: mask' => r :: select_rows mask' rs'
  | _ :: rs', false :: mask' => select_rows mask' rs'
  | _, _ => []
  end.

(** A table is well formed when its labels are pairwise distinct and every
    row has one cell per coordinate column. *)
Definition wf (d : DataFrame) : Prop :=
  NoDup (base_columns ++ columns d) /\
  Forall (fun r => length (cells r) = length (columns d)) (rows d).

(** A row written at the columns [ns] with values computed from the row. *)
Definition update_row (d : DataFrame) (ns : list string)
    (g : Row -> string -> fval) (r : Row) : Row :=
  set_cells d ns (map (g r) ns) r.

Definition same_metadata (r r' : Row) : Prop :=
  video r' = video r /\ frame r' = frame r /\ label r' = label r.

End Frame.
Export Frame.

(** ** Objects and references

    Data frames are mutable objects.  A Python variable holds a reference
    into a store of tables; [dataframe.copy()] allocates a new object, an
    assignment through [.loc] or [dataframe[n] = ...] overwrites the object
    the reference points to. *)

Module Heap.

Abbreviation loc := nat.
Abbreviation heap := (gmap nat DataFrame).

Definition M (A : Type) : Type := heap -> result A * heap.

#[export] Instance M_ret : MRet M := fun A a h => (Ok a, h).
#[export] Instance M_bind : MBind M := fun A B k m h =>
  match m h with
  | (Ok a, h') => k a h'
  | (Raise e, h') => (Raise e, h')
  end.

Definition raise {A} (e : exc) : M A := fun h => (Raise e, h).

Definition lift {A} (r : result A) : M A := fun h => (r, h).

Definition df_read (l : loc) : M DataFrame := fun h =>
  match h !! l with
  | Some d => (Ok d, h)
  | None => (Raise (Exception "dangling reference"), h)
  end.

Definition df_write (l : loc) (d : DataFrame) : M unit := fun h =>
  match h !! l with
  | Some _ => (Ok tt, <[l := d]> h)
  | None => (Raise (Exception "dangling reference"), h)
  end.

(** A new object holding the table [d]. *)
Definition df_new (d : DataFrame) : M loc := fun h =>
  let l := fresh (dom h) in (Ok l, <[l := d]> h).

(** [dataframe.copy()] *)
Definition df_copy (l : loc) : M loc :=
  d ← df_read l; df_new d.

(** Specifications of computations on the store: a precondition on the
    store before, a postcondition on the outcome and the store after. *)
Definition hoare {A} (P : heap -> Prop) (m : M A)
    (Q : result A -> heap -> Prop) : Prop :=
  forall h, P h -> Q (m h).1 (m h).2.

(** Every object of [h0] is still in [h], with the same content. *)
Definition extends (h0 h : heap) : Prop :=
  forall k d, h0 !! k = Some d -> h !! k = Some d.

(** The objects of [h0] are untouched and [l] is an object made since. *)
Definition owns (h0 : heap) (l : loc) (h : heap) : Prop :=
  extends h0 h /\ h0 !! l = None /\ is_Some (h !! l).

(** The objects of [h0] are untouched and a returned reference points to
    an object made since. *)
Definition returns_new (h0 : heap) (r : result loc) (h : heap) : Prop :=
  extends h0 h /\
  forall l, r = Ok l -> h0 !! l = None /\ is_Some (h !! l).

(** [m] keeps the invariant [I], whether it returns or raises. *)
Definition steady {A} (I : heap -> Prop) (m : M A) : Prop :=
  hoare I m (fun _ h => I h).

End Heap.
Export Heap.

(** ** preprocessing.py: the landmark table normalizer *)

Module Preprocessing.

(** Python values that reach the configuration parameters.  The members
    of [Normalization(str, Enum)] are strings. *)
Inductive pyvalue : Type :=
| PyStr (s : string)
| PyInt (z : Z)
| PyBool (b : bool)
| PyNone
| PyList (l : list pyvalue).

Definition Neg1To1 : pyvalue := PyStr "neg1_to_1".
Definition Legacy : pyvalue := PyStr "legacy".

(** [a == b]; a boolean compares as the integer it is. *)
Fixpoint py_eqb (a b : pyvalue) : bool :=
  match a, b with
  | PyStr s, PyStr t => String.eqb s t
  | PyInt x, PyInt y => Z.eqb x y
  | PyBool x, PyBool y => Bool.eqb x y
  | PyBool x, PyInt y | PyInt y, PyBool x => Z.eqb (Z.b2z x) y
  | PyNone, PyNone => true
  | PyList l, PyList m =>
      (fix go (l m : list pyvalue) : bool :=
         match l, m with
         | [], [] => true
         | x :: l', y :: m' => py_eqb x y && go l' m'
         | _, _ => false
         end) l m
  | _, _ => false
  end.

Definition py_repr (a : pyvalue) : string :=
  match a with
  | PyStr s => s
  | PyInt z => NilEmpty.string_of_int (Z.to_int z)
  | PyBool true => "True"
  | PyBool false => "False"
  | PyNone => "None"
  | PyList _ => "[...]"
  end.

(** Truth value of an object in [if]. *)
Definition py_truthy (a : pyvalue) : bool :=
  match a with
  | PyStr s => negb (String.eqb s "")
  | PyInt z => negb (Z.eqb z 0)
  | PyBool b => b
  | PyNone => false
  | PyList l => negb (Nat.eqb (length l) 0)
  end.

(** [mediapipe]'s [PoseLandmark] indices used by the program. *)
Definition NOSE : nat := 0.
Definition LEFT_SHOULDER : nat := 11.
Definition RIGHT_SHOULDER : nat := 12.
Definition LEFT_WRIST : nat := 15.
Definition RIGHT_WRIST : nat := 16.
Definition LEFT_HIP : nat := 23.
Definition RIGHT_HIP : nat := 24.

(** ['pose_' + str(int(landmark)) + '_x'] *)
Definition pose_column (landmark : nat) (axis : string) : string :=
  "pose_" ++ NilEmpty.string_of_uint (Nat.to_uint landmark) ++ "_" ++ axis.

(** [pat in s] on strings *)
Fixpoint str_in (pat s : string) : bool :=
  String.prefix pat s ||
  match s with
  | EmptyString => false
  | String _ s' => str_in pat s'
  end.

(** [np.where(np.isnan(arr))]: the (row, column) positions of the NaN
    entries, row by row. *)
Definition nan_columns (line : list fval) : list nat :=
  omap (fun '(j, v) => if isnan v then Some j else None)
       (imap (fun j v => (j, v)) line).

Definition where_isnan (arr : list (list fval)) : list (nat * nat) :=
  mjoin (imap (fun i line => map (fun j => (i, j)) (nan_columns line)) arr).

(** [arr[row][column] = v] *)
Definition arr_set (arr : list (list fval)) (row column : nat) (v : fval)
  : list (list fval) :=
  alter (fun line => <[column := v]> line) row arr.

Definition replace_nan_with_other_column
    (dataframe : loc) (source_columns : list string) (target_column : string)
  : M (list (list fval)) :=
  d ← df_read dataframe;
  (* array of dataframe at source_columns *)
  arr ← lift (getitems d source_columns);
  (* array of dataframe at target_column *)
  values ← lift (getitem d target_column);
  (* indices where arr is nan *)
  let indices := where_isnan arr in
  (* replace nan's of arr with values *)
  mret (fold_left (fun arr '(row, column) =>
                     arr_set arr row column (default NaN (values !! row)))
                  indices arr).

(** [dataframe.loc[:, ns] = arr] *)
Definition df_loc_assign_all (dataframe : loc) (ns : list string)
    (arr : list (list fval)) : M unit :=
  d ← df_read dataframe;
  d' ← lift (loc_assign d (all_rows d) ns arr);
  df_write dataframe d'.

(** [dataframe.loc[mask, ns] = arr] *)
Definition df_loc_assign (dataframe : loc) (mask : list bool) (ns : list string)
    (arr : list (list fval)) : M unit :=
  d ← df_read dataframe;
  d' ← lift (loc_assign d mask ns arr);
  df_write dataframe d'.

(** [dataframe[n] = (dataframe[a] + dataframe[b]) / 2.] *)
Definition df_set_midpoint (dataframe : loc) (n a b : string) : M unit :=
  d ← df_read dataframe;
  va ← lift (getitem d a);
  vb ← lift (getitem d b);
  d' ← lift (setitem d n (map (fun v => fdiv v (Fin 2)) (zip_with fadd va vb)));
  df_write dataframe d'.

(** [np.unique] on labels: sorted, without repetition. *)
Fixpoint insert_unique (s : string) (l : list string) : list string :=
  match l with
  | [] => [s]
  | x :: t =>
      match String.compare s x with
      | Lt => s :: x :: t
      | Eq => x :: t
      | Gt => x :: insert_unique s t
      end
  end.

Definition np_unique (l : list string) : list string :=
  fold_right insert_unique [] l.

(** [dataframe.loc[:, labels]] where [labels] starts with the three
    metadata columns: a new table. *)
Definition df_loc_columns (dataframe : loc) (labels : list string) : M loc :=
  d ← df_read dataframe;
  d' ← lift (if bool_decide (take 3 labels = base_columns)
             then select_columns_of d (drop 3 labels)
             else Raise (Exception "metadata columns must come first"));
  df_new d'.

Definition preprocess_dataframe (dataframe : loc) (select_columns : list string)
    (with_root with_midhip : bool) : M loc :=
  dataframe ← df_copy dataframe;

  (* obtain x, y columns *)
  d0 ← df_read dataframe;
  let x_columns := x_columns_of d0 in
  let y_columns := y_columns_of d0 in

  (* columns that could have nan values *)
  let x_left_hand_columns := List.filter (str_in "leftHand") x_columns in
  let y_left_hand_columns := List.filter (str_in "leftHand") y_columns in
  let x_right_hand_columns := List.filter (str_in "rightHand") x_columns in
  let y_right_hand_columns := List.filter (str_in "rightHand") y_columns in
  let x_face_columns := List.filter (str_in "face") x_columns in
  let y_face_columns := List.filter (str_in "face") y_columns in

  (* columns with non-nan values *)
  let x_left_wrist_column := pose_column LEFT_WRIST "x" in
  let y_left_wrist_column := pose_column LEFT_WRIST "y" in
  let x_right_wrist_column := pose_column RIGHT_WRIST "x" in
  let y_right_wrist_column := pose_column RIGHT_WRIST "y" in
  let x_nose_column := pose_column NOSE "x" in
  let y_nose_column := pose_column NOSE "y" in

  (* add root column *)
  (if with_root then
     df_set_midpoint dataframe "root_x"
       (pose_column LEFT_SHOULDER "x") (pose_column RIGHT_SHOULDER "x");;
     df_set_midpoint dataframe "root_y"
       (pose_column LEFT_SHOULDER "y") (pose_column RIGHT_SHOULDER "y")
   else mret tt);;

  (* add midhip column *)
  (if with_midhip then
     df_set_midpoint dataframe "midhip_x"
       (pose_column LEFT_HIP "x") (pose_column RIGHT_HIP "x");;
     df_set_midpoint dataframe "midhip_y"
       (pose_column LEFT_HIP "y") (pose_column RIGHT_HIP "y")
   else mret tt);;

  (* replace left hand columns with the left wrist coordinates *)
  arr ← replace_nan_with_other_column dataframe x_left_hand_columns x_left_wrist_column;
  df_loc_assign_all dataframe x_left_hand_columns arr;;
  arr ← replace_nan_with_other_column dataframe y_left_hand_columns y_left_wrist_column;
  df_loc_assign_all dataframe y_left_hand_columns arr;;

  (* replace right hand columns with the right wrist coordinates *)
  arr ← replace_nan_with_other_column dataframe x_right_hand_columns x_right_wrist_column;
  df_loc_assign_all dataframe x_right_hand_columns arr;;
  arr ← replace_nan_with_other_column dataframe y_right_hand_columns y_right_wrist_column;
  df_loc_assign_all dataframe y_right_hand_columns arr;;

  (* replace face columns with the nose coordinates *)
  arr ← replace_nan_with_other_column dataframe x_face_columns x_nose_column;
  df_loc_assign_all dataframe x_face_columns arr;;
  arr ← replace_nan_with_other_column dataframe y_face_columns y_nose_column;
  df_loc_assign_all dataframe y_face_columns arr;;

  (* filter columns *)
  if (0 <? length select_columns)%nat then
    let unique_columns := np_unique select_columns in
    df_loc_columns dataframe (base_columns ++ unique_columns)
  else
    mret dataframe.

(** The parts of the body whose landmarks may be missing, the substring
    that selects their columns, and the pose landmark that stands in for
    them. *)
Inductive Part : Type := LeftHandPart | RightHandPart | FacePart.
Inductive Axis : Type := AxisX | AxisY.

Definition part_pattern (part : Part) : string :=
  match part with
  | LeftHandPart => "leftHand"
  | RightHandPart => "rightHand"
  | FacePart => "face"
  end.

Definition anchor_column (part : Part) (axis : Axis) : string :=
  pose_column
    match part with
    | LeftHandPart => LEFT_WRIST
    | RightHandPart => RIGHT_WRIST
    | FacePart => NOSE
    end
    match axis with AxisX => "x" | AxisY => "y" end.

(** The axis of a coordinate column: [x] at the even positions of
    [dataframe.columns[3:]], [y] at the odd ones. *)
Definition axis_of (d : DataFrame) (n : string) : option Axis :=
  p ← index_of n (columns d);
  Some (if Nat.even p then AxisX else AxisY).

(** The columns that [preprocess_dataframe] computes. *)
Definition derived_columns (with_root with_midhip : bool) : list string :=
  (if with_root then ["root_x"; "root_y"] else []) ++
  (if with_midhip then ["midhip_x"; "midhip_y"] else []).

(** The pose columns that [preprocess_dataframe] reads. *)
Definition required_columns (with_root with_midhip : bool) : list string :=
  (if with_root
   then [pose_column LEFT_SHOULDER "x"; pose_column RIGHT_SHOULDER "x";
         pose_column LEFT_SHOULDER "y"; pose_column RIGHT_SHOULDER "y"]
   else []) ++
  (if with_midhip
   then [pose_column LEFT_HIP "x"; pose_column RIGHT_HIP "x";
         pose_column LEFT_HIP "y"; pose_column RIGHT_HIP "y"]
   else []) ++
  [anchor_column LeftHandPart AxisX; anchor_column LeftHandPart AxisY;
   anchor_column RightHandPart AxisX; anchor_column RightHandPart AxisY;
   anchor_column FacePart AxisX; anchor_column FacePart AxisY].

(** What one pass of [replace_nan_with_other_column] leaves in a cell. *)
Definition fill_value (d : DataFrame) (target_column : string) (r : Row)
    (n : string) : fval :=
  if isnan (cell_by_name d r n) then cell_by_name d r target_column
  else cell_by_name d r n.

Definition midpoint (d : DataFrame) (a b : string) (r : Row) : fval :=
  fdiv (fadd (cell_by_name d r a) (cell_by_name d r b)) (Fin 2).

(** The table after [dataframe[n] = f(row)]. *)
Definition set_column_row (d : DataFrame) (n : string) (f : Row -> fval)
    (r : Row) : Row :=
  match index_of n (columns d) with
  | Some _ => set_cell d n (f r) r
  | None => mkRow (video r) (frame r) (label r) (cells r ++ [f r])
  end.

Definition set_column (d : DataFrame) (n : string) (f : Row -> fval) : DataFrame :=
  mkDF (match index_of n (columns d) with
        | Some _ => columns d
        | None => columns d ++ [n]
        end)
       (map (set_column_row d n f) (rows d)).

(** The table [dk] reached from [d]: same rows in the same order, the
    columns of [d] and the columns [added], and the cell of every column
    of [d] outside [hidden] holds [T row column], a value computed from
    the row of [d]. *)
Definition tracks (d : DataFrame) (hidden added : list string)
    (T : Row -> string -> fval) (dk : DataFrame) : Prop :=
  wf dk /\
  (forall n, In n (columns d) \/ In n added -> In n (columns dk)) /\
  exists G : Row -> Row,
    rows dk = map G (rows d) /\
    forall r, In r (rows d) ->
      same_metadata r (G r) /\
      forall n, In n (columns d) -> ~ In n hidden ->
        cell_by_name dk (G r) n = T r n.

(** The value of a cell after one pass of substitution over the columns
    [ns] with the anchor [tgt]. *)
Definition filled (ns : list string) (tgt : string)
    (T : Row -> string -> fval) (r : Row) (n : string) : fval :=
  if existsb (String.eqb n) ns
  then (if isnan (T r n) then T r tgt else T r n)
  else T r n.

(** The columns of a part on an axis, as [preprocess_dataframe] lists
    them, and the cells after the six passes. *)
Definition part_columns (d : DataFrame) (part : Part) (axis : Axis) : list string :=
  List.filter (str_in (part_pattern part))
    match axis with AxisX => x_columns_of d | AxisY => y_columns_of d end.

Definition fill_part (d : DataFrame) (part : Part) (axis : Axis)
    (T : Row -> string -> fval) : Row -> string -> fval :=
  filled (part_columns d part axis) (anchor_column part axis) T.

Definition substituted (d : DataFrame) : Row -> string -> fval :=
  fill_part d FacePart AxisY (fill_part d FacePart AxisX
    (fill_part d RightHandPart AxisY (fill_part d RightHandPart AxisX
      (fill_part d LeftHandPart AxisY (fill_part d LeftHandPart AxisX
        (cell_by_name d)))))).

Definition axis_eqb (a b : Axis) : bool :=
  match a, b with
  | AxisX, AxisX | AxisY, AxisY => true
  | _, _ => false
  end.

(** The table kept by the column filter. *)
Definition selected_row (d : DataFrame) (select_columns : list string) (r : Row)
  : Row :=
  if (0 <? length select_columns)%nat
  then mkRow (video r) (frame r) (label r)
         (map (cell_by_name d r) (np_unique select_columns))
  else r.

Definition selected (d : DataFrame) (select_columns : list string) : DataFrame :=
  if (0 <? length select_columns)%nat
  then mkDF (np_unique select_columns)
         (map (fun r => mkRow (video r) (frame r) (label r)
                          (map (cell_by_name d r) (np_unique select_columns)))
              (rows d))
  else d.

(** Broadcast helpers for [array op column[:, None]]. *)
Definition lines_op (op : fval -> fval -> fval) (arr : list (list fval))
    (col : list fval) : list (list fval) :=
  zip_with (fun line c => map (fun v => op v c) line) arr col.

(** [arr[:, j]] *)
Definition arr_column (j : nat) (arr : list (list fval)) : list fval :=
  map (fun line => default NaN (line !! j)) arr.

(** [np.any(arr < 0, axis=1)] and [np.any(arr > 1, axis=1)] *)
Definition any_lt (bound : fval) (arr : list (list fval)) : list bool :=
  map (existsb (fun v => fltb v bound)) arr.
Definition any_gt (bound : fval) (arr : list (list fval)) : list bool :=
  map (existsb (fun v => fgtb v bound)) arr.

(** [arr[mask]] *)
Fixpoint select_lines {A} (mask : list bool) (arr : list A) : list A :=
  match arr, mask with
  | a :: arr', true :: mask' => a :: select_lines mask' arr'
  | _ :: arr', false :: mask' => select_lines mask' arr'
  | _, _ => []
  end.

Definition normalize_dataframe_from_neg1_to_1 (dataframe : loc) : M loc :=
  dataframe ← df_copy dataframe;

  (* obtain x, y columns *)
  d0 ← df_read dataframe;
  let x_columns := x_columns_of d0 in
  let y_columns := y_columns_of d0 in
  let xy_columns := xy_columns_of d0 in

  (* center x, y columns *)
  root_arr ← lift (getitems d0 ["root_x"; "root_y"]);
  d ← df_read dataframe;
  xs ← lift (getitems d x_columns);
  df_loc_assign_all dataframe x_columns (lines_op fsub xs (arr_column 0 root_arr));;
  d ← df_read dataframe;
  ys ← lift (getitems d y_columns);
  df_loc_assign_all dataframe y_columns (lines_op fsub ys (arr_column 1 root_arr));;

  (* scale to (-1, 1) *)
  d ← df_read dataframe;
  xy_data ← lift (getitems d xy_columns);
  let scales := map (fun line => nanmax (map fabs line)) xy_data in
  df_loc_assign_all dataframe xy_columns (lines_op fdiv xy_data scales);;

  mret dataframe.

(** The value of a cell after [dataframe.loc[mask, ns] = g(row)]. *)
Definition assigned (m : Row -> bool) (ns : list string)
    (g : Row -> string -> fval) (T : Row -> string -> fval)
    (r : Row) (n : string) : fval :=
  if m r && existsb (String.eqb n) ns then g r n else T r n.

Definition every_row (r : Row) : bool := true.

(** The cells of [normalize_dataframe_from_neg1_to_1], step by step, as
    values computed from a row of the argument. *)
Definition centred_x (d : DataFrame) : Row -> string -> fval :=
  assigned every_row (x_columns_of d)
    (fun r n => fsub (cell_by_name d r n) (cell_by_name d r "root_x"))
    (cell_by_name d).

Definition centred (d : DataFrame) : Row -> string -> fval :=
  assigned every_row (y_columns_of d)
    (fun r n => fsub (centred_x d r n) (cell_by_name d r "root_y"))
    (centred_x d).

Definition row_scale (d : DataFrame) (r : Row) : fval :=
  nanmax (map fabs (map (centred d r) (columns d))).

Definition scaled (d : DataFrame) : Row -> string -> fval :=
  assigned every_row (xy_columns_of d)
    (fun r n => fdiv (centred d r n) (row_scale d r))
    (centred d).

(** The same cells by position: the coordinates of a row after
    centring on the root, and the largest absolute value of a row. *)
Definition centred_cells (rx ry : fval) (cs : list fval) : list fval :=
  imap (fun p c => fsub c (if Nat.even p then rx else ry)) cs.

Definition max_abs (cs : list fval) : fval := nanmax (map fabs cs).

(** [DataFrame.abs()]: every column, the metadata ones included. *)
Definition row_abs (r : Row) : Row :=
  mkRow (Z.abs (video r)) (Z.abs (frame r)) (Z.abs (label r)) (map fabs (cells r)).

(** [groupby("video")]: the keys in ascending order, each with its rows in
    table order. *)
Fixpoint insert_key (k : Z) (l : list Z) : list Z :=
  match l with
  | [] => [k]
  | x :: t =>
      if (k <? x)%Z then k :: x :: t
      else if (k =? x)%Z then x :: t
      else x :: insert_key k t
  end.

Definition sorted_keys (ks : list Z) : list Z := fold_right insert_key [] ks.

Definition groupby_video (rs : list Row) : list (Z * list Row) :=
  map (fun k => (k, List.filter (fun r => (video r =? k)%Z) rs))
      (sorted_keys (map video rs)).

(** [grouped[ns].max()]: for one group, the NaN-skipping maximum of every
    column. *)
Definition group_column_max (d : DataFrame) (ns : list string) (g : list Row)
  : list fval :=
  map (fun n => nanmax (map (fun r => cell_by_name d r n) g)) ns.

(** [np.repeat(values, repetitions)] *)
Definition np_repeat {A} (values : list A) (repetitions : list nat) : list A :=
  mjoin (zip_with (fun v n => replicate n v) values repetitions).

Definition normalize_dataframe_legacy (dataframe : loc) : M loc :=
  dataframe ← df_copy dataframe;
  d0 ← df_read dataframe;
  let x_columns := x_columns_of d0 in
  let y_columns := y_columns_of d0 in
  let xy_columns := xy_columns_of d0 in

  (* Move in the x-axis *)
  d ← df_read dataframe;
  xs ← lift (getitems d x_columns);
  let x_smaller_than_0_mask := any_lt (Fin 0) xs in
  let x_offset :=
    map (fun line => fabs (nanmin line)) (select_lines x_smaller_than_0_mask xs) in
  df_loc_assign dataframe x_smaller_than_0_mask x_columns
    (lines_op fadd (select_lines x_smaller_than_0_mask xs) x_offset);;

  (* Move in the y-axis *)
  d ← df_read dataframe;
  ys ← lift (getitems d y_columns);
  let y_smaller_than_0_mask := any_lt (Fin 0) ys in
  let y_offset :=
    map (fun line => fabs (nanmin line)) (select_lines y_smaller_than_0_mask ys) in
  df_loc_assign dataframe y_smaller_than_0_mask y_columns
    (lines_op fadd (select_lines y_smaller_than_0_mask ys) y_offset);;

  (* Scale videos outside (0, 1) to (0, 1) *)
  d ← df_read dataframe;
  xy ← lift (getitems d xy_columns);
  let out_of_scale_mask := any_gt (Fin 1) xy in
  let abs_grouped :=
    groupby_video (map row_abs (select_rows out_of_scale_mask (rows d))) in
  let repetitions := map (fun g => length (snd g)) abs_grouped in
  let max_per_video :=
    map (fun g => nanmax (group_column_max d xy_columns (snd g))) abs_grouped in
  let max_per_video_repeated := np_repeat max_per_video repetitions in
  df_loc_assign dataframe out_of_scale_mask xy_columns
    (lines_op fdiv (select_lines out_of_scale_mask xy) max_per_video_repeated);;

  mret dataframe.

(** [dataframe.loc[dataframe["video"].isin(video_ids), :]] *)
Definition filter_dataframe_by_video_ids (dataframe : DataFrame)
    (video_ids : list Z) : DataFrame :=
  mkDF (columns dataframe)
    (List.filter (fun r => existsb (Z.eqb (video r)) video_ids) (rows dataframe)).

Definition normalize_dataframe (dataframe : loc) (normalization : pyvalue) : M loc :=
  if py_eqb normalization Neg1To1 then
    normalize_dataframe_from_neg1_to_1 dataframe
  else if py_eqb normalization Legacy then
    normalize_dataframe_legacy dataframe
  else
    raise (Exception ("Unknown normalization: " ++ py_repr normalization)).

(** The elements of a list that have the key [k], in the order of the
    list: one group of [groupby]. *)
Definition group_of {A} (key : A -> Z) (rs : list A) (k : Z) : list A :=
  List.filter (fun r => (key r =? k)%Z) rs.

(** The cells of [normalize_dataframe_legacy], step by step, as values
    computed from a row of the argument.  A row is moved on an axis when
    one of its cells on that axis is negative: every cell of the axis
    receives the absolute value of the least of them. *)
Definition negative_row (ns : list string) (T : Row -> string -> fval) (r : Row)
  : bool :=
  existsb (fun v => fltb v (Fin 0)) (map (T r) ns).

Definition shifted (ns : list string) (T : Row -> string -> fval)
  : Row -> string -> fval :=
  assigned (negative_row ns T) ns
    (fun r n => fadd (T r n) (fabs (nanmin (map (T r) ns)))) T.

Definition shifted_xy (d : DataFrame) : Row -> string -> fval :=
  shifted (y_columns_of d) (shifted (x_columns_of d) (cell_by_name d)).

(** A row is out of scale when one of its cells exceeds 1 after the
    moves; the factor of a video is the largest absolute value over the
    out-of-scale rows of the video (videos are told apart by the absolute
    value of their id, as the grouping follows [abs()]). *)
Definition out_of_scale (d : DataFrame) (r : Row) : bool :=
  existsb (fun v => fgtb v (Fin 1)) (map (shifted_xy d r) (columns d)).

Definition abs_video (r : Row) : Z := Z.abs (video r).

Definition video_max (d : DataFrame) (k : Z) : fval :=
  nanmax
    (map (fun n =>
            nanmax (map (fun r => fabs (shifted_xy d r n))
                      (group_of abs_video (List.filter (out_of_scale d) (rows d)) k)))
         (columns d)).

Definition legacy_cells (d : DataFrame) : Row -> string -> fval :=
  assigned (out_of_scale d) (columns d)
    (fun r n => fdiv (shifted_xy d r n) (video_max d (abs_video r)))
    (shifted_xy d).

(** The two claims about the normalizations in the spec's words: a row
    that is all zero after centring on the root is all zero in the result
    of [normalize_dataframe_from_neg1_to_1]; in the result of
    [normalize_dataframe_legacy] every row of a video that has an
    out-of-scale row is divided by the factor of the video. *)
Definition zero_rows_stay_zero (d d' : DataFrame) : Prop :=
  Forall2 (fun r r' =>
    (forall c,
       In c (centred_cells (cell_by_name d r "root_x")
               (cell_by_name d r "root_y") (cells r)) -> feq c (Fin 0)) ->
    forall c', In c' (cells r') -> feq c' (Fin 0)) (rows d) (rows d').


End Preprocessing.
Export Preprocessing.

(** ** preprocessing.py: tensors and layers

    A batch is a rank-4 tensor [(examples, frames, joints, channels)],
    kept with its shape as [tf.shape] reports it. *)

Module Layers.

Record Tensor4 (A : Type) : Type := mkT {
  dim0 : nat;
  dim1 : nat;
  dim2 : nat;
  dim3 : nat;
  data : list (list (list (list A)))
}.
Arguments mkT {A}.
Arguments dim0 {A}.
Arguments dim1 {A}.
Arguments dim2 {A}.
Arguments dim3 {A}.
Arguments data {A}.

Definition wf_tensor {A} (t : Tensor4 A) : Prop :=
  length (data t) = dim0 t /\
  Forall (fun img =>
    length img = dim1 t /\
    Forall (fun fr =>
      length fr = dim2 t /\
      Forall (fun jt => length jt = dim3 t) fr) img) (data t).

(** [t[e, i, j, c]] *)
Definition entry {A} (t : Tensor4 A) (e i j c : nat) : option A :=
  img ← data t !! e; fr ← img !! i; jt ← fr !! j; jt !! c.

(** [PadIfLessThan(frames).call(images)]; [zero] is the constant of
    [tf.pad]. *)
Definition PadIfLessThan {A} (zero : A) (frames : Z) (images : Tensor4 A)
  : Tensor4 A :=
  let height := Z.of_nat (dim1 images) in
  let width := dim2 images in
  let height_pad := Z.to_nat (Z.max 0 (frames - height)) in
  (* tf.pad(images, [[0, 0], [0, height_pad], [0, 0], [0, 0]], "CONSTANT") *)
  let zero_frame := replicate width (replicate (dim3 images) zero) in
  mkT (dim0 images) (dim1 images + height_pad) (dim2 images) (dim3 images)
      (map (fun img => img ++ replicate height_pad zero_frame) (data images)).

(** Bilinear interpolation weights of [tf.image.resize] (half-pixel
    centres): the two source indices and the weight of the second. *)
Definition interpolation (in_size out_size : nat) (i : nat) : nat * nat * Q :=
  let scale := inject_Z (Z.of_nat in_size) / inject_Z (Z.of_nat out_size) in
  let pos := (inject_Z (Z.of_nat i) + (1 # 2)) * scale - (1 # 2) in
  let lower := Z.max (Qfloor pos) 0 in
  let upper := Z.min (Qceiling pos) (Z.of_nat in_size - 1) in
  (Z.to_nat lower, Z.to_nat upper, pos - inject_Z (Qfloor pos)).

Definition lerp (a b w : Q) : Q := a + (b - a) * w.

Definition pixel (img : list (list (list Q))) (y x c : nat) : Q :=
  default 0 (fr ← img !! y; jt ← fr !! x; jt !! c).

Definition resize_image (in_h in_w channels out_h out_w : nat)
    (img : list (list (list Q))) : list (list (list Q)) :=
  map (fun y =>
    let '(y0, y1, wy) := interpolation in_h out_h y in
    map (fun x =>
      let '(x0, x1, wx) := interpolation in_w out_w x in
      map (fun c =>
        let top := lerp (pixel img y0 x0 c) (pixel img y0 x1 c) wx in
        let bottom := lerp (pixel img y1 x0 c) (pixel img y1 x1 c) wx in
        lerp top bottom wy) (seq 0 channels)) (seq 0 out_w)) (seq 0 out_h).

(** [tf.image.resize(images, [new_height, new_width])] *)
Definition tf_image_resize (images : Tensor4 Q) (new_height new_width : Z)
  : result (Tensor4 Q) :=
  if ((new_height <=? 0) || (new_width <=? 0))%Z then
    Raise (InvalidArgumentError "output dimensions must be positive")
  else if (Nat.eqb (dim1 images) 0 || Nat.eqb (dim2 images) 0)%nat then
    Raise (InvalidArgumentError "input image must be of non-zero size")
  else if Nat.eqb (dim3 images) 0 then
    Raise (InvalidArgumentError "image must have at least one channel")
  else
    Ok (mkT (dim0 images) (Z.to_nat new_height) (Z.to_nat new_width) (dim3 images)
          (map (resize_image (dim1 images) (dim2 images) (dim3 images)
                  (Z.to_nat new_height) (Z.to_nat new_width)) (data images))).

(** [ResizeIfMoreThan(frames).call(images)] *)
Definition ResizeIfMoreThan (frames : Z) (images : Tensor4 Q) : result (Tensor4 Q) :=
  let height := Z.of_nat (dim1 images) in
  let width := Z.of_nat (dim2 images) in
  let new_size := (frames, width) in
  if (height >? frames)%Z
  then tf_image_resize images (fst new_size) (snd new_size)
  else Ok images.

(** [tf.keras.Sequential([PadIfLessThan(frames), ResizeIfMoreThan(frames)])] *)
Definition length_normalization (frames : Z) (images : Tensor4 Q)
  : result (Tensor4 Q) :=
  ResizeIfMoreThan frames (PadIfLessThan 0 frames images).

(** The floating formats of a tensor ([batch.dtype]) and the largest
    finite number of each. *)
Inductive DType : Type :=
| float16
| bfloat16
| float32
| float64.

Definition dtype_max (dtype : DType) : Q :=
  match dtype with
  | float16 => float16_max
  | bfloat16 => bfloat16_max
  | float32 => float32_max
  | float64 => float64_max
  end.

(** [tf.math.divide_no_nan]: 0 wherever the divisor is 0. *)
Definition divide_no_nan (dtype : DType) (x y : fval) : fval :=
  match y with
  | Fin q => if Qeq_bool q 0 then Fin 0 else fdiv_in (dtype_max dtype) x y
  | _ => fdiv_in (dtype_max dtype) x y
  end.

(** [tf.reduce_min] and [tf.reduce_max] over the listed entries, from the
    identity of the operation; a NaN among the entries is the result. *)
Definition fmin (m v : fval) : fval :=
  if isnan m then m else if isnan v then v else if fltb v m then v else m.

Definition fmax (m v : fval) : fval :=
  if isnan m then m else if isnan v then v else if fltb m v then v else m.

Definition reduce_min (l : list fval) : fval := fold_left fmin l PInf.

Definition reduce_max (l : list fval) : fval := fold_left fmax l NInf.

(** The entries of one channel of an image, over frames and joints, and of
    one channel of one joint, over frames. *)
Definition channel_values (img : list (list (list fval))) (c : nat) : list fval :=
  mjoin (map (fun fr => map (fun jt => default NaN (jt !! c)) fr) img).

Definition joint_values (img : list (list (list fval))) (j c : nat) : list fval :=
  map (fun fr => default NaN (jt ← fr !! j; jt !! c)) img.

(** [divide_no_nan(v - lo, hi - lo)] *)
Definition min_max_scale (dtype : DType) (v lo hi : fval) : fval :=
  divide_no_nan dtype (fsub_in (dtype_max dtype) v lo)
                      (fsub_in (dtype_max dtype) hi lo).

(** The entries that share their minimum and maximum with the entry of
    joint [j] and channel [c]: the channel of the example, or the channel
    of that joint. *)
Definition scale_slice (level : string) (img : list (list (list fval))) (j c : nat)
  : list fval :=
  if String.eqb level "channel" then channel_values img c
  else joint_values img j c.

(** [[red, green, blue] = tf.unstack(batch, axis=-1)]: the list that
    [tf.unstack] returns is unpacked into exactly three names. *)
Definition unstack3 {A} (batch : Tensor4 A) : result (Tensor4 A) :=
  if Nat.eqb (dim3 batch) 3 then Ok batch
  else if (dim3 batch <? 3)%nat then
    Raise (ValueError ("not enough values to unpack (expected 3, got "
                       ++ NilEmpty.string_of_uint (Nat.to_uint (dim3 batch))
                       ++ ")"))
  else Raise (ValueError "too many values to unpack (expected 3)").

Definition channel_level_translation_scale_invariant (dtype : DType)
    (batch : Tensor4 fval) : result (Tensor4 fval) :=
  b ← unstack3 batch;
  mret (mkT (dim0 b) (dim1 b) (dim2 b) 3
         (map (fun img =>
            map (fun fr =>
              map (fun jt =>
                imap (fun c v =>
                  min_max_scale dtype v (reduce_min (channel_values img c))
                                        (reduce_max (channel_values img c))) jt)
              fr) img) (data b))).

Definition joint_level_translation_scale_invariant (dtype : DType)
    (batch : Tensor4 fval) : result (Tensor4 fval) :=
  b ← unstack3 batch;
  mret (mkT (dim0 b) (dim1 b) (dim2 b) 3
         (map (fun img =>
            map (fun fr =>
              imap (fun j jt =>
                imap (fun c v =>
                  min_max_scale dtype v (reduce_min (joint_values img j c))
                                        (reduce_max (joint_values img j c))) jt)
              fr) img) (data b))).

(** [TranslationScaleInvariant(level)]: the constructor looks the level up
    in [level_dict], the call dispatches on it.  [dtype] is the dtype of
    the batch. *)
Definition level_dict (level : string) : result Z :=
  if String.eqb level "channel" then Ok 0%Z
  else if String.eqb level "joint" then Ok 1%Z
  else Raise (KeyError level).

Definition TranslationScaleInvariant (level : string) (dtype : DType)
    (batch : Tensor4 fval) : result (Tensor4 fval) :=
  lv ← level_dict level;
  if (lv =? 0)%Z
  then channel_level_translation_scale_invariant dtype batch
  else joint_level_translation_scale_invariant dtype batch.


(** [t[:, :, index]] on the joints: a negative index counts from the end;
    an index outside the axis is rejected when the function is traced. *)
Definition joint_index (index : Z) (joints : nat) : result nat :=
  let k := if (index <? 0)%Z then (index + Z.of_nat joints)%Z else index in
  if ((0 <=? k) && (k <? Z.of_nat joints))%Z then Ok (Z.to_nat k)
  else Raise (ValueError "slice index out of bounds").

(** [Center(around_index).call(batch)]; [dtype] is the dtype of the
    batch. *)
Definition Center (around_index : Z) (dtype : DType) (batch : Tensor4 fval)
  : result (Tensor4 fval) :=
  (* [red, green, blue] = tf.unstack(batch, axis=-1) *)
  b ← unstack3 batch;
  (* red[:, :, self.around_index], green[:, :, self.around_index] *)
  k ← joint_index around_index (dim2 b);
  mret (mkT (dim0 b) (dim1 b) (dim2 b) 3
         (map (fun img =>
            map (fun fr =>
              let red_around_joint := default NaN (jt ← fr !! k; jt !! 0%nat) in
              let green_around_joint := default NaN (jt ← fr !! k; jt !! 1%nat) in
              map (fun jt =>
                imap (fun c v =>
                  if Nat.eqb c 0
                  then fsub_in (dtype_max dtype) v red_around_joint
                  else if Nat.eqb c 1
                  then fsub_in (dtype_max dtype) v green_around_joint
                  else v) jt)
              fr) img) (data b))).

End Layers.
Export Layers.

(** ** dataset.py: the dataset builder *)

Module DatasetBuilder.

(** One element of the dataset: the frames of a video, each a list of
    joints with three channels, and the one-hot label. *)
Record Example : Type := mkExample {
  ex_x : list (list (list fval));
  ex_y : list Q
}.

(** [Series.unique()]: the distinct values in order of appearance. *)
Fixpoint unique_in_order (seen l : list Z) : list Z :=
  match l with
  | [] => []
  | x :: t =>
      if existsb (Z.eqb x) seen then unique_in_order seen t
      else x :: unique_in_order (x :: seen) t
  end.

(** [RaggedTensor.from_row_lengths(values, row_lengths)] *)
Fixpoint from_row_lengths {A} (values : list A) (row_lengths : list nat)
  : list (list A) :=
  match row_lengths with
  | [] => []
  | n :: ns => take n values :: from_row_lengths (drop n values) ns
  end.

(** [OneHotEncoder().fit_transform(X).toarray()]: [X] has one line per
    sample and one column per feature; the categories of a feature are its
    distinct values in ascending order. *)
Definition categories_of (X : list (list Z)) (j : nat) : list Z :=
  sorted_keys (map (fun line => default 0%Z (line !! j)) X).

Fixpoint position (v : Z) (l : list Z) : nat :=
  match l with
  | [] => 0
  | x :: t => if (v =? x)%Z then 0 else S (position v t)
  end.

Definition one_hot (width pos : nat) : list Q :=
  map (fun i => if Nat.eqb i pos then 1 else 0) (seq 0 width).

Definition fit_transform (X : list (list Z)) : result (list (list Q)) :=
  match X with
  | [] =>
      (* the number of features is read from X[0] *)
      Raise (IndexError "list index out of range")
  | first :: _ =>
      let n_features := length first in
      if negb (forallb (fun line => Nat.eqb (length line) n_features) X)
      then Raise (ValueError "setting an array element with a sequence")
      else
        Ok (map (fun line =>
                   mjoin (imap (fun j v =>
                            let cats := categories_of X j in
                            one_hot (length cats) (position v cats)) line)) X)
  end.

(** [if len(filter_video_ids) > 0: dataframe = dataframe[...isin(...)]] *)
Definition filtered_table (dataframe : DataFrame) (filter_video_ids : list Z)
  : DataFrame :=
  if (0 <? length filter_video_ids)%nat
  then filter_dataframe_by_video_ids dataframe filter_video_ids
  else dataframe.

(** The distinct label values of a list of rows, in ascending order, and
    the label of a video: that of its first row. *)
Definition distinct_labels (rs : list Row) : list Z :=
  sorted_keys (map label rs).

Definition video_rows (rs : list Row) (k : Z) : list Row :=
  List.filter (fun r => (video r =? k)%Z) rs.

Definition first_label (rs : list Row) (k : Z) : Z :=
  default 0%Z (head (map label (video_rows rs k))).

Definition dataframe_to_dataset (dataframe : DataFrame) (columns : list string)
    (filter_video_ids : list Z) : result (list Example) :=
  let x_sorted_columns := map (fun col : string => (col ++ "_x")%string) columns in
  let y_sorted_columns := map (fun col : string => (col ++ "_y")%string) columns in

  let dataframe := filtered_table dataframe filter_video_ids in

  xs ← getitems dataframe x_sorted_columns;
  ys ← getitems dataframe y_sorted_columns;
  let stacked_images :=
    zip_with (fun lx ly => zip_with (fun x y => [x; y; Fin 0]) lx ly) xs ys in
  let groups := groupby_video (rows dataframe) in
  let video_labels := map (fun g => unique_in_order [] (map label (snd g))) groups in
  let video_lengths := map (fun g => length (snd g)) groups in

  let X := from_row_lengths stacked_images video_lengths in
  y ← fit_transform video_labels;

  mret (zip_with mkExample X y).

(** The reading of the label encoding as fit on the training and
    validation corpora together. *)
Definition width_is_combined (train val : DataFrame) (columns : list string)
  : Prop :=
  forall ds e,
    dataframe_to_dataset val columns [] = Ok ds -> In e ds ->
    length (ex_y e) = length (distinct_labels (rows train ++ rows val)).

(** [bucket_by_sequence_length]: the bucket of a length is the first
    interval [buckets_min[i] <= length < buckets_max[i]]. *)
Definition int32_min : Z := (- 2147483648)%Z.
Definition int32_max : Z := 2147483647%Z.

Fixpoint first_bucket (i : nat) (lo hi : list Z) (len : Z) : nat :=
  match lo, hi with
  | l :: lo', h :: hi' =>
      if ((l <=? len) && (len <? h))%Z then i else first_bucket (S i) lo' hi' len
  | _, _ => i
  end.

Definition bucket_id (bucket_boundaries : list Z) (len : Z) : nat :=
  let buckets_min := int32_min :: bucket_boundaries in
  let buckets_max := bucket_boundaries ++ [int32_max] in
  first_bucket 0 buckets_min buckets_max len.

(** [group_by_window]: elements are appended to the window of their key; a
    full window is emitted as one batch; at the end of the input the
    unfinished windows are emitted by ascending key. *)
Fixpoint group_by_window {A} (key : A -> nat) (window_size : nat -> nat)
    (n_keys : nat) (windows : gmap nat (list A)) (input : list A)
  : list (list A) :=
  match input with
  | [] => omap (fun k => windows !! k) (seq 0 n_keys)
  | x :: rest =>
      let k := key x in
      let w := default [] (windows !! k) ++ [x] in
      if Nat.eqb (length w) (window_size k)
      then w :: group_by_window key window_size n_keys (delete k windows) rest
      else group_by_window key window_size n_keys (<[k := w]> windows) rest
  end.

Definition bucket_by_sequence_length {A} (element_length_func : A -> Z)
    (bucket_boundaries : list Z) (bucket_batch_sizes : list Z)
    (ds : list A) : result (list (list A)) :=
  if negb (Nat.eqb (length bucket_batch_sizes) (length bucket_boundaries + 1))
  then Raise (ValueError "len(bucket_batch_sizes) must equal len(bucket_boundaries) + 1")
  else if negb (forallb (fun b => (0 <? b)%Z) bucket_batch_sizes)
  then Raise (InvalidArgumentError "Window size must be greater than zero")
  else
    Ok (group_by_window
          (fun x => bucket_id bucket_boundaries (element_length_func x))
          (fun k => Z.to_nat (default 1%Z (bucket_batch_sizes !! k)))
          (length bucket_batch_sizes) ∅ ds).

(** The batches of the evaluation pipeline, before [test_map_fn]. *)
Definition eval_batches (dataframe : DataFrame) (columns : list string)
    (video_ids : list Z) (batch_size : Z) : result (list (list Example)) :=
  (* convert dataframe to dataset *)
  ds ← dataframe_to_dataset dataframe columns video_ids;
  (* batch dataset *)
  let max_element_length :=
    fold_right Nat.max 0%nat
      (map (fun g => length (snd g)) (groupby_video (rows dataframe))) in
  let bucket_boundaries := map Z.of_nat (seq 1 (max_element_length - 1)) in
  let bucket_batch_sizes := replicate max_element_length batch_size in
  bucket_by_sequence_length (fun e => Z.of_nat (length (ex_x e)))
    bucket_boundaries bucket_batch_sizes ds.

Definition generate_test_dataset {B} (dataframe : DataFrame) (columns : list string)
    (video_ids : list Z) (test_map_fn : list Example -> result B)
    (batch_size : Z) : result (list B) :=
  batches ← eval_batches dataframe columns video_ids batch_size;
  (* map dataset *)
  mapM test_map_fn batches.

(** One line of [stacked_images]: for every joint the x and y cells of the
    row and a zero third channel. *)
Definition frame_image (t : DataFrame) (columns : list string) (r : Row)
  : list (list fval) :=
  map (fun col : string =>
         [cell_by_name t r (col ++ "_x"); cell_by_name t r (col ++ "_y"); Fin 0])
      columns.

(** The elements waiting in the windows of the keys [ks]. *)
Definition waiting {A} (ks : list nat) (windows : gmap nat (list A)) : list A :=
  mjoin (omap (fun k => windows !! k) ks).

(** Every element of a window has the key of the window. *)
Definition keyed {A} (key : A -> nat) (windows : gmap nat (list A)) : Prop :=
  forall k w x, windows !! k = Some w -> In x w -> key x = k.

(** A waiting window is not empty and not yet full. *)
Definition filling {A} (window_size : nat -> nat) (windows : gmap nat (list A))
  : Prop :=
  forall k w, windows !! k = Some w ->
    (1 <= length w < window_size k)%nat.

(** [max_element_length] of [generate_test_dataset] *)
Definition max_element_length (dataframe : DataFrame) : nat :=
  fold_right Nat.max 0%nat
    (map (fun g => length (snd g)) (groupby_video (rows dataframe))).

End DatasetBuilder.
Export DatasetBuilder.

(** ** dataset.py: the [Dataset] class *)

Module DatasetClass.

(** Binding of keyword arguments at a call: a keyword that names no
    parameter, or one already bound by position, is a [TypeError] raised
    before the body runs; a parameter left unbound takes its default.
    [fname] is the name the message shows: the qualified name of the
    function (Python 3.10 and later). *)
Fixpoint check_kwargs (fname : string) (positional params : list string)
    (kwargs : list (string * pyvalue)) : result unit :=
  match kwargs with
  | [] => Ok tt
  | (k, _) :: rest =>
      if existsb (String.eqb k) positional then
        Raise (TypeError (fname ++ "() got multiple values for argument '" ++ k ++ "'"))
      else if existsb (String.eqb k) params then
        check_kwargs fname positional params rest
      else
        Raise (TypeError (fname ++ "() got an unexpected keyword argument '" ++ k ++ "'"))
  end.

Fixpoint kwarg (name : string) (default_value : pyvalue)
    (kwargs : list (string * pyvalue)) : pyvalue :=
  match kwargs with
  | [] => default_value
  | (k, v) :: rest => if String.eqb k name then v else kwarg name default_value rest
  end.

Definition as_labels (v : pyvalue) : result (list string) :=
  match v with
  | PyList l =>
      mapM (fun x => match x with
                     | PyStr s => Ok s
                     | _ => Raise (TypeError "column labels must be strings")
                     end) l
  | _ => Raise (TypeError "object has no len()")
  end.

(** A call [preprocess_dataframe(dataframe, **kwargs)] *)
Definition call_preprocess_dataframe (dataframe : loc)
    (kwargs : list (string * pyvalue)) : M loc :=
  lift (check_kwargs "preprocess_dataframe" ["dataframe"]
          ["select_columns"; "with_root"; "with_midhip"] kwargs);;
  select_columns ← lift (as_labels (kwarg "select_columns" (PyList []) kwargs));
  preprocess_dataframe dataframe select_columns
    (py_truthy (kwarg "with_root" (PyBool true) kwargs))
    (py_truthy (kwarg "with_midhip" (PyBool false) kwargs)).

(** The augmentation catalog; the layers themselves live in
    [data_augmentation] and are named here by their key. *)
Definition available_augmentations : list string :=
  ["scale"; "shift"; "flip"; "rotation"; "speed"].

Definition augmentations_order_legacy : list string :=
  ["scale"; "shift"; "flip"; "rotation"; "speed"].
Definition augmentations_order : list string := ["flip"; "rotation"; "speed"].

(** [for aug in augmentations] *)
Definition py_iter (v : pyvalue) : result (list pyvalue) :=
  match v with
  | PyList l => Ok l
  | PyStr s => Ok (map (fun c => PyStr (String c EmptyString)) (list_ascii_of_string s))
  | _ => Raise (TypeError "object is not iterable")
  end.

(** [available_augmentations[aug]] *)
Definition lookup_augmentation (aug : pyvalue) : result string :=
  match aug with
  | PyStr s =>
      if existsb (String.eqb s) available_augmentations then Ok s
      else Raise (KeyError s)
  | PyList _ => Raise (TypeError "unhashable type: 'list'")
  | _ => Raise (KeyError (py_repr aug))
  end.

Definition as_int (v : pyvalue) : result Z :=
  match v with
  | PyInt z => Ok z
  | PyBool b => Ok (Z.b2z b)
  | _ => Raise (TypeError "an integer is required")
  end.

(** The training pipeline is random (shuffling, augmentation); it is kept
    as the description of its stages. *)
Record TrainDataset : Type := mkTrain {
  source : list Example;
  shuffle_buffer : Z;
  augmentation : list string;
  target_shape : Z * Z * Z;
  batch : Z;
  parallel_map : bool;
  prefetch : bool;
  repeated : bool
}.

Definition generate_train_dataset (dataframe : DataFrame) (columns : list string)
    (video_ids : list Z) (train_map_fn : list string * (Z * Z * Z))
    (repeat : bool) (batch_size buffer_size : Z) (deterministic : bool)
  : result TrainDataset :=
  (* convert dataframe to dataset *)
  ds ← dataframe_to_dataset dataframe columns video_ids;
  (* shuffle, map and batch dataset *)
  let train_dataset :=
    if deterministic
    then mkTrain ds buffer_size (fst train_map_fn) (snd train_map_fn)
           batch_size false false false
    else mkTrain ds buffer_size (fst train_map_fn) (snd train_map_fn)
           batch_size true true false in
  mret (if repeat
        then mkTrain (source train_dataset) (shuffle_buffer train_dataset)
               (augmentation train_dataset) (target_shape train_dataset)
               (batch train_dataset) (parallel_map train_dataset)
               (prefetch train_dataset) true
        else train_dataset).

(** [x.to_tensor()] on a ragged batch: every example is padded with zero
    frames to the longest one. *)
Definition to_tensor (xs : list (list (list (list fval)))) : Tensor4 fval :=
  let frames := fold_right Nat.max 0%nat (map (@length _) xs) in
  let joints := match xs with (fr :: _) :: _ => length fr | _ => 0%nat end in
  mkT (length xs) frames joints 3
      (map (fun x => x ++ replicate (frames - length x)
                            (replicate joints (replicate 3 (Fin 0)))) xs).

Inductive Pipeline : Type :=
| Training (t : TrainDataset)
| Evaluation (batches : list (Tensor4 fval * list (list Q))).

Section Dataset.

(** [config.INPUT_HEIGHT], [config.INPUT_WIDTH], the joint order returned
    by [skeleton_graph.tssi_v2], and the default of [get_validation_set],
    [core.Normalization.neg1to1]: modules outside this development. *)
Variable INPUT_HEIGHT INPUT_WIDTH : Z.
Variable tssi_v2_joints_order : list string.
Variable core_Normalization_neg1to1 : pyvalue.

Record Dataset : Type := mkDataset {
  joints_order : list string;
  train_dataframe : loc;
  validation_dataframe : loc;
  test_dataframe : option loc;
  num_train_examples : nat;
  num_val_examples : nat;
  num_test_examples : nat;
  num_total_examples : nat
}.

(** [len(dataframe["video"].unique())] *)
Definition count_videos (d : DataFrame) : nat :=
  length (unique_in_order [] (map video (rows d))).

(** [Dataset.__init__] *)
Definition Dataset_init (train_dataframe validation_dataframe : loc)
    (test_dataframe : option loc) : M Dataset :=
  (* retrieve the joints order *)
  let joints_order := tssi_v2_joints_order in
  (* obtain characteristics of the dataset *)
  dt ← df_read train_dataframe;
  dv ← df_read validation_dataframe;
  let num_train_examples := count_videos dt in
  let num_val_examples := count_videos dv in
  let num_total_examples := (num_train_examples + num_val_examples)%nat in
  num_test_examples ←
    match test_dataframe with
    | Some l => d ← df_read l; mret (count_videos d)
    | None => mret 0%nat
    end;
  mret (mkDataset joints_order train_dataframe validation_dataframe
          test_dataframe num_train_examples num_val_examples
          num_test_examples num_total_examples).

Definition get_training_set (self : Dataset) (kwargs : list (string * pyvalue))
  : M Pipeline :=
  lift (check_kwargs "Dataset.get_training_set" ["self"]
          ["batch_size"; "buffer_size"; "repeat"; "deterministic";
           "augmentations"; "normalization"] kwargs);;
  let batch_size := kwarg "batch_size" (PyInt 32) kwargs in
  let buffer_size := kwarg "buffer_size" (PyInt 5000) kwargs in
  let repeat := kwarg "repeat" (PyBool false) kwargs in
  let deterministic := kwarg "deterministic" (PyBool false) kwargs in
  let augmentations := kwarg "augmentations" (PyList []) kwargs in
  let normalization := kwarg "normalization" Neg1To1 kwargs in

  (* preprocess the train dataframe *)
  train_dataframe ← call_preprocess_dataframe (train_dataframe self)
    [("with_root", PyBool true); ("with_midhip", PyBool false);
     ("normalization", normalization)];

  (* define the list of augmentations in the default order *)
  let augmentations :=
    if py_eqb augmentations (PyStr "all")
    then PyList (map PyStr augmentations_order)
    else augmentations in

  (* define the augmentation layers based on the list of augmentations *)
  items ← lift (py_iter augmentations);
  layers ← lift (mapM lookup_augmentation items);

  (* the train map function: augmentation, length normalization and
     tf.ensure_shape(x, [INPUT_HEIGHT, INPUT_WIDTH, 3]) *)
  let train_map_fn := (layers, (INPUT_HEIGHT, INPUT_WIDTH, 3%Z)) in

  d ← df_read train_dataframe;
  batch_size ← lift (as_int batch_size);
  buffer_size ← lift (as_int buffer_size);
  dataset ← lift (generate_train_dataset d (joints_order self) [] train_map_fn
                    (py_truthy repeat) batch_size buffer_size
                    (py_truthy deterministic));
  mret (Training dataset).

(** [val_map_fn] and [test_map_fn]: densify, then pad to [INPUT_HEIGHT]. *)
Definition eval_map_fn (b : list Example)
  : result (Tensor4 fval * list (list Q)) :=
  let x := to_tensor (map ex_x b) in
  let x := PadIfLessThan (Fin 0) INPUT_HEIGHT x in
  Ok (x, map ex_y b).

Definition get_validation_set (self : Dataset) (kwargs : list (string * pyvalue))
  : M Pipeline :=
  lift (check_kwargs "Dataset.get_validation_set" ["self"]
          ["batch_size"; "normalization"] kwargs);;
  let batch_size := kwarg "batch_size" (PyInt 32) kwargs in
  let normalization := kwarg "normalization" core_Normalization_neg1to1 kwargs in

  (* preprocess the validation dataframe *)
  val_dataframe ← call_preprocess_dataframe (validation_dataframe self)
    [("with_root", PyBool true); ("with_midhip", PyBool false);
     ("normalization", normalization)];

  d ← df_read val_dataframe;
  batch_size ← lift (as_int batch_size);
  dataset ← lift (generate_test_dataset d (joints_order self) [] eval_map_fn
                    batch_size);
  mret (Evaluation dataset).

Definition get_testing_set (self : Dataset) (kwargs : list (string * pyvalue))
  : M Pipeline :=
  lift (check_kwargs "Dataset.get_testing_set" ["self"]
          ["batch_size"; "normalization"] kwargs);;
  let batch_size := kwarg "batch_size" (PyInt 32) kwargs in
  let normalization := kwarg "normalization" Neg1To1 kwargs in

  (* raise exception if test_dataframe does not exist *)
  match test_dataframe self with
  | None => raise (Exception "Test dataframe was not provided")
  | Some test_df =>
      (* preprocess the test dataframe *)
      test_dataframe ← call_preprocess_dataframe test_df
        [("with_root", PyBool true); ("with_midhip", PyBool false);
         ("normalization", normalization)];

      d ← df_read test_dataframe;
      batch_size ← lift (as_int batch_size);
      dataset ← lift (generate_test_dataset d (joints_order self) [] eval_map_fn
                        batch_size);
      mret (Evaluation dataset)
  end.

End Dataset.

End DatasetClass.
Export DatasetClass.

(** ** validation.py: the training script *)

Module Validation.

(** [config[key]] on a dictionary *)
Definition dict_get (config : list (string * pyvalue)) (key : string)
  : result pyvalue :=
  match List.find (fun kv => String.eqb (fst kv) key) config with
  | Some kv => Ok (snd kv)
  | None => Raise (KeyError key)
  end.

Section Script.

(** [config.INPUT_HEIGHT], [config.INPUT_WIDTH] and
    [core.Normalization.neg1to1] as in [dataset.py].  The optimizer, the
    model, the callbacks and the two calls of [model.fit] belong to
    modules outside this development: [fit] stands for all that
    [run_experiment] does with the two datasets once it has them. *)
Variable INPUT_HEIGHT INPUT_WIDTH : Z.
Variable core_Normalization_neg1to1 : pyvalue.
Variable History : Type.
Variable fit : list (string * pyvalue) -> Pipeline -> Pipeline -> M History.

Definition run_experiment (dataset : Dataset)
    (config : option (list (string * pyvalue))) : M (option History) :=
  (* check if config was provided *)
  match config with
  | None => mret None
  | Some config =>
      (* generate train dataset *)
      batch_size ← lift (dict_get config "batch_size");
      pipeline ← lift (dict_get config "pipeline");
      train_dataset ← get_training_set INPUT_HEIGHT INPUT_WIDTH dataset
        [("batch_size", batch_size);
         ("buffer_size", PyInt (Z.of_nat (num_train_examples dataset)));
         ("repeat", PyBool false);
         ("deterministic", PyBool true);
         ("pipeline", pipeline)];

      (* generate val dataset *)
      batch_size ← lift (dict_get config "batch_size");
      pipeline ← lift (dict_get config "pipeline");
      validation_dataset ← get_validation_set INPUT_HEIGHT
        core_Normalization_neg1to1 dataset
        [("batch_size", batch_size); ("pipeline", pipeline)];

      (* setup optimizer, model and callbacks; train model *)
      history ← fit config train_dataset validation_dataset;
      mret (Some history)
  end.

End Script.

End Validation.
Export Validation.

(** ** Sample inputs *)

Module Samples.

Definition sample_dataset : Dataset :=
  mkDataset ["pose_0"] 0%nat 1%nat (Some 2%nat) 1 1 1 2.

Definition sample_dataset_without_test : Dataset :=
  mkDataset ["pose_0"] 0%nat 1%nat None 1 1 0 2.

(** One example of two frames, one joint, three channels. *)
Definition sample_batch : Tensor4 Q :=
  mkT 1 2 1 3 [[ [[1; 2; 0]]; [[3; 2; 0]] ]].

(** The same batch as a float tensor, and a batch of two finite float32
    entries per channel that lie further apart than the largest float32
    number. *)
Definition float_batch : Tensor4 fval :=
  mkT 1 2 1 3 [[ [[Fin 1; Fin 2; Fin 0]]; [[Fin 3; Fin 2; Fin 0]] ]].


(** A table of two videos: video 1 has one frame, video 2 has two. *)
Definition two_videos : DataFrame :=
  mkDF ["pose_0_x"; "pose_0_y"]
    [mkRow 1 0 5 [Fin 1; Fin 2];
     mkRow 2 0 7 [Fin 3; Fin 4];
     mkRow 2 1 7 [Fin 5; Fin 6]].

(** A validation table whose only video has label 7. *)
Definition one_video : DataFrame :=
  mkDF ["pose_0_x"; "pose_0_y"]
    [mkRow 9 0 7 [Fin 1; Fin 2]].

(** A table of one video with two frames; the left hand and the face are
    not detected in the first frame. *)
Definition sample_table : DataFrame :=
  mkDF ["pose_0_x"; "pose_0_y"; "pose_11_x"; "pose_11_y"; "pose_12_x"; "pose_12_y";
        "pose_15_x"; "pose_15_y"; "pose_16_x"; "pose_16_y";
        "leftHand_0_x"; "leftHand_0_y"; "face_0_x"; "face_0_y"]
    [mkRow 1 0 7 [Fin 1; Fin 2; Fin 3; Fin 4; Fin 5; Fin 6; Fin 7; Fin 8;
                  Fin 9; Fin 10; NaN; Fin 12; NaN; NaN];
     mkRow 1 1 7 [Fin 1; Fin 2; Fin 3; Fin 4; Fin 5; Fin 6; Fin 7; Fin 8;
                  Fin 9; Fin 10; Fin 11; Fin 12; Fin 13; Fin 14]].

Definition sample_heap : heap := {[ 0%nat := sample_table ]}.

(** A table with root columns; in its second row every joint is at the root. *)
Definition rooted_table : DataFrame :=
  mkDF ["pose_0_x"; "pose_0_y"; "root_x"; "root_y"]
    [mkRow 1 0 7 [Fin 3; Fin 2; Fin 1; Fin 1];
     mkRow 1 1 7 [Fin 1; Fin 1; Fin 1; Fin 1]].

Definition rooted_heap : heap := {[ 0%nat := rooted_table ]}.

(** A table in which video 1 has the labels 5 and 6 and video 2 the
    label 7. *)
Definition two_labels : DataFrame :=
  mkDF ["pose_0_x"; "pose_0_y"]
    [mkRow 1 0 5 [Fin 1; Fin 2];
     mkRow 1 1 6 [Fin 3; Fin 4];
     mkRow 2 0 7 [Fin 5; Fin 6]].

(** Two videos in the order of their ids; the first has a negative x and
    coordinates above 1. *)
Definition legacy_table : DataFrame :=
  mkDF ["pose_0_x"; "pose_0_y"]
    [mkRow 1 0 7 [Fin (-1); Fin 2];
     mkRow 1 1 7 [Fin 3; Fin 1];
     mkRow 2 0 5 [Fin (1 # 2); Fin (1 # 2)]].


(** A table whose coordinates are already between 0 and 1. *)
Definition unit_table : DataFrame :=
  mkDF ["pose_0_x"; "pose_0_y"]
    [mkRow 1 0 7 [Fin (1 # 2); Fin 1];
     mkRow 2 0 5 [Fin 0; NaN]].

End Samples.
Export Samples.

(** * Properties *)

(** ** Lists *)

Module ListFacts.

Lemma lookup_map {A B} (f : A -> B) (l : list A) (i : nat) :
  map f l !! i = f <$> (l !! i).
Proof. exact (list_lookup_fmap f l i). Qed.

End ListFacts.
Export ListFacts.

(** ** Cells and columns *)

Module FrameFacts.

Lemma index_of_Some (n : string) (cols : list string) (p : nat) :
  index_of n cols = Some p -> cols !! p = Some n.
Proof.
  revert p. induction cols as [|x t IH]; intros p; simpl; [discriminate|].
  destruct (String.eqb_spec n x) as [-> | Hne].
  - now intros [= <-].
  - destruct (index_of n t) as [q|]; simpl; [|discriminate].
    intros [= <-]. simpl. now apply IH.
Qed.

Lemma index_of_In (n : string) (cols : list string) :
  In n cols -> exists p, index_of n cols = Some p.
Proof.
  induction cols as [|x t IH]; simpl; [easy|].
  destruct (String.eqb_spec n x) as [-> | Hne]; [eauto|].
  intros [Heq | Hin]; [congruence|].
  destruct (IH Hin) as [p ->]. simpl. eauto.
Qed.

Lemma index_of_notin (n : string) (cols : list string) :
  ~ In n cols -> index_of n cols = None.
Proof.
  intros Hn. destruct (index_of n cols) as [p|] eqn:E; [|reflexivity].
  exfalso. apply Hn. apply index_of_Some in E.
  apply list_elem_of_In. eapply list_elem_of_lookup_2. exact E.
Qed.

(** With distinct labels a label is found where it stands. *)
Lemma index_of_lookup (cols : list string) (p : nat) (n : string) :
  NoDup cols -> cols !! p = Some n -> index_of n cols = Some p.
Proof.
  intros Hnd Hp.
  destruct (index_of_In n cols) as [q Hq].
  { apply list_elem_of_In. eapply list_elem_of_lookup_2. exact Hp. }
  rewrite Hq. f_equal. apply index_of_Some in Hq.
  eapply NoDup_lookup; eassumption.
Qed.

Lemma index_of_lt (n : string) (cols : list string) (p : nat) :
  index_of n cols = Some p -> (p < length cols)%nat.
Proof. intros H. apply index_of_Some in H. eapply lookup_lt_Some. exact H. Qed.

Lemma index_of_inj (cols : list string) (a b : string) (p : nat) :
  index_of a cols = Some p -> index_of b cols = Some p -> a = b.
Proof.
  intros Ha Hb. apply index_of_Some in Ha, Hb. congruence.
Qed.

Lemma is_base_In (n : string) : is_base n = true <-> In n base_columns.
Proof.
  unfold is_base, base_columns. simpl.
  rewrite !orb_true_iff, !String.eqb_eq. intuition congruence.
Qed.

Lemma meta_value_None (r : Row) (n : string) :
  is_base n = false -> meta_value r n = None.
Proof.
  unfold is_base, meta_value. intros H.
  apply orb_false_iff in H as [H H3]. apply orb_false_iff in H as [H1 H2].
  now rewrite H1, H2, H3.
Qed.

(** In a well-formed table a coordinate label is not a metadata label. *)
Lemma coordinate_not_base (d : DataFrame) (n : string) :
  wf d -> In n (columns d) -> is_base n = false.
Proof.
  intros [Hnd _] Hn. destruct (is_base n) eqn:E; [|reflexivity].
  apply is_base_In in E. exfalso.
  apply NoDup_app in Hnd as (_ & Hdisj & _).
  apply (Hdisj n); now apply list_elem_of_In.
Qed.

Lemma wf_NoDup (d : DataFrame) : wf d -> NoDup (columns d).
Proof.
  intros [Hnd _]. now apply NoDup_app in Hnd as (_ & _ & H).
Qed.

Lemma has_column_In (d : DataFrame) (n : string) :
  In n (columns d) -> has_column d n = true.
Proof.
  intros Hn. unfold has_column. apply orb_true_iff. right.
  apply bool_decide_eq_true. destruct (index_of_In n _ Hn) as [p ->]. eauto.
Qed.

Lemma missing_column_None (d : DataFrame) (ns : list string) :
  (forall n, In n ns -> In n (columns d)) -> missing_column d ns = None.
Proof.
  intros H. unfold missing_column.
  destruct (find _ ns) as [n|] eqn:E; [|reflexivity].
  apply find_some in E as [Hin Hf]. rewrite has_column_In in Hf; [discriminate|].
  now apply H.
Qed.

Lemma cell_by_name_coordinate (d : DataFrame) (r : Row) (n : string) (p : nat) :
  is_base n = false -> index_of n (columns d) = Some p ->
  cell_by_name d r n = cell r p.
Proof.
  intros Hb Hp. unfold cell_by_name. now rewrite (meta_value_None r n Hb), Hp.
Qed.

Lemma set_cell_length (d : DataFrame) (a : string) (v : fval) (r : Row) :
  length (cells (set_cell d a v r)) = length (cells r).
Proof.
  unfold set_cell. destruct (index_of a (columns d)); simpl; [|reflexivity].
  apply length_insert.
Qed.

Lemma set_cell_metadata (d : DataFrame) (a : string) (v : fval) (r : Row) :
  same_metadata r (set_cell d a v r).
Proof. unfold set_cell. now destruct (index_of a (columns d)). Qed.

Lemma cell_set_cell (d : DataFrame) (a n : string) (v : fval) (r : Row) :
  In a (columns d) -> In n (columns d) -> is_base n = false ->
  length (cells r) = length (columns d) ->
  cell_by_name d (set_cell d a v r) n
  = if String.eqb n a then v else cell_by_name d r n.
Proof.
  intros Ha Hn Hb Hlen.
  destruct (index_of_In a _ Ha) as [pa Hpa], (index_of_In n _ Hn) as [pn Hpn].
  rewrite !(cell_by_name_coordinate d _ n pn Hb Hpn).
  unfold set_cell, cell. rewrite Hpa. simpl.
  destruct (String.eqb_spec n a) as [-> | Hne].
  - assert (pn = pa) by congruence. subst pn.
    rewrite list_lookup_insert_eq; [reflexivity|].
    rewrite Hlen. eapply index_of_lt, Hpa.
  - rewrite list_lookup_insert_ne; [reflexivity|].
    intros <-. apply Hne. eapply index_of_inj; eassumption.
Qed.

Lemma set_cells_length (d : DataFrame) (ns : list string) (vs : list fval) (r : Row) :
  length (cells (set_cells d ns vs r)) = length (cells r).
Proof.
  revert vs r. induction ns as [|a ns IH]; intros [|v vs] r; simpl; try reflexivity.
  now rewrite IH, set_cell_length.
Qed.

Lemma set_cells_metadata (d : DataFrame) (ns : list string) (vs : list fval) (r : Row) :
  same_metadata r (set_cells d ns vs r).
Proof.
  revert vs r. induction ns as [|a ns IH]; intros [|v vs] r; simpl;
    try (now repeat split).
  destruct (IH vs (set_cell d a v r)) as (H1 & H2 & H3).
  destruct (set_cell_metadata d a v r) as (G1 & G2 & G3).
  unfold same_metadata. now rewrite H1, H2, H3.
Qed.

(** Writing the columns [ns] with [g]: a cell of [ns] holds its new value,
    every other cell keeps its own. *)
Lemma cell_set_cells (d : DataFrame) (ns : list string) (g : string -> fval)
    (r : Row) (n : string) :
  (forall a, In a ns -> In a (columns d)) ->
  In n (columns d) -> is_base n = false ->
  length (cells r) = length (columns d) ->
  cell_by_name d (set_cells d ns (map g ns) r) n
  = if existsb (String.eqb n) ns then g n else cell_by_name d r n.
Proof.
  intros Hns Hn Hb. revert r. induction ns as [|a ns IH]; intros r Hlen; simpl;
    [reflexivity|].
  rewrite IH.
  - rewrite cell_set_cell; auto; [|apply Hns; now left].
    destruct (String.eqb_spec n a) as [-> | Hne]; simpl.
    + now destruct (existsb (String.eqb a) ns).
    + reflexivity.
  - intros b Hb'. apply Hns. now right.
  - now rewrite set_cell_length.
Qed.

Lemma cell_update_row (d : DataFrame) (ns : list string)
    (g : Row -> string -> fval) (r : Row) (n : string) :
  (forall a, In a ns -> In a (columns d)) ->
  In n (columns d) -> is_base n = false ->
  length (cells r) = length (columns d) ->
  cell_by_name d (update_row d ns g r) n
  = if existsb (String.eqb n) ns then g r n else cell_by_name d r n.
Proof. intros. unfold update_row. now apply cell_set_cells. Qed.

Lemma assign_rows_map (d : DataFrame) (m : Row -> bool) (ns : list string)
    (g : Row -> string -> fval) (rs : list Row) :
  assign_rows d (map m rs) ns
    (map (fun r => map (g r) ns) (select_rows (map m rs) rs)) rs
  = map (fun r => if m r then update_row d ns g r else r) rs.
Proof.
  induction rs as [|r rs IH]; simpl; [reflexivity|].
  destruct (m r); simpl; now rewrite IH.
Qed.

Lemma select_lines_map {A B} (f : A -> B) (mask : list bool) (l : list A) :
  select_lines mask (map f l) = map f (select_lines mask l).
Proof.
  revert mask. induction l as [|a l IH]; intros [|[] mask]; simpl;
    try reflexivity; now rewrite IH.
Qed.

Lemma select_lines_rows (mask : list bool) (rs : list Row) :
  select_lines mask rs = select_rows mask rs.
Proof.
  revert mask. induction rs as [|r rs IH]; intros [|[] mask]; simpl;
    try reflexivity; now rewrite IH.
Qed.

Lemma count_true_select (m : Row -> bool) (rs : list Row) :
  count_true (map m rs) = length (select_rows (map m rs) rs).
Proof.
  unfold count_true. induction rs as [|r rs IH]; simpl; [reflexivity|].
  destruct (m r); simpl; now rewrite IH.
Qed.

Lemma select_rows_all (rs : list Row) :
  select_rows (map (fun _ => true) rs) rs = rs.
Proof. induction rs; simpl; [reflexivity | now f_equal]. Qed.

(** [dataframe.loc[mask, ns] = arr] with lines computed row by row. *)
Lemma loc_assign_rows (d : DataFrame) (m : Row -> bool) (ns : list string)
    (g : Row -> string -> fval) :
  (forall a, In a ns -> In a (columns d)) ->
  loc_assign d (map m (rows d)) ns
    (map (fun r => map (g r) ns) (select_rows (map m (rows d)) (rows d)))
  = Ok (mkDF (columns d)
          (map (fun r => if m r then update_row d ns g r else r) (rows d))).
Proof.
  intros Hns. unfold loc_assign. rewrite (missing_column_None d ns Hns).
  rewrite length_map, count_true_select, Nat.eqb_refl. simpl.
  replace (forallb _ _) with true.
  - simpl. now rewrite assign_rows_map.
  - symmetry. apply forallb_forall. intros line Hl.
    apply in_map_iff in Hl as (r & <- & _). rewrite length_map. apply Nat.eqb_refl.
Qed.

Lemma loc_assign_all_rows (d : DataFrame) (ns : list string)
    (g : Row -> string -> fval) :
  (forall a, In a ns -> In a (columns d)) ->
  loc_assign d (all_rows d) ns (map (fun r => map (g r) ns) (rows d))
  = Ok (mkDF (columns d) (map (update_row d ns g) (rows d))).
Proof.
  intros Hns. unfold all_rows.
  pose proof (loc_assign_rows d (fun _ => true) ns g Hns) as H.
  rewrite select_rows_all in H. exact H.
Qed.

Lemma getitems_rows (d : DataFrame) (ns : list string) :
  (forall a, In a ns -> In a (columns d)) ->
  getitems d ns = Ok (map (fun r => map (cell_by_name d r) ns) (rows d)).
Proof. intros Hns. unfold getitems. now rewrite (missing_column_None d ns Hns). Qed.

Lemma getitem_rows (d : DataFrame) (n : string) :
  In n (columns d) ->
  getitem d n = Ok (map (fun r => cell_by_name d r n) (rows d)).
Proof. intros Hn. unfold getitem. now rewrite (has_column_In d n Hn). Qed.

(** *** The loop of [replace_nan_with_other_column] *)

Lemma elem_of_nan_columns (line : list fval) (j : nat) :
  j ∈ nan_columns line <-> line !! j = Some NaN.
Proof.
  unfold nan_columns. rewrite list_elem_of_omap. split.
  - intros ([j' v] & Hin & Hf). apply elem_of_lookup_imap in Hin as (k & y & Heq & Hk).
    injection Heq as -> ->. destruct y; simpl in Hf; try discriminate.
    injection Hf as <-. exact Hk.
  - intros Hj. exists (j, NaN). split; [|reflexivity].
    apply elem_of_lookup_imap. eauto.
Qed.

Lemma elem_of_where_isnan (arr : list (list fval)) (i j : nat) :
  (i, j) ∈ where_isnan arr <->
  exists line, arr !! i = Some line /\ line !! j = Some NaN.
Proof.
  unfold where_isnan. rewrite list_elem_of_join. split.
  - intros (l & Hin & Hl). apply elem_of_lookup_imap in Hl as (k & line & -> & Hk).
    apply list_elem_of_In, in_map_iff in Hin as (j' & Heq & Hj').
    injection Heq as <- <-. exists line. split; [exact Hk|].
    now apply elem_of_nan_columns, list_elem_of_In.
  - intros (line & Hi & Hj).
    exists (map (fun j => (i, j)) (nan_columns line)). split.
    + apply list_elem_of_In, in_map, list_elem_of_In. now apply elem_of_nan_columns.
    + apply elem_of_lookup_imap. eauto.
Qed.

Lemma fold_arr_set_lookup (w : nat -> fval) (ps : list (nat * nat))
    (arr : list (list fval)) (i : nat) :
  fold_left (fun arr '(row, column) => arr_set arr row column (w row)) ps arr !! i
  = (fun line => imap (fun j c => if bool_decide ((i, j) ∈ ps) then w i else c) line)
    <$> arr !! i.
Proof.
  revert arr. induction ps as [|[a b] ps IH]; intros arr; simpl.
  - destruct (arr !! i) as [line|]; simpl; [|reflexivity]. f_equal.
    apply list_eq. intros j. rewrite list_lookup_imap.
    destruct (line !! j); reflexivity.
  - rewrite IH. unfold arr_set. destruct (decide (a = i)) as [-> | Hne].
    + rewrite list_lookup_alter_eq. destruct (arr !! i) as [line|]; simpl; [|reflexivity].
      f_equal. apply list_eq. intros j. rewrite !list_lookup_imap.
      destruct (decide (b = j)) as [-> | Hb].
      * destruct (line !! j) as [c|] eqn:Ej.
        -- rewrite list_lookup_insert_eq by (eapply lookup_lt_Some; eassumption).
           simpl. rewrite (bool_decide_eq_true_2 ((i, j) ∈ (i, j) :: ps));
             [|apply elem_of_cons; now left].
           now destruct (bool_decide ((i, j) ∈ ps)).
        -- rewrite list_insert_ge by (now apply lookup_ge_None).
           now rewrite Ej.
      * rewrite list_lookup_insert_ne by exact Hb.
        destruct (line !! j) as [c|]; simpl; [|reflexivity]. f_equal.
        erewrite bool_decide_ext; [reflexivity|]. rewrite elem_of_cons. split; [tauto|].
        intros [Heq | H]; [congruence | exact H].
    + rewrite list_lookup_alter_ne by exact Hne.
      destruct (arr !! i) as [line|]; simpl; [|reflexivity]. f_equal.
      apply imap_ext. intros j c _. simpl.
      erewrite bool_decide_ext; [reflexivity|].
      rewrite elem_of_cons. split; [tauto|].
      intros [Heq | H]; [congruence | exact H].
Qed.

(** *** Running the statements of the table functions *)

Lemma bind_run {A B} (m : M A) (k : A -> M B) (h h' : heap) (a : A) :
  m h = (Ok a, h') -> (m ≫= k) h = k a h'.
Proof. intros H. unfold mbind, M_bind. now rewrite H. Qed.

Lemma bind_raise {A B} (m : M A) (k : A -> M B) (h h' : heap) (e : exc) :
  m h = (Raise e, h') -> (m ≫= k) h = (Raise e, h').
Proof. intros H. unfold mbind, M_bind. now rewrite H. Qed.

Lemma df_read_run (h : heap) (l : loc) (d : DataFrame) :
  h !! l = Some d -> df_read l h = (Ok d, h).
Proof. intros H. unfold df_read. now rewrite H. Qed.

Lemma df_write_run (h : heap) (l : loc) (d d' : DataFrame) :
  h !! l = Some d -> df_write l d' h = (Ok tt, <[l := d']> h).
Proof. intros H. unfold df_write. now rewrite H. Qed.

Lemma replace_nan_run (h : heap) (l : loc) (d : DataFrame)
    (ns : list string) (tgt : string) :
  h !! l = Some d ->
  (forall a, In a ns -> In a (columns d)) -> In tgt (columns d) ->
  replace_nan_with_other_column l ns tgt h
  = (Ok (map (fun r => map (fill_value d tgt r) ns) (rows d)), h).
Proof.
  intros Hl Hns Htgt. unfold replace_nan_with_other_column.
  rewrite (bind_run _ _ _ _ _ (df_read_run h l d Hl)).
  rewrite (getitems_rows d ns Hns), (getitem_rows d tgt Htgt).
  cbv [lift mbind M_bind mret M_ret]. f_equal. f_equal.
  apply list_eq. intros i.
  rewrite (fold_arr_set_lookup
             (fun row => default NaN
                (map (fun r => cell_by_name d r tgt) (rows d) !! row))).
  rewrite !lookup_map.
  destruct (rows d !! i) as [r|] eqn:Er; simpl; [|reflexivity]. f_equal.
  apply list_eq. intros j.
  rewrite list_lookup_imap, !lookup_map.
  destruct (ns !! j) as [n|] eqn:En; simpl; [|reflexivity]. f_equal.
  unfold fill_value.
  destruct (isnan (cell_by_name d r n)) eqn:Enan.
  - rewrite bool_decide_eq_true_2; [reflexivity|].
    apply elem_of_where_isnan. exists (map (cell_by_name d r) ns). split.
    + now rewrite lookup_map, Er.
    + rewrite lookup_map, En. simpl.
      destruct (cell_by_name d r n); try discriminate. reflexivity.
  - rewrite bool_decide_eq_false_2; [reflexivity|].
    intros Hin. apply elem_of_where_isnan in Hin as (line & Hline & Hj).
    rewrite lookup_map, Er in Hline. injection Hline as <-.
    rewrite lookup_map, En in Hj. injection Hj as Hj.
    now rewrite Hj in Enan.
Qed.

Lemma loc_assign_all_run (h : heap) (l : loc) (d : DataFrame)
    (ns : list string) (g : Row -> string -> fval) :
  h !! l = Some d ->
  (forall a, In a ns -> In a (columns d)) ->
  df_loc_assign_all l ns (map (fun r => map (g r) ns) (rows d)) h
  = (Ok tt, <[l := mkDF (columns d) (map (update_row d ns g) (rows d))]> h).
Proof.
  intros Hl Hns. unfold df_loc_assign_all.
  rewrite (bind_run _ _ _ _ _ (df_read_run h l d Hl)).
  rewrite (loc_assign_all_rows d ns g Hns).
  cbv [lift]. erewrite bind_run by reflexivity.
  now apply df_write_run with (d := d).
Qed.

(** One pass: the missing cells of the columns [ns] receive the cell of
    the column [tgt] of their row. *)
Lemma fill_step_run {B} (h : heap) (l : loc) (d : DataFrame)
    (ns : list string) (tgt : string) (k : M B) :
  h !! l = Some d ->
  (forall a, In a ns -> In a (columns d)) -> In tgt (columns d) ->
  (arr ← replace_nan_with_other_column l ns tgt;
   df_loc_assign_all l ns arr;; k) h
  = k (<[l := mkDF (columns d)
                (map (update_row d ns (fill_value d tgt)) (rows d))]> h).
Proof.
  intros Hl Hns Htgt.
  rewrite (bind_run _ _ _ _ _ (replace_nan_run h l d ns tgt Hl Hns Htgt)).
  now rewrite (bind_run _ _ _ _ _ (loc_assign_all_run h l d ns _ Hl Hns)).
Qed.

Lemma setitem_rows (d : DataFrame) (n : string) (f : Row -> fval) :
  setitem d n (map f (rows d)) = Ok (set_column d n f).
Proof.
  unfold setitem, set_column, set_column_row.
  rewrite length_map, Nat.eqb_refl. simpl.
  destruct (index_of n (columns d)); f_equal; f_equal.
  - induction (rows d) as [|r rs IH]; simpl; [reflexivity | now rewrite IH].
  - induction (rows d) as [|r rs IH]; simpl; [reflexivity | now rewrite IH].
Qed.

Lemma set_midpoint_run {B} (h : heap) (l : loc) (d : DataFrame)
    (n a b : string) (k : M B) :
  h !! l = Some d -> In a (columns d) -> In b (columns d) ->
  (df_set_midpoint l n a b;; k) h
  = k (<[l := set_column d n (midpoint d a b)]> h).
Proof.
  intros Hl Ha Hb. unfold df_set_midpoint.
  assert (Hrun : (d ← df_read l;
                  va ← lift (getitem d a);
                  vb ← lift (getitem d b);
                  d' ← lift (setitem d n
                               (map (fun v => fdiv v (Fin 2)) (zip_with fadd va vb)));
                  df_write l d') h
                 = (Ok tt, <[l := set_column d n (midpoint d a b)]> h)).
  { rewrite (bind_run _ _ _ _ _ (df_read_run h l d Hl)).
    rewrite (getitem_rows d a Ha), (getitem_rows d b Hb).
    cbv [lift]. erewrite bind_run by reflexivity. erewrite bind_run by reflexivity.
    replace (map (fun v => fdiv v (Fin 2)) _) with (map (midpoint d a b) (rows d)).
    - rewrite setitem_rows. erewrite bind_run by reflexivity.
      now apply df_write_run with (d := d).
    - unfold midpoint. induction (rows d) as [|r rs IH]; simpl;
        [reflexivity | now rewrite IH]. }
  now rewrite (bind_run _ _ _ _ _ Hrun).
Qed.

(** *** Tables reached from a table *)

Lemma index_of_app_l (n : string) (cols extra : list string) (p : nat) :
  index_of n cols = Some p -> index_of n (cols ++ extra) = Some p.
Proof.
  revert p. induction cols as [|x t IH]; intros p; simpl; [discriminate|].
  destruct (String.eqb n x); [trivial|].
  destruct (index_of n t) as [q|]; simpl; [|discriminate].
  intros [= <-]. now rewrite (IH q eq_refl).
Qed.

Lemma wf_rows (d : DataFrame) (r : Row) :
  wf d -> In r (rows d) -> length (cells r) = length (columns d).
Proof.
  intros [_ H] Hr. rewrite Forall_forall in H. apply H. now apply list_elem_of_In.
Qed.

Lemma tracks_init (d : DataFrame) (hidden : list string) :
  wf d -> tracks d hidden [] (cell_by_name d) d.
Proof.
  intros Hwf. split; [exact Hwf|]. split; [intros n [H | []]; exact H|].
  exists (fun r => r). split; [now rewrite map_id|].
  intros r _. split; [now repeat split | reflexivity].
Qed.

Lemma wf_set_column (d : DataFrame) (n : string) (f : Row -> fval) :
  wf d -> is_base n = false -> wf (set_column d n f).
Proof.
  intros Hwf Hb. pose proof Hwf as [Hnd Hlen]. unfold set_column, set_column_row.
  destruct (index_of n (columns d)) as [p|] eqn:E; split; cbn [columns rows].
  - exact Hnd.
  - apply Forall_map. eapply Forall_impl; [exact Hlen|].
    intros r Hr. simpl. now rewrite set_cell_length.
  - rewrite app_assoc. apply NoDup_app. split; [exact Hnd|].
    split; [|apply NoDup_singleton].
    intros x Hx Hn. apply list_elem_of_singleton in Hn. subst x.
    apply list_elem_of_In, in_app_or in Hx as [Hx | Hx].
    + apply is_base_In in Hx. congruence.
    + destruct (index_of_In n _ Hx) as [q Hq]. congruence.
  - apply Forall_map. eapply Forall_impl; [exact Hlen|].
    intros r Hr. simpl in *. rewrite !length_app. simpl. lia.
Qed.

Lemma columns_set_column (d : DataFrame) (n : string) (f : Row -> fval) (m : string) :
  In m (columns d) -> In m (columns (set_column d n f)).
Proof.
  intros Hm. unfold set_column. destruct (index_of n (columns d)); simpl;
    [exact Hm | apply in_or_app; now left].
Qed.

Lemma in_columns_set_column (d : DataFrame) (n : string) (f : Row -> fval) :
  In n (columns (set_column d n f)).
Proof.
  unfold set_column. destruct (index_of n (columns d)) as [p|] eqn:E; simpl.
  - apply index_of_Some in E. apply list_elem_of_In.
    eapply list_elem_of_lookup_2; exact E.
  - apply in_or_app. right. now left.
Qed.

Lemma set_column_row_metadata (d : DataFrame) (n : string) (f : Row -> fval)
    (r : Row) :
  same_metadata r (set_column_row d n f r).
Proof.
  unfold set_column_row. destruct (index_of n (columns d));
    [apply set_cell_metadata | now repeat split].
Qed.

(** Setting a column changes no cell of another column. *)
Lemma cell_set_column (d : DataFrame) (n m : string) (f : Row -> fval) (r : Row) :
  wf d -> In r (rows d) -> In m (columns d) -> m <> n ->
  cell_by_name (set_column d n f) (set_column_row d n f r) m = cell_by_name d r m.
Proof.
  intros Hwf Hr Hm Hne.
  pose proof (coordinate_not_base d m Hwf Hm) as Hb.
  pose proof (wf_rows d r Hwf Hr) as Hlen.
  destruct (index_of_In m _ Hm) as [pm Hpm].
  unfold set_column, set_column_row.
  destruct (index_of n (columns d)) as [p|] eqn:E.
  - assert (Hn : In n (columns d)).
    { apply index_of_Some in E. apply list_elem_of_In.
      eapply list_elem_of_lookup_2; exact E. }
    change (cell_by_name (mkDF (columns d) ?rs) ?x m) with (cell_by_name d x m).
    rewrite cell_set_cell; auto.
    destruct (String.eqb_spec m n); [contradiction | reflexivity].
  - unfold cell_by_name. rewrite !(meta_value_None _ m Hb). cbn [columns].
    rewrite (index_of_app_l m _ [n] pm Hpm), Hpm.
    unfold cell. simpl. rewrite lookup_app_l; [reflexivity|].
    rewrite Hlen. eapply index_of_lt, Hpm.
Qed.

Lemma same_metadata_trans (r1 r2 r3 : Row) :
  same_metadata r1 r2 -> same_metadata r2 r3 -> same_metadata r1 r3.
Proof.
  unfold same_metadata. intros (A1 & A2 & A3) (B1 & B2 & B3).
  repeat split; congruence.
Qed.

Lemma tracks_set_column (d : DataFrame) (hidden added : list string)
    (T : Row -> string -> fval) (dk : DataFrame) (n : string) (f : Row -> fval) :
  tracks d hidden added T dk -> In n hidden -> is_base n = false ->
  tracks d hidden (n :: added) T (set_column dk n f).
Proof.
  intros (Hwf & Hcols & G & Hrows & HG) Hn Hb.
  split; [now apply wf_set_column|].
  split.
  { intros m [Hm | [<- | Hm]].
    - apply columns_set_column, Hcols. now left.
    - apply in_columns_set_column.
    - apply columns_set_column, Hcols. now right. }
  exists (fun r => set_column_row dk n f (G r)). split.
  - unfold set_column at 1. cbn [rows]. now rewrite Hrows, map_map.
  - intros r Hr. destruct (HG r Hr) as [Hmeta Hcell].
    assert (HGr : In (G r) (rows dk)) by (rewrite Hrows; now apply in_map).
    split.
    + eapply same_metadata_trans; [exact Hmeta | apply set_column_row_metadata].
    + intros m Hm Hhid. rewrite cell_set_column; auto.
      intros ->. contradiction.
Qed.

Lemma wf_update_rows (d : DataFrame) (ns : list string)
    (g : Row -> string -> fval) :
  wf d -> wf (mkDF (columns d) (map (update_row d ns g) (rows d))).
Proof.
  intros [Hnd Hlen]. split; cbn [columns rows]; [exact Hnd|].
  apply Forall_map. eapply Forall_impl; [exact Hlen|].
  intros r Hr. simpl. unfold update_row. now rewrite set_cells_length.
Qed.

Lemma tracks_fill (d : DataFrame) (hidden added : list string)
    (T : Row -> string -> fval) (dk : DataFrame) (ns : list string) (tgt : string) :
  tracks d hidden added T dk ->
  (forall a, In a ns -> In a (columns d)) ->
  In tgt (columns d) -> ~ In tgt hidden ->
  tracks d hidden added (filled ns tgt T)
    (mkDF (columns dk) (map (update_row dk ns (fill_value dk tgt)) (rows dk))).
Proof.
  intros (Hwf & Hcols & G & Hrows & HG) Hns Htgt Hhid.
  split; [now apply wf_update_rows|].
  split; [exact Hcols|].
  exists (fun r => update_row dk ns (fill_value dk tgt) (G r)). split.
  - cbn [rows]. now rewrite Hrows, map_map.
  - intros r Hr. destruct (HG r Hr) as [Hmeta Hcell].
    assert (HGr : In (G r) (rows dk)) by (rewrite Hrows; now apply in_map).
    split.
    + eapply same_metadata_trans; [exact Hmeta | apply set_cells_metadata].
    + intros m Hm Hmhid.
      change (cell_by_name (mkDF (columns dk) ?rs) ?x m) with (cell_by_name dk x m).
      rewrite cell_update_row; auto.
      * unfold filled, fill_value. rewrite !Hcell; auto.
      * eapply coordinate_not_base; eauto.
      * now apply wf_rows.
Qed.

Lemma fill_step_tracks {B} (h : heap) (l : loc) (d dk : DataFrame)
    (hidden added : list string) (T : Row -> string -> fval)
    (ns : list string) (tgt : string) (k : M B) (Q : result B * heap -> Prop) :
  h !! l = Some dk -> tracks d hidden added T dk ->
  (forall a, In a ns -> In a (columns d)) ->
  In tgt (columns d) -> ~ In tgt hidden ->
  (forall h' dk', h' !! l = Some dk' ->
                  tracks d hidden added (filled ns tgt T) dk' -> Q (k h')) ->
  Q ((arr ← replace_nan_with_other_column l ns tgt;
      df_loc_assign_all l ns arr;; k) h).
Proof.
  intros Hl Htr Hns Htgt Hhid Hk.
  pose proof Htr as (_ & Hcols & _).
  rewrite (fill_step_run h l dk ns tgt k Hl); auto.
  eapply Hk; [apply lookup_insert_eq|]. now apply tracks_fill.
Qed.

Lemma midpoint_step_tracks {B} (h : heap) (l : loc) (d dk : DataFrame)
    (hidden added : list string) (T : Row -> string -> fval)
    (n a b : string) (k : M B) (Q : result B * heap -> Prop) :
  h !! l = Some dk -> tracks d hidden added T dk ->
  In a (columns d) -> In b (columns d) ->
  In n hidden -> is_base n = false ->
  (forall h' dk', h' !! l = Some dk' ->
                  tracks d hidden (n :: added) T dk' -> Q (k h')) ->
  Q ((df_set_midpoint l n a b;; k) h).
Proof.
  intros Hl Htr Ha Hb Hn Hbase Hk.
  pose proof Htr as (_ & Hcols & _).
  rewrite (set_midpoint_run h l dk n a b k Hl); auto.
  eapply Hk; [apply lookup_insert_eq|]. now apply tracks_set_column.
Qed.

Lemma tracks_added_incl (d : DataFrame) (hidden added added' : list string)
    (T : Row -> string -> fval) (dk : DataFrame) :
  tracks d hidden added T dk ->
  (forall n, In n added' -> In n added) ->
  tracks d hidden added' T dk.
Proof.
  intros (Hwf & Hcols & HG) Hincl. split; [exact Hwf|]. split; [|exact HG].
  intros n [Hn | Hn]; apply Hcols; [now left | right; now apply Hincl].
Qed.

(** *** Columns by position *)

Lemma step2_cons {A} (a : A) (t : list A) : step2 (a :: t) = a :: step2 (tail t).
Proof. now destruct t. Qed.

Lemma in_step2 {A} (l : list A) (n : A) :
  (In n (step2 l) <-> exists p, l !! p = Some n /\ Nat.even p = true) /\
  (In n (step2 (tail l)) <-> exists p, l !! p = Some n /\ Nat.even p = false).
Proof.
  induction l as [|a t [IHx IHy]].
  - simpl. split; split; try tauto; intros (p & Hp & _); discriminate.
  - rewrite step2_cons. cbn [tail]. split.
    + split.
      * intros [<- | Hin]; [exists 0%nat; now split|].
        apply IHy in Hin as (p & Hp & Hpar). exists (S p). split; [exact Hp|].
        rewrite Nat.even_succ, <- Nat.negb_even, Hpar. reflexivity.
      * intros ([|p] & Hp & Hpar); simpl in Hp.
        -- left. congruence.
        -- right. apply IHy. exists p. split; [exact Hp|].
           rewrite Nat.even_succ, <- Nat.negb_even in Hpar.
           now destruct (Nat.even p).
    + split.
      * intros Hin. apply IHx in Hin as (p & Hp & Hpar). exists (S p).
        split; [exact Hp|].
        rewrite Nat.even_succ, <- Nat.negb_even, Hpar. reflexivity.
      * intros ([|p] & Hp & Hpar); [discriminate|].
        apply IHx. exists p. split; [exact Hp|].
        rewrite Nat.even_succ, <- Nat.negb_even in Hpar.
        now destruct (Nat.even p).
Qed.

Lemma existsb_eqb_In (n : string) (l : list string) :
  existsb (String.eqb n) l = true <-> In n l.
Proof.
  rewrite existsb_exists. split.
  - intros (x & Hx & Heq). apply String.eqb_eq in Heq. now subst.
  - intros Hn. exists n. split; [exact Hn | apply String.eqb_refl].
Qed.

Lemma existsb_eqb_filter (n : string) (f : string -> bool) (l : list string) :
  existsb (String.eqb n) (List.filter f l) = f n && existsb (String.eqb n) l.
Proof.
  apply eq_true_iff_eq. rewrite andb_true_iff, !existsb_eqb_In, filter_In. tauto.
Qed.

(** The [x] columns are those at even positions, the [y] columns those at
    odd positions. *)
Lemma axis_columns (d : DataFrame) (n : string) (ax : Axis) :
  NoDup (columns d) -> axis_of d n = Some ax ->
  existsb (String.eqb n) (x_columns_of d)
  = match ax with AxisX => true | AxisY => false end /\
  existsb (String.eqb n) (y_columns_of d)
  = match ax with AxisX => false | AxisY => true end.
Proof.
  intros Hnd Hax. unfold axis_of in Hax.
  destruct (index_of n (columns d)) as [p|] eqn:Ep; [|discriminate].
  simpl in Hax. injection Hax as <-. apply index_of_Some in Ep.
  destruct (in_step2 (columns d) n) as [Hx Hy].
  unfold x_columns_of, y_columns_of.
  assert (Huniq : forall q, columns d !! q = Some n -> q = p).
  { intros q Hq. eapply NoDup_lookup; eassumption. }
  destruct (Nat.even p) eqn:Epar; split.
  - apply existsb_eqb_In, Hx. eauto.
  - apply not_true_is_false. intros H. apply existsb_eqb_In, Hy in H as (q & Hq & Hpar).
    rewrite (Huniq q Hq) in Hpar. congruence.
  - apply not_true_is_false. intros H. apply existsb_eqb_In, Hx in H as (q & Hq & Hpar).
    rewrite (Huniq q Hq) in Hpar. congruence.
  - apply existsb_eqb_In, Hy. eauto.
Qed.

Lemma part_columns_incl (d : DataFrame) (part : Part) (axis : Axis) (a : string) :
  In a (part_columns d part axis) -> In a (columns d).
Proof.
  unfold part_columns. rewrite filter_In. intros [Hin _].
  destruct (in_step2 (columns d) a) as [Hx Hy].
  destruct axis; [apply Hx in Hin | apply Hy in Hin];
    destruct Hin as (p & Hp & _); apply list_elem_of_In;
    eapply list_elem_of_lookup_2; exact Hp.
Qed.

(** *** Running [preprocess_dataframe] *)

Lemma bind_assoc_run {A B C} (m : M A) (f : A -> M B) (g : B -> M C) (h : heap) :
  ((m ≫= f) ≫= g) h = (m ≫= (fun a => f a ≫= g)) h.
Proof. unfold mbind, M_bind. now destruct (m h) as [[a|e] h']. Qed.

Lemma ret_bind_run {A B} (a : A) (k : A -> M B) (h : heap) :
  (mret a ≫= k) h = k a h.
Proof. reflexivity. Qed.

Lemma copy_run {B} (h : heap) (l : loc) (d : DataFrame) (k : loc -> M B) :
  h !! l = Some d ->
  (df_copy l ≫= k) h = k (fresh (dom h)) (<[fresh (dom h) := d]> h).
Proof.
  intros Hl. unfold df_copy. rewrite bind_assoc_run.
  now rewrite (bind_run _ _ _ _ _ (df_read_run h l d Hl)).
Qed.

Lemma in_insert_unique (x s : string) (l : list string) :
  In x (insert_unique s l) <-> x = s \/ In x l.
Proof.
  induction l as [|y t IH]; simpl; [intuition|].
  destruct (String.compare s y) eqn:E; simpl.
  - apply String.compare_eq_iff in E. subst. intuition.
  - intuition.
  - rewrite IH. intuition.
Qed.

Lemma in_np_unique (x : string) (l : list string) : In x (np_unique l) <-> In x l.
Proof.
  induction l as [|y t IH]; simpl; [reflexivity|].
  rewrite in_insert_unique, IH. intuition.
Qed.

Lemma missing_column_has (d : DataFrame) (ns : list string) :
  (forall n, In n ns -> has_column d n = true) -> missing_column d ns = None.
Proof.
  intros H. unfold missing_column.
  destruct (find _ ns) as [n|] eqn:E; [|reflexivity].
  apply find_some in E as [Hin Hf]. now rewrite (H n Hin) in Hf.
Qed.

Lemma loc_columns_run (h : heap) (l : loc) (d : DataFrame) (sel : list string) :
  h !! l = Some d -> (0 <? length sel)%nat = true ->
  (forall n, In n sel -> has_column d n = true) ->
  df_loc_columns l (base_columns ++ np_unique sel) h
  = (Ok (fresh (dom h)), <[fresh (dom h) := selected d sel]> h).
Proof.
  intros Hl Hsel Hhas. unfold df_loc_columns.
  rewrite (bind_run _ _ _ _ _ (df_read_run h l d Hl)).
  unfold base_columns. cbn [app take drop].
  rewrite bool_decide_eq_true_2 by reflexivity.
  unfold select_columns_of. rewrite missing_column_has.
  - unfold selected. rewrite Hsel. reflexivity.
  - intros n Hn. apply Hhas. now apply in_np_unique.
Qed.

Ltac in_columns Hreq :=
  apply Hreq; simpl; repeat (first [left; reflexivity | right]).

Ltac not_hidden :=
  let H := fresh in
  intros H; simpl in H; repeat (destruct H as [H | H]; [discriminate|]); exact H.

Ltac fill_step Hreq :=
  match goal with
  | Hl : ?h !! ?l = Some ?dk, Htr : tracks ?d ?hidden ?added ?T ?dk |- _ =>
      eapply (fill_step_tracks h l d dk hidden added T);
      [ exact Hl | exact Htr
      | first [ apply (part_columns_incl d LeftHandPart AxisX)
              | apply (part_columns_incl d LeftHandPart AxisY)
              | apply (part_columns_incl d RightHandPart AxisX)
              | apply (part_columns_incl d RightHandPart AxisY)
              | apply (part_columns_incl d FacePart AxisX)
              | apply (part_columns_incl d FacePart AxisY) ]
      | in_columns Hreq
      | not_hidden
      | clear Hl Htr; intros ? ? Hl Htr ]
  end.

Ltac midpoint_step Hreq :=
  match goal with
  | Hl : ?h !! ?l = Some ?dk, Htr : tracks ?d ?hidden ?added ?T ?dk |- _ =>
      eapply (midpoint_step_tracks h l d dk hidden added T);
      [ exact Hl | exact Htr
      | in_columns Hreq | in_columns Hreq
      | simpl; repeat (first [left; reflexivity | right])
      | reflexivity
      | clear Hl Htr; intros ? ? Hl Htr ]
  end.

(** [preprocess_dataframe] returns: the table it returns is the column
    filter applied to a table reached from the argument by the six passes
    of substitution. *)
Lemma preprocess_dataframe_run (h : heap) (l : loc) (d : DataFrame)
    (sel : list string) (wr wm : bool) :
  h !! l = Some d -> wf d ->
  (forall a, In a (required_columns wr wm) -> In a (columns d)) ->
  (forall a, In a sel ->
     is_base a = true \/ In a (columns d) \/ In a (derived_columns wr wm)) ->
  exists l' h' d8,
    preprocess_dataframe l sel wr wm h = (Ok l', h') /\
    h' !! l' = Some (selected d8 sel) /\
    tracks d (derived_columns wr wm) (derived_columns wr wm) (substituted d) d8.
Proof.
  intros Hl0 Hwf Hreq Hsel. unfold preprocess_dataframe.
  rewrite (copy_run h l d _ Hl0).
  set (l1 := fresh (dom h)). set (h1 := <[l1 := d]> h).
  assert (Hl : h1 !! l1 = Some d) by apply lookup_insert_eq.
  rewrite (bind_run _ _ _ _ _ (df_read_run h1 l1 d Hl)).
  pose proof (tracks_init d (derived_columns wr wm) Hwf) as Htr.
  clearbody h1. cbv zeta.
  match goal with
  | |- exists l' h' d8, ?X = _ /\ _ =>
      pattern X;
      match goal with |- ?Q0 _ => set (Q := Q0) end
  end.
  assert (Hroot : forall h2 dk added,
             h2 !! l1 = Some dk ->
             tracks d (derived_columns wr wm) added (substituted d) dk ->
             (forall n, In n (derived_columns wr wm) -> In n added) ->
             Q ((if (0 <? length sel)%nat
                 then df_loc_columns l1 (base_columns ++ np_unique sel)
                 else mret l1) h2)).
  { intros h2 dk added Hl2 Htr2 Hadd. subst Q. cbv beta.
    apply (tracks_added_incl _ _ _ (derived_columns wr wm)) in Htr2; [|exact Hadd].
    destruct (0 <? length sel)%nat eqn:Esel.
    - exists (fresh (dom h2)), (<[fresh (dom h2) := selected dk sel]> h2), dk.
      split; [|split; [apply lookup_insert_eq | exact Htr2]].
      apply loc_columns_run; auto.
      intros n Hn. destruct Htr2 as (_ & Hcols & _).
      destruct (Hsel n Hn) as [Hb | [Hc | Hd]].
      + unfold has_column. now rewrite Hb.
      + apply has_column_In, Hcols. now left.
      + apply has_column_In, Hcols. now right.
    - exists l1, h2, dk. unfold selected. rewrite Esel.
      split; [reflexivity | split; [exact Hl2 | exact Htr2]]. }
  clearbody Q.
  destruct wr, wm; cbn [derived_columns required_columns app] in *; cbv iota.
  - rewrite ?bind_assoc_run. midpoint_step Hreq.
    rewrite ?bind_assoc_run. midpoint_step Hreq.
    rewrite ?bind_assoc_run. midpoint_step Hreq.
    rewrite ?bind_assoc_run. midpoint_step Hreq.
    do 6 fill_step Hreq.
    eapply Hroot; [exact Hl | exact Htr |].
    simpl. intros n Hn. tauto.
  - rewrite ?bind_assoc_run. midpoint_step Hreq.
    rewrite ?bind_assoc_run. midpoint_step Hreq.
    rewrite ret_bind_run.
    do 6 fill_step Hreq.
    eapply Hroot; [exact Hl | exact Htr |].
    simpl. intros n Hn. tauto.
  - rewrite ret_bind_run.
    rewrite ?bind_assoc_run. midpoint_step Hreq.
    rewrite ?bind_assoc_run. midpoint_step Hreq.
    do 6 fill_step Hreq.
    eapply Hroot; [exact Hl | exact Htr |].
    simpl. intros n Hn. tauto.
  - rewrite ?ret_bind_run.
    do 6 fill_step Hreq.
    eapply Hroot; [exact Hl | exact Htr |].
    simpl. intros n Hn. tauto.
Qed.

(** *** The columns of the table that [preprocess_dataframe] builds *)

Lemma fill_step_columns {B} (h : heap) (l : loc) (d dk : DataFrame)
    (hidden added : list string) (T : Row -> string -> fval)
    (ns : list string) (tgt : string) (k : M B) (Q : result B * heap -> Prop) :
  h !! l = Some dk -> tracks d hidden added T dk ->
  (forall a, In a ns -> In a (columns d)) ->
  In tgt (columns d) -> ~ In tgt hidden ->
  (forall h' dk', h' !! l = Some dk' ->
                  tracks d hidden added (filled ns tgt T) dk' ->
                  columns dk' = columns dk -> Q (k h')) ->
  Q ((arr ← replace_nan_with_other_column l ns tgt;
      df_loc_assign_all l ns arr;; k) h).
Proof.
  intros Hl Htr Hns Htgt Hhid Hk.
  pose proof Htr as (_ & Hcols & _).
  rewrite (fill_step_run h l dk ns tgt k Hl); auto.
  eapply Hk; [apply lookup_insert_eq | now apply tracks_fill | reflexivity].
Qed.

Lemma midpoint_step_columns {B} (h : heap) (l : loc) (d dk : DataFrame)
    (hidden added : list string) (T : Row -> string -> fval)
    (n a b : string) (k : M B) (Q : result B * heap -> Prop) :
  h !! l = Some dk -> tracks d hidden added T dk ->
  In a (columns d) -> In b (columns d) ->
  In n hidden -> is_base n = false ->
  (forall h' dk', h' !! l = Some dk' ->
                  tracks d hidden (n :: added) T dk' ->
                  (forall m, In m (columns dk') -> In m (columns dk) \/ m = n) ->
                  Q (k h')) ->
  Q ((df_set_midpoint l n a b;; k) h).
Proof.
  intros Hl Htr Ha Hb Hn Hbase Hk.
  pose proof Htr as (_ & Hcols & _).
  rewrite (set_midpoint_run h l dk n a b k Hl); auto.
  eapply Hk; [apply lookup_insert_eq | now apply tracks_set_column |].
  intros m. unfold set_column. destruct (index_of n (columns dk)); cbn [columns].
  - tauto.
  - intros Hm. apply in_app_or in Hm as [Hm | [<- | []]]; tauto.
Qed.

Ltac fill_step_cols Hreq :=
  match goal with
  | Hl : ?h !! ?l = Some ?dk, Htr : tracks ?d ?hidden ?added ?T ?dk,
    Hcw : forall n, In n (columns ?dk) -> _ |- _ =>
      eapply (fill_step_columns h l d dk hidden added T);
      [ exact Hl | exact Htr
      | first [ apply (part_columns_incl d LeftHandPart AxisX)
              | apply (part_columns_incl d LeftHandPart AxisY)
              | apply (part_columns_incl d RightHandPart AxisX)
              | apply (part_columns_incl d RightHandPart AxisY)
              | apply (part_columns_incl d FacePart AxisX)
              | apply (part_columns_incl d FacePart AxisY) ]
      | in_columns Hreq
      | not_hidden
      | let Hc := fresh "Hc" in
        let h' := fresh "h" in
        let dk' := fresh "dk" in
        let Hcw' := fresh "Hcw" in
        clear Hl Htr; intros h' dk' Hl Htr Hc;
        assert (Hcw' : forall n, In n (columns dk') ->
                         In n (columns d) \/ In n hidden)
          by (rewrite Hc; exact Hcw);
        clear Hcw Hc ]
  end.

Ltac midpoint_step_cols Hreq :=
  match goal with
  | Hl : ?h !! ?l = Some ?dk, Htr : tracks ?d ?hidden ?added ?T ?dk,
    Hcw : forall n, In n (columns ?dk) -> _ |- _ =>
      eapply (midpoint_step_columns h l d dk hidden added T);
      [ exact Hl | exact Htr
      | in_columns Hreq | in_columns Hreq
      | simpl; repeat (first [left; reflexivity | right])
      | reflexivity
      | let Hc := fresh "Hc" in
        let h' := fresh "h" in
        let dk' := fresh "dk" in
        let Hcw' := fresh "Hcw" in
        clear Hl Htr; intros h' dk' Hl Htr Hc;
        assert (Hcw' : forall n, In n (columns dk') ->
                         In n (columns d) \/ In n hidden)
          by (let m := fresh in let Hm := fresh in
              intros m Hm; destruct (Hc m Hm) as [Hm' | ->];
              [exact (Hcw m Hm') | right; simpl; tauto]);
        clear Hcw Hc ]
  end.

Lemma preprocess_columns_run (h : heap) (l : loc) (d : DataFrame) (wr wm : bool) :
  h !! l = Some d -> wf d ->
  (forall a, In a (required_columns wr wm) -> In a (columns d)) ->
  exists l1 h2 d8,
    preprocess_dataframe l [] wr wm h = (Ok l1, h2) /\
    h2 !! l1 = Some d8 /\
    forall n, In n (columns d8) ->
      In n (columns d) \/ In n (derived_columns wr wm).
Proof.
  intros Hl0 Hwf Hreq. unfold preprocess_dataframe.
  rewrite (copy_run h l d _ Hl0).
  set (l1 := fresh (dom h)). set (h1 := <[l1 := d]> h).
  assert (Hl : h1 !! l1 = Some d) by apply lookup_insert_eq.
  rewrite (bind_run _ _ _ _ _ (df_read_run h1 l1 d Hl)).
  pose proof (tracks_init d (derived_columns wr wm) Hwf) as Htr.
  assert (Hcw : forall n, In n (columns d) ->
                  In n (columns d) \/ In n (derived_columns wr wm)) by tauto.
  clearbody h1. cbv zeta.
  match goal with
  | |- exists l' h' d8, ?X = _ /\ _ =>
      pattern X;
      match goal with |- ?Q0 _ => set (Q := Q0) end
  end.
  assert (Hend : forall h2 dk,
             h2 !! l1 = Some dk ->
             (forall n, In n (columns dk) ->
                In n (columns d) \/ In n (derived_columns wr wm)) ->
             Q ((if (0 <? length (@nil string))%nat
                 then df_loc_columns l1 (base_columns ++ np_unique [])
                 else mret l1) h2)).
  { intros h2 dk Hl2 Hc2. subst Q. cbv beta. exists l1, h2, dk.
    split; [reflexivity | split; assumption]. }
  clearbody Q.
  destruct wr, wm; cbn [derived_columns required_columns app] in *; cbv iota.
  - rewrite ?bind_assoc_run. midpoint_step_cols Hreq.
    rewrite ?bind_assoc_run. midpoint_step_cols Hreq.
    rewrite ?bind_assoc_run. midpoint_step_cols Hreq.
    rewrite ?bind_assoc_run. midpoint_step_cols Hreq.
    do 6 fill_step_cols Hreq.
    eapply Hend; eassumption.
  - rewrite ?bind_assoc_run. midpoint_step_cols Hreq.
    rewrite ?bind_assoc_run. midpoint_step_cols Hreq.
    rewrite ret_bind_run.
    do 6 fill_step_cols Hreq.
    eapply Hend; eassumption.
  - rewrite ret_bind_run.
    rewrite ?bind_assoc_run. midpoint_step_cols Hreq.
    rewrite ?bind_assoc_run. midpoint_step_cols Hreq.
    do 6 fill_step_cols Hreq.
    eapply Hend; eassumption.
  - rewrite ?ret_bind_run.
    do 6 fill_step_cols Hreq.
    eapply Hend; eassumption.
Qed.

(** *** The cells after the six passes *)

Lemma fill_part_eq (d : DataFrame) (part : Part) (axis ax : Axis)
    (T : Row -> string -> fval) (r : Row) (n : string) :
  NoDup (columns d) -> axis_of d n = Some ax ->
  fill_part d part axis T r n
  = if str_in (part_pattern part) n && axis_eqb ax axis
    then (if isnan (T r n) then T r (anchor_column part axis) else T r n)
    else T r n.
Proof.
  intros Hnd Hax. unfold fill_part, filled, part_columns.
  rewrite existsb_eqb_filter.
  destruct (axis_columns d n ax Hnd Hax) as [Hx Hy].
  destruct axis; [rewrite Hx | rewrite Hy]; now destruct ax.
Qed.

Lemma fill_part_other (d : DataFrame) (part : Part) (axis : Axis)
    (T : Row -> string -> fval) (r : Row) (tgt : string) :
  str_in (part_pattern part) tgt = false ->
  fill_part d part axis T r tgt = T r tgt.
Proof.
  intros Hp. unfold fill_part, filled, part_columns.
  now rewrite existsb_eqb_filter, Hp.
Qed.

Lemma substituted_anchor (d : DataFrame) (r : Row) (part : Part) (axis : Axis) :
  substituted d r (anchor_column part axis) = cell_by_name d r (anchor_column part axis).
Proof.
  unfold substituted.
  rewrite !fill_part_other; [reflexivity | ..]; now destruct part, axis.
Qed.

Lemma fill_part_kept (d : DataFrame) (part : Part) (axis : Axis)
    (T : Row -> string -> fval) (r : Row) (n : string) :
  isnan (T r n) = false -> fill_part d part axis T r n = T r n.
Proof.
  intros H. unfold fill_part, filled. rewrite H.
  now destruct (existsb _ _).
Qed.

Lemma isnan_true (c : fval) : isnan c = true -> c = NaN.
Proof. now destruct c. Qed.

Lemma substituted_spec (d : DataFrame) (r : Row) (n : string) (ax : Axis) :
  NoDup (columns d) -> axis_of d n = Some ax ->
  (isnan (cell_by_name d r n) = false ->
   substituted d r n = cell_by_name d r n) /\
  (isnan (cell_by_name d r n) = true ->
   (forall part,
      str_in (part_pattern part) n = true ->
      (forall q, q <> part -> str_in (part_pattern q) n = false) ->
      substituted d r n = cell_by_name d r (anchor_column part ax)) /\
   ((forall q, str_in (part_pattern q) n = false) ->
    substituted d r n = NaN)).
Proof.
  intros Hnd Hax. unfold substituted. split; [|intros Hnan; split].
  - intros Hnan.
    assert (K : forall p a (T : Row -> string -> fval),
               T r n = cell_by_name d r n ->
               fill_part d p a T r n = cell_by_name d r n).
    { intros p a T HT. rewrite fill_part_kept; [exact HT|]. now rewrite HT. }
    repeat apply K. reflexivity.
  - intros part Hpart Hothers.
    rewrite !(fill_part_eq d _ _ ax _ r n Hnd Hax).
    rewrite ?fill_part_other by reflexivity.
    destruct part;
      [ rewrite (Hothers RightHandPart), (Hothers FacePart) by discriminate
      | rewrite (Hothers LeftHandPart), (Hothers FacePart) by discriminate
      | rewrite (Hothers LeftHandPart), (Hothers RightHandPart) by discriminate ];
      rewrite Hpart; destruct ax;
      cbn [andb axis_eqb]; rewrite ?Hnan; reflexivity.
  - intros Hnone.
    assert (K : forall p a (T : Row -> string -> fval),
               T r n = cell_by_name d r n ->
               fill_part d p a T r n = cell_by_name d r n).
    { intros p a T HT. rewrite (fill_part_eq d p a ax T r n Hnd Hax), (Hnone p).
      exact HT. }
    transitivity (cell_by_name d r n); [|now apply isnan_true].
    repeat apply K. reflexivity.
Qed.

Lemma Forall2_map_diag {A B} (P : A -> B -> Prop) (F : A -> B) (l : list A) :
  (forall x, In x l -> P x (F x)) -> Forall2 P l (map F l).
Proof.
  induction l as [|a l IH]; intros H; simpl; constructor.
  - apply H. now left.
  - apply IH. intros x Hx. apply H. now right.
Qed.

Lemma rows_selected (d : DataFrame) (sel : list string) :
  rows (selected d sel) = map (selected_row d sel) (rows d).
Proof.
  unfold selected, selected_row. destruct (0 <? length sel)%nat; simpl;
    [reflexivity | now rewrite map_id].
Qed.

Lemma selected_row_metadata (d : DataFrame) (sel : list string) (r : Row) :
  same_metadata r (selected_row d sel r).
Proof. unfold selected_row. destruct (0 <? length sel)%nat; now repeat split. Qed.

(** The column filter keeps the cells of the columns it keeps. *)
Lemma cell_selected (d : DataFrame) (sel : list string) (r : Row) (n : string) :
  is_base n = false -> In n (columns (selected d sel)) ->
  cell_by_name (selected d sel) (selected_row d sel r) n = cell_by_name d r n.
Proof.
  intros Hb. unfold selected, selected_row.
  destruct (0 <? length sel)%nat; [|reflexivity]. cbn [columns]. intros Hn.
  destruct (index_of_In n _ Hn) as [p Hp].
  unfold cell_by_name at 1. rewrite (meta_value_None _ n Hb). cbn [columns].
  rewrite Hp. unfold cell. cbn [cells].
  apply index_of_Some in Hp. now rewrite lookup_map, Hp.
Qed.

Lemma axis_of_In (d : DataFrame) (n : string) (ax : Axis) :
  axis_of d n = Some ax -> In n (columns d).
Proof.
  unfold axis_of. destruct (index_of n (columns d)) as [p|] eqn:E; [|discriminate].
  intros _. apply index_of_Some in E. apply list_elem_of_In.
  eapply list_elem_of_lookup_2; exact E.
Qed.

(** C9. [preprocess_dataframe] returns a table with the rows of its
    argument in the same order.  Its coordinate columns are those of the
    argument and the computed [root] and [midhip] columns, or, with a
    selection, the selected labels.  For every coordinate column of the
    argument that it keeps (the computed columns aside): a cell that was
    not missing is unchanged; a missing cell of a left-hand, right-hand
    or face column holds the cell of the same row in the left wrist,
    right wrist or nose column of the same axis; a missing cell of any
    other column is still missing. *)
Theorem missing_cells_take_anchor (h : heap) (l : loc) (d : DataFrame)
    (sel : list string) (wr wm : bool) :
  h !! l = Some d -> wf d ->
  (forall a, In a (required_columns wr wm) -> In a (columns d)) ->
  (forall a, In a sel ->
     is_base a = true \/ In a (columns d) \/ In a (derived_columns wr wm)) ->
  exists l' h' d',
    preprocess_dataframe l sel wr wm h = (Ok l', h') /\
    h' !! l' = Some d' /\
    (sel = [] ->
     forall n, In n (columns d') <->
               In n (columns d) \/ In n (derived_columns wr wm)) /\
    (sel <> [] -> columns d' = np_unique sel) /\
    Forall2 (fun r r' =>
      same_metadata r r' /\
      forall n ax,
        axis_of d n = Some ax -> In n (columns d') ->
        ~ In n (derived_columns wr wm) ->
        (isnan (cell_by_name d r n) = false ->
         cell_by_name d' r' n = cell_by_name d r n) /\
        (isnan (cell_by_name d r n) = true ->
         (forall part,
            str_in (part_pattern part) n = true ->
            (forall q, q <> part -> str_in (part_pattern q) n = false) ->
            cell_by_name d' r' n = cell_by_name d r (anchor_column part ax)) /\
         ((forall q, str_in (part_pattern q) n = false) ->
          cell_by_name d' r' n = NaN)))
      (rows d) (rows d').
Proof.
  intros Hl Hwf Hreq Hsel.
  destruct (preprocess_dataframe_run h l d sel wr wm Hl Hwf Hreq Hsel)
    as (l' & h' & d8 & Hrun & Hl' & Hwf8 & Hcols & G & Hrows & HG).
  exists l', h', (selected d8 sel). split; [exact Hrun|]. split; [exact Hl'|].
  split; [|split].
  - intros ->. change (selected d8 []) with d8 in *.
    destruct (preprocess_columns_run h l d wr wm Hl Hwf Hreq)
      as (l1 & h1 & d1 & Hrun1 & Hl1 & Hwithin).
    rewrite Hrun in Hrun1. injection Hrun1 as <- <-.
    rewrite Hl' in Hl1. injection Hl1 as <-.
    intros n. split; [apply Hwithin | apply Hcols].
  - intros Hne. unfold selected. destruct sel; [contradiction | reflexivity].
  - rewrite rows_selected, Hrows, map_map.
    apply Forall2_map_diag. intros r Hr. destruct (HG r Hr) as [Hmeta Hcell].
    split.
    + eapply same_metadata_trans; [exact Hmeta | apply selected_row_metadata].
    + intros n ax Hax Hn Hhid.
      pose proof (axis_of_In d n ax Hax) as Hnd.
      rewrite cell_selected; [|eapply coordinate_not_base; eauto | exact Hn].
      rewrite (Hcell n Hnd Hhid).
      apply substituted_spec; [now apply wf_NoDup | exact Hax].
Qed.

Lemma wf_sample_table : wf sample_table.
Proof.
  split.
  - refine (bool_decide_unpack _ _). vm_compute. reflexivity.
  - repeat constructor.
Defined.

Lemma missing_cells_take_anchor_witness :
  exists l' h' d',
    preprocess_dataframe 0 [] true false sample_heap = (Ok l', h') /\
    h' !! l' = Some d' /\
    (@nil string = [] ->
     forall n, In n (columns d') <->
               In n (columns sample_table) \/ In n (derived_columns true false)) /\
    (@nil string <> [] -> columns d' = np_unique []) /\
    Forall2 (fun r r' =>
      same_metadata r r' /\
      forall n ax,
        axis_of sample_table n = Some ax -> In n (columns d') ->
        ~ In n (derived_columns true false) ->
        (isnan (cell_by_name sample_table r n) = false ->
         cell_by_name d' r' n = cell_by_name sample_table r n) /\
        (isnan (cell_by_name sample_table r n) = true ->
         (forall part,
            str_in (part_pattern part) n = true ->
            (forall q, q <> part -> str_in (part_pattern q) n = false) ->
            cell_by_name d' r' n
            = cell_by_name sample_table r (anchor_column part ax)) /\
         ((forall q, str_in (part_pattern q) n = false) ->
          cell_by_name d' r' n = NaN)))
      (rows sample_table) (rows d').
Proof.
  apply (missing_cells_take_anchor sample_heap 0 sample_table [] true false).
  - reflexivity.
  - exact wf_sample_table.
  - intros a Ha. simpl in Ha.
    repeat (destruct Ha as [<- | Ha];
            [simpl; repeat (first [left; reflexivity | right])|]).
    contradiction.
  - intros a [].
Defined.

(** *** Assignments computed from the rows of the argument *)

Lemma cells_by_name (d : DataFrame) (r : Row) :
  wf d -> length (cells r) = length (columns d) ->
  cells r = map (cell_by_name d r) (columns d).
Proof.
  intros Hwf Hlen. apply list_eq. intros p. rewrite lookup_map.
  destruct (columns d !! p) as [n|] eqn:En; simpl.
  - assert (Hn : In n (columns d)).
    { apply list_elem_of_In. eapply list_elem_of_lookup_2; exact En. }
    rewrite (cell_by_name_coordinate d r n p).
    + unfold cell. destruct (cells r !! p) as [v|] eqn:Ev; [reflexivity|].
      apply lookup_ge_None in Ev. apply lookup_lt_Some in En. lia.
    + eapply coordinate_not_base; eauto.
    + apply index_of_lookup; [now apply wf_NoDup | exact En].
  - apply lookup_ge_None. apply lookup_ge_None in En. lia.
Qed.

Lemma tracks_getitems (d : DataFrame) (hidden added : list string)
    (T : Row -> string -> fval) (dk : DataFrame) (ns : list string) :
  tracks d hidden added T dk ->
  (forall a, In a ns -> In a (columns d) /\ ~ In a hidden) ->
  getitems dk ns = Ok (map (fun r0 => map (T r0) ns) (rows d)).
Proof.
  intros (Hwf & Hcols & G & Hrows & HG) Hns.
  rewrite getitems_rows.
  - f_equal. rewrite Hrows, map_map. apply map_ext_in. intros r0 Hr0.
    apply map_ext_in. intros n Hn. destruct (Hns n Hn) as [Hc Hh].
    now apply (HG r0 Hr0).
  - intros a Ha. apply Hcols. left. now apply Hns.
Qed.

Lemma assign_rows_tracked (dk : DataFrame) (m : Row -> bool) (ns : list string)
    (g : Row -> string -> fval) (G : Row -> Row) (rows0 : list Row) :
  assign_rows dk (map m rows0) ns
    (map (fun r0 => map (g r0) ns) (select_lines (map m rows0) rows0))
    (map G rows0)
  = map (fun r0 => if m r0 then set_cells dk ns (map (g r0) ns) (G r0) else G r0)
        rows0.
Proof.
  induction rows0 as [|r rs IH]; simpl; [reflexivity|].
  destruct (m r); simpl; now rewrite IH.
Qed.

Lemma count_true_select_lines (m : Row -> bool) (rs : list Row) :
  count_true (map m rs) = length (select_lines (map m rs) rs).
Proof.
  unfold count_true. induction rs as [|r rs IH]; simpl; [reflexivity|].
  destruct (m r); simpl; now rewrite IH.
Qed.

Lemma tracks_assign (d : DataFrame) (hidden added : list string)
    (T : Row -> string -> fval) (dk : DataFrame) (m : Row -> bool)
    (ns : list string) (g : Row -> string -> fval) :
  tracks d hidden added T dk ->
  (forall a, In a ns -> In a (columns d)) ->
  exists dk',
    loc_assign dk (map m (rows d)) ns
      (map (fun r0 => map (g r0) ns) (select_lines (map m (rows d)) (rows d)))
    = Ok dk' /\
    columns dk' = columns dk /\
    tracks d hidden added (assigned m ns g T) dk'.
Proof.
  intros (Hwf & Hcols & G & Hrows & HG) Hns.
  pose proof Hwf as [Hnd Hlen].
  assert (Hns' : forall a, In a ns -> In a (columns dk)).
  { intros a Ha. apply Hcols. left. now apply Hns. }
  exists (mkDF (columns dk)
            (map (fun r0 => if m r0 then set_cells dk ns (map (g r0) ns) (G r0)
                            else G r0) (rows d))).
  split; [|split; [reflexivity|]].
  - unfold loc_assign. rewrite (missing_column_None dk ns Hns').
    rewrite length_map, count_true_select_lines, Nat.eqb_refl. simpl.
    replace (forallb _ _) with true.
    + simpl. rewrite Hrows, assign_rows_tracked. reflexivity.
    + symmetry. apply forallb_forall. intros line Hl.
      apply in_map_iff in Hl as (r & <- & _). rewrite length_map. apply Nat.eqb_refl.
  - split; [|split; [exact Hcols|]].
    + split; cbn [columns rows]; [exact Hnd|].
      apply Forall_map, Forall_forall. intros r0 Hr0. simpl.
      assert (Hg : length (cells (G r0)) = length (columns dk)).
      { apply wf_rows; [exact Hwf|]. rewrite Hrows. apply in_map.
        now apply list_elem_of_In. }
      destruct (m r0); [now rewrite set_cells_length | exact Hg].
    + eexists. split; [reflexivity|]. intros r0 Hr0.
      destruct (HG r0 Hr0) as [Hmeta Hcell].
      assert (Hg : length (cells (G r0)) = length (columns dk)).
      { apply wf_rows; [exact Hwf|]. rewrite Hrows. now apply in_map. }
      split.
      * destruct (m r0); [|exact Hmeta].
        eapply same_metadata_trans; [exact Hmeta | apply set_cells_metadata].
      * intros n Hn Hhid. unfold assigned.
        change (cell_by_name (mkDF (columns dk) ?rs) ?x n) with (cell_by_name dk x n).
        destruct (m r0); simpl; [|now apply Hcell].
        rewrite cell_set_cells; auto.
        -- now rewrite (Hcell n Hn Hhid).
        -- eapply coordinate_not_base; [exact Hwf|]. apply Hcols. now left.
Qed.

Lemma select_lines_every {A} (rs : list Row) (l : list A) :
  length l = length rs -> select_lines (map every_row rs) l = l.
Proof.
  revert rs. induction l as [|a l IH]; intros [|r rs]; simpl; try discriminate;
    try reflexivity.
  intros [= H]. now rewrite IH.
Qed.

Lemma assign_step_tracks {B} (h : heap) (l : loc) (d dk : DataFrame)
    (hidden added : list string) (T : Row -> string -> fval)
    (m : Row -> bool) (ns : list string) (g : Row -> string -> fval)
    (mask : list bool) (arr : list (list fval))
    (k : M B) (Q : result B * heap -> Prop) :
  h !! l = Some dk -> tracks d hidden added T dk ->
  (forall a, In a ns -> In a (columns d)) ->
  mask = map m (rows d) ->
  arr = map (fun r0 => map (g r0) ns) (select_lines (map m (rows d)) (rows d)) ->
  (forall h' dk', h' !! l = Some dk' -> columns dk' = columns dk ->
                  tracks d hidden added (assigned m ns g T) dk' -> Q (k h')) ->
  Q ((df_loc_assign l mask ns arr;; k) h).
Proof.
  intros Hl Htr Hns -> -> Hk.
  destruct (tracks_assign d hidden added T dk m ns g Htr Hns)
    as (dk' & Hok & Hsame & Htr').
  assert (Hrun : df_loc_assign l (map m (rows d)) ns
                   (map (fun r0 => map (g r0) ns)
                      (select_lines (map m (rows d)) (rows d))) h
                 = (Ok tt, <[l := dk']> h)).
  { unfold df_loc_assign. rewrite (bind_run _ _ _ _ _ (df_read_run h l dk Hl)).
    rewrite Hok. cbv [lift]. erewrite bind_run by reflexivity.
    now apply df_write_run with (d := dk). }
  rewrite (bind_run _ _ _ _ _ Hrun).
  eapply Hk; [apply lookup_insert_eq | exact Hsame | exact Htr'].
Qed.

Lemma tracks_all_rows (d : DataFrame) (hidden added : list string)
    (T : Row -> string -> fval) (dk : DataFrame) :
  tracks d hidden added T dk -> all_rows dk = map every_row (rows d).
Proof.
  intros (_ & _ & G & Hrows & _). unfold all_rows. now rewrite Hrows, map_map.
Qed.

Lemma assign_all_step_tracks {B} (h : heap) (l : loc) (d dk : DataFrame)
    (hidden added : list string) (T : Row -> string -> fval)
    (ns : list string) (g : Row -> string -> fval) (arr : list (list fval))
    (k : M B) (Q : result B * heap -> Prop) :
  h !! l = Some dk -> tracks d hidden added T dk ->
  (forall a, In a ns -> In a (columns d)) ->
  arr = map (fun r0 => map (g r0) ns) (rows d) ->
  (forall h' dk', h' !! l = Some dk' -> columns dk' = columns dk ->
                  tracks d hidden added (assigned every_row ns g T) dk' -> Q (k h')) ->
  Q ((df_loc_assign_all l ns arr;; k) h).
Proof.
  intros Hl Htr Hns -> Hk.
  assert (Heq : (df_loc_assign_all l ns (map (fun r0 => map (g r0) ns) (rows d));; k) h
                = (df_loc_assign l (map every_row (rows d)) ns
                     (map (fun r0 => map (g r0) ns) (rows d));; k) h).
  { unfold df_loc_assign_all, df_loc_assign.
    rewrite !bind_assoc_run.
    rewrite !(bind_run _ _ _ _ _ (df_read_run h l dk Hl)).
    now rewrite (tracks_all_rows d hidden added T dk Htr). }
  rewrite Heq.
  eapply assign_step_tracks; eauto.
  now rewrite select_lines_every.
Qed.

Lemma lines_op_map (op : fval -> fval -> fval) (f : Row -> list fval)
    (v : Row -> fval) (rs : list Row) :
  lines_op op (map f rs) (map v rs)
  = map (fun r => map (fun x => op x (v r)) (f r)) rs.
Proof.
  unfold lines_op. induction rs as [|r rs IH]; simpl; [reflexivity | now rewrite IH].
Qed.

Lemma x_columns_incl (d : DataFrame) (a : string) :
  In a (x_columns_of d) -> In a (columns d).
Proof.
  intros Hin. destruct (in_step2 (columns d) a) as [Hx _].
  apply Hx in Hin as (p & Hp & _). apply list_elem_of_In.
  eapply list_elem_of_lookup_2; exact Hp.
Qed.

Lemma y_columns_incl (d : DataFrame) (a : string) :
  In a (y_columns_of d) -> In a (columns d).
Proof.
  intros Hin. destruct (in_step2 (columns d) a) as [_ Hy].
  apply Hy in Hin as (p & Hp & _). apply list_elem_of_In.
  eapply list_elem_of_lookup_2; exact Hp.
Qed.

Lemma lift_run {A B} (a : A) (k : A -> M B) (h : heap) :
  (lift (Ok a) ≫= k) h = k a h.
Proof. reflexivity. Qed.

(** *** Running [normalize_dataframe_from_neg1_to_1] *)

Lemma neg1_to_1_run (h : heap) (l : loc) (d : DataFrame) :
  h !! l = Some d -> wf d ->
  In "root_x" (columns d) -> In "root_y" (columns d) ->
  exists l' h' d',
    normalize_dataframe_from_neg1_to_1 l h = (Ok l', h') /\
    h' !! l' = Some d' /\
    columns d' = columns d /\
    tracks d [] [] (scaled d) d'.
Proof.
  intros Hl0 Hwf Hrx Hry. unfold normalize_dataframe_from_neg1_to_1.
  rewrite (copy_run h l d _ Hl0).
  set (l1 := fresh (dom h)). set (h1 := <[l1 := d]> h).
  assert (Hl : h1 !! l1 = Some d) by apply lookup_insert_eq.
  clearbody h1 l1.
  pose proof (tracks_init d [] Hwf) as Htr.
  rewrite (bind_run _ _ _ _ _ (df_read_run h1 l1 d Hl)). cbv zeta.
  rewrite (tracks_getitems d [] [] _ d ["root_x"; "root_y"] Htr), lift_run.
  2:{ intros a [<- | [<- | []]]; (split; [assumption | intros []]). }
  (* x columns *)
  rewrite (bind_run _ _ _ _ _ (df_read_run h1 l1 d Hl)).
  rewrite (tracks_getitems d [] [] _ d (x_columns_of d) Htr), lift_run.
  2:{ intros a Ha. split; [now apply x_columns_incl | intros []]. }
  match goal with
  | |- exists l' h' d', ?X = _ /\ _ =>
      pattern X; match goal with |- ?Q0 _ => set (Q := Q0) end
  end.
  eapply (assign_all_step_tracks h1 l1 d d [] [] (cell_by_name d) (x_columns_of d)
            (fun r n => fsub (cell_by_name d r n) (cell_by_name d r "root_x")));
    [exact Hl | exact Htr | apply x_columns_incl | |].
  { unfold arr_column. rewrite map_map. cbn [lookup list_lookup default].
    rewrite lines_op_map. apply map_ext. intros r. now rewrite map_map. }
  clear Hl Htr h1. intros h1 d1 Hl Hc1 Htr. fold (centred_x d) in Htr.
  (* y columns *)
  rewrite (bind_run _ _ _ _ _ (df_read_run h1 l1 d1 Hl)).
  rewrite (tracks_getitems d [] [] _ d1 (y_columns_of d) Htr), lift_run.
  2:{ intros a Ha. split; [now apply y_columns_incl | intros []]. }
  eapply (assign_all_step_tracks h1 l1 d d1 [] [] (centred_x d) (y_columns_of d)
            (fun r n => fsub (centred_x d r n) (cell_by_name d r "root_y")));
    [exact Hl | exact Htr | apply y_columns_incl | |].
  { unfold arr_column. rewrite map_map. cbn [lookup list_lookup default].
    rewrite lines_op_map. apply map_ext. intros r. now rewrite map_map. }
  clear Hl Htr h1. intros h2 d2 Hl Hc2 Htr. fold (centred d) in Htr.
  (* scale *)
  rewrite (bind_run _ _ _ _ _ (df_read_run h2 l1 d2 Hl)).
  rewrite (tracks_getitems d [] [] _ d2 (xy_columns_of d) Htr), lift_run.
  2:{ intros a Ha. split; [exact Ha | intros []]. }
  eapply (assign_all_step_tracks h2 l1 d d2 [] [] (centred d) (xy_columns_of d)
            (fun r n => fdiv (centred d r n) (row_scale d r)));
    [exact Hl | exact Htr | auto | |].
  { rewrite map_map, lines_op_map. apply map_ext. intros r. now rewrite map_map. }
  clear Hl Htr h2. intros h3 d3 Hl Hc3 Htr. fold (scaled d) in Htr.
  subst Q. cbv beta. exists l1, h3, d3.
  split; [reflexivity | split; [exact Hl | split; [congruence | exact Htr]]].
Qed.

End FrameFacts.

(** ** Frame rules for the store *)

Module HeapFacts.

Lemma hoare_bind {A B} (P : heap -> Prop) (m : M A) (k : A -> M B)
    (R : A -> heap -> Prop) (Q : result B -> heap -> Prop) :
  hoare P m (fun r h => match r with Ok a => R a h | Raise e => Q (Raise e) h end) ->
  (forall a, hoare (R a) (k a) Q) ->
  hoare P (m ≫= k) Q.
Proof.
  intros Hm Hk h HP. specialize (Hm h HP). unfold mbind, M_bind.
  destruct (m h) as [[a|e] h1]; simpl in *; [now apply Hk | exact Hm].
Qed.

Lemma steady_bind {A B} (I : heap -> Prop) (m : M A) (k : A -> M B) :
  steady I m -> (forall a, steady I (k a)) -> steady I (m ≫= k).
Proof.
  intros Hm Hk. apply hoare_bind with (R := fun _ h => I h).
  - intros h HI. specialize (Hm h HI). now destruct (m h).1.
  - exact Hk.
Qed.

(** Steps that keep the invariant, then a last computation. *)
Lemma steady_then {A B} (I : heap -> Prop) (m : M A) (k : A -> M B)
    (Q : result B -> heap -> Prop) :
  steady I m -> (forall a, hoare I (k a) Q) ->
  (forall e h, I h -> Q (Raise e) h) ->
  hoare I (m ≫= k) Q.
Proof.
  intros Hm Hk Hraise. apply hoare_bind with (R := fun _ h => I h).
  - intros h HI. specialize (Hm h HI). destruct (m h).1; [exact Hm | now apply Hraise].
  - exact Hk.
Qed.

Lemma steady_ret {A} (I : heap -> Prop) (a : A) : steady I (mret a).
Proof. intros h HI. exact HI. Qed.

Lemma steady_lift {A} (I : heap -> Prop) (r : result A) : steady I (lift r).
Proof. intros h HI. exact HI. Qed.

Lemma steady_raise {A} (I : heap -> Prop) (e : exc) : steady I (@raise A e).
Proof. intros h HI. exact HI. Qed.

Lemma steady_read (I : heap -> Prop) (l : loc) : steady I (df_read l).
Proof. intros h HI. unfold df_read. now destruct (h !! l). Qed.

Lemma steady_write (h0 : heap) (l : loc) (d : DataFrame) :
  steady (owns h0 l) (df_write l d).
Proof.
  intros h (Hext & Hnew & [d0 Hl]). unfold df_write. rewrite Hl; simpl.
  split; [|split; [exact Hnew|]].
  - intros k d' Hk. rewrite lookup_insert_ne; [now apply Hext|].
    intros Heq. subst. congruence.
  - rewrite lookup_insert_eq. eauto.
Qed.

Lemma fresh_not_in (h0 h : heap) : extends h0 h -> h0 !! fresh (dom h) = None.
Proof.
  intros Hext. destruct (h0 !! fresh (dom h)) as [d|] eqn:E; [|reflexivity].
  exfalso. apply (is_fresh (dom h)). apply elem_of_dom. exists d. now apply Hext.
Qed.

Lemma extends_insert_fresh (h0 h : heap) (d : DataFrame) :
  extends h0 h -> extends h0 (<[fresh (dom h) := d]> h).
Proof.
  intros Hext k d' Hk. rewrite lookup_insert_ne; [now apply Hext|].
  intros <-. rewrite (fresh_not_in h0 h Hext) in Hk. discriminate.
Qed.

Lemma steady_new (h0 : heap) (l : loc) (d : DataFrame) :
  steady (owns h0 l) (df_new d).
Proof.
  intros h (Hext & Hnew & Hl). unfold df_new; simpl.
  split; [now apply extends_insert_fresh | split; [exact Hnew|]].
  rewrite lookup_insert_ne; [exact Hl|].
  intros <-. apply (is_fresh (dom h)). now apply elem_of_dom.
Qed.

Lemma new_returns_new (h0 : heap) (d : DataFrame) :
  hoare (extends h0) (df_new d) (returns_new h0).
Proof.
  intros h Hext. unfold df_new; simpl. split; [now apply extends_insert_fresh|].
  intros l [= <-]. split; [now apply fresh_not_in|].
  rewrite lookup_insert_eq. eauto.
Qed.

Lemma owns_extends (h0 : heap) (l : loc) (h : heap) : owns h0 l h -> extends h0 h.
Proof. now intros [H _]. Qed.

Lemma owns_returns (h0 : heap) (l : loc) (h : heap) :
  owns h0 l h -> returns_new h0 (Ok l) h.
Proof. intros (Hext & Hnew & Hl). split; [exact Hext|]. now intros l' [= <-]. Qed.

(** [dataframe.copy()] hands out an object of its own. *)
Lemma copy_owns {B} (h0 : heap) (l : loc) (k : loc -> M B)
    (Q : result B -> heap -> Prop) :
  (forall l', hoare (owns h0 l') (k l') Q) ->
  (forall e h, extends h0 h -> Q (Raise e) h) ->
  hoare (extends h0) (df_copy l ≫= k) Q.
Proof.
  intros Hk Hraise h Hext. unfold df_copy, df_read, df_new, mbind, M_bind.
  destruct (h !! l) as [d|] eqn:E; simpl; [|now apply Hraise].
  apply Hk. split; [now apply extends_insert_fresh|].
  split; [now apply fresh_not_in|]. rewrite lookup_insert_eq. eauto.
Qed.

Create HintDb steady.

#[export] Hint Resolve steady_ret steady_lift steady_raise steady_read
  steady_write steady_new : steady.

Ltac steady :=
  repeat first
    [ apply steady_bind; [|intros ?]
    | solve [auto with steady]
    | match goal with
      | |- steady _ (if ?b then _ else _) => destruct b
      | |- steady _ (match ?x with _ => _ end) => destruct x
      end ].

Lemma steady_replace_nan (I : heap -> Prop) (l : loc) src tgt :
  steady I (replace_nan_with_other_column l src tgt).
Proof. unfold replace_nan_with_other_column. steady. Qed.

Lemma steady_loc_assign_all (h0 : heap) (l : loc) ns arr :
  steady (owns h0 l) (df_loc_assign_all l ns arr).
Proof. unfold df_loc_assign_all. steady. Qed.

Lemma steady_loc_assign (h0 : heap) (l : loc) mask ns arr :
  steady (owns h0 l) (df_loc_assign l mask ns arr).
Proof. unfold df_loc_assign. steady. Qed.

Lemma steady_set_midpoint (h0 : heap) (l : loc) n a b :
  steady (owns h0 l) (df_set_midpoint l n a b).
Proof. unfold df_set_midpoint. steady. Qed.

#[export] Hint Resolve steady_replace_nan steady_loc_assign_all
  steady_loc_assign steady_set_midpoint : steady.

Lemma loc_columns_returns_new (h0 : heap) (l : loc) labels :
  hoare (owns h0 l) (df_loc_columns l labels) (returns_new h0).
Proof.
  unfold df_loc_columns.
  apply steady_then; [steady | intros d | intros e h H; split; [apply H | discriminate]].
  apply steady_then; [steady | intros d' | intros e h H; split; [apply H | discriminate]].
  intros h H. apply new_returns_new, H.
Qed.

Ltac returns_new_raise :=
  intros ? ? ?; split;
  [ first [assumption | eapply owns_extends; eassumption] | discriminate ].

Lemma preprocess_dataframe_returns_new (h0 : heap) (l : loc)
    (select_columns : list string) (with_root with_midhip : bool) :
  hoare (extends h0)
    (preprocess_dataframe l select_columns with_root with_midhip)
    (returns_new h0).
Proof.
  unfold preprocess_dataframe.
  apply copy_owns; [intros l' | returns_new_raise].
  repeat (apply steady_then; [steady | intros ? | returns_new_raise]).
  destruct (0 <? length select_columns)%nat.
  - apply loc_columns_returns_new.
  - intros h H. now apply owns_returns.
Qed.

Lemma neg1_to_1_returns_new (h0 : heap) (l : loc) :
  hoare (extends h0) (normalize_dataframe_from_neg1_to_1 l) (returns_new h0).
Proof.
  unfold normalize_dataframe_from_neg1_to_1.
  apply copy_owns; [intros l' | returns_new_raise].
  repeat (apply steady_then; [steady | intros ? | returns_new_raise]).
  intros h H. now apply owns_returns.
Qed.

Lemma legacy_returns_new (h0 : heap) (l : loc) :
  hoare (extends h0) (normalize_dataframe_legacy l) (returns_new h0).
Proof.
  unfold normalize_dataframe_legacy.
  apply copy_owns; [intros l' | returns_new_raise].
  repeat (apply steady_then; [steady | intros ? | returns_new_raise]).
  intros h H. now apply owns_returns.
Qed.

Lemma extends_refl (h : heap) : extends h h.
Proof. now intros k d. Qed.

(** C10. [preprocess_dataframe], [normalize_dataframe_from_neg1_to_1] and
    [normalize_dataframe_legacy] leave the table they are given as it was,
    like every other table of the store, whether they return or raise; the
    table they return is a new object. *)
Theorem table_functions_do_not_mutate (h : heap) (l : loc) (d : DataFrame)
    (select_columns : list string) (with_root with_midhip : bool) :
  h !! l = Some d ->
  let unchanged (out : result loc * heap) :=
    out.2 !! l = Some d /\
    extends h out.2 /\
    forall l', out.1 = Ok l' -> l' <> l /\ h !! l' = None /\ is_Some (out.2 !! l') in
  unchanged (preprocess_dataframe l select_columns with_root with_midhip h) /\
  unchanged (normalize_dataframe_from_neg1_to_1 l h) /\
  unchanged (normalize_dataframe_legacy l h).
Proof.
  intros Hl unchanged.
  assert (Hgen : forall m : M loc,
             hoare (extends h) m (returns_new h) -> unchanged (m h)).
  { intros m Hm. destruct (Hm h (extends_refl h)) as [Hext Hnew].
    split; [now apply Hext|]. split; [exact Hext|].
    intros l' Hr. destruct (Hnew l' Hr) as [Hnone Hsome].
    split; [|now split]. intros ->. congruence. }
  split; [|split]; apply Hgen.
  - apply preprocess_dataframe_returns_new.
  - apply neg1_to_1_returns_new.
  - apply legacy_returns_new.
Qed.

Lemma table_functions_do_not_mutate_witness :
  (preprocess_dataframe 0 [] true false sample_heap).2 !! 0%nat = Some sample_table /\
  (normalize_dataframe_from_neg1_to_1 0 sample_heap).2 !! 0%nat = Some sample_table /\
  (normalize_dataframe_legacy 0 sample_heap).2 !! 0%nat = Some sample_table.
Proof.
  destruct (table_functions_do_not_mutate sample_heap 0 sample_table [] true false
              eq_refl) as ((H1 & _) & (H2 & _) & (H3 & _)).
  exact (conj H1 (conj H2 H3)).
Defined.

End HeapFacts.

(** ** The [Dataset] getters *)

Module DatasetClassFacts.

Lemma check_kwargs_outcome fname positional params kwargs :
  check_kwargs fname positional params kwargs = Ok tt \/
  is_TypeError (check_kwargs fname positional params kwargs).
Proof.
  induction kwargs as [|[k v] rest IH]; simpl.
  - now left.
  - destruct (existsb (String.eqb k) positional).
    + right. eexists. reflexivity.
    + destruct (existsb (String.eqb k) params).
      * exact IH.
      * right. eexists. reflexivity.
Qed.

(** The call made by the three getters: whatever [normalization] is, the
    keyword is rejected when the arguments are bound. *)
Lemma preprocess_call_rejected (l : loc) (normalization : pyvalue) (h : heap) :
  call_preprocess_dataframe l
    [("with_root", PyBool true); ("with_midhip", PyBool false);
     ("normalization", normalization)] h
  = (Raise (TypeError
       "preprocess_dataframe() got an unexpected keyword argument 'normalization'"),
     h).
Proof. reflexivity. Qed.

Ltac getter_raises :=
  match goal with
  | |- context [check_kwargs ?f ?p ?q ?k] =>
      destruct (check_kwargs_outcome f p q k) as [Hk | [msg Hk]];
      cbv [mbind M_bind lift]; rewrite Hk; simpl;
      eexists; reflexivity
  end.

Lemma get_training_set_TypeError
    (INPUT_HEIGHT INPUT_WIDTH : Z) (self : Dataset)
    (kwargs : list (string * pyvalue)) (h : heap) :
  exists msg, get_training_set INPUT_HEIGHT INPUT_WIDTH self kwargs h
              = (Raise (TypeError msg), h).
Proof. unfold get_training_set. getter_raises. Qed.

Lemma get_validation_set_TypeError
    (INPUT_HEIGHT : Z) (default_mode : pyvalue) (self : Dataset)
    (kwargs : list (string * pyvalue)) (h : heap) :
  exists msg, get_validation_set INPUT_HEIGHT default_mode self kwargs h
              = (Raise (TypeError msg), h).
Proof. unfold get_validation_set. getter_raises. Qed.

Lemma get_testing_set_TypeError
    (INPUT_HEIGHT : Z) (self : Dataset) (test_df : loc)
    (kwargs : list (string * pyvalue)) (h : heap) :
  test_dataframe self = Some test_df ->
  exists msg, get_testing_set INPUT_HEIGHT self kwargs h
              = (Raise (TypeError msg), h).
Proof. intros Ht. unfold get_testing_set. rewrite Ht. getter_raises. Qed.

(** C2. Every call of [get_training_set] and of [get_validation_set],
    and every call of [get_testing_set] on a dataset that has a test
    table, raises a [TypeError]; the store of tables is left as it was, so
    no table was preprocessed and no pipeline built. *)
Theorem getters_raise_TypeError
    (INPUT_HEIGHT INPUT_WIDTH : Z) (default_mode : pyvalue)
    (self : Dataset) (kwargs : list (string * pyvalue)) (h : heap) :
  (exists msg, get_training_set INPUT_HEIGHT INPUT_WIDTH self kwargs h
               = (Raise (TypeError msg), h)) /\
  (exists msg, get_validation_set INPUT_HEIGHT default_mode self kwargs h
               = (Raise (TypeError msg), h)) /\
  (forall test_df, test_dataframe self = Some test_df ->
   exists msg, get_testing_set INPUT_HEIGHT self kwargs h
               = (Raise (TypeError msg), h)).
Proof.
  split; [|split].
  - apply get_training_set_TypeError.
  - apply get_validation_set_TypeError.
  - intros test_df Ht. eapply get_testing_set_TypeError; eassumption.
Qed.

Lemma getters_raise_TypeError_witness :
  test_dataframe sample_dataset = Some 2%nat /\
  (exists msg, get_training_set 128 75 sample_dataset_without_test
                 [("batch_size", PyInt 16)] ∅ = (Raise (TypeError msg), ∅)) /\
  (exists msg, get_validation_set 128 Neg1To1 sample_dataset_without_test
                 [("batch_size", PyInt 16)] ∅ = (Raise (TypeError msg), ∅)) /\
  (exists msg, get_testing_set 128 sample_dataset
                 [("batch_size", PyInt 16)] ∅ = (Raise (TypeError msg), ∅)).
Proof.
  split; [reflexivity|].
  destruct (getters_raise_TypeError 128 75 Neg1To1 sample_dataset_without_test
              [("batch_size", PyInt 16)] ∅) as (H1 & H2 & _).
  destruct (getters_raise_TypeError 128 75 Neg1To1 sample_dataset
              [("batch_size", PyInt 16)] ∅) as (_ & _ & H3).
  split; [exact H1|]. split; [exact H2|].
  exact (H3 2%nat eq_refl).
Defined.





End DatasetClassFacts.

(** ** Length normalization *)

Module LayersFacts.

Lemma pad_height_pad (frames : Z) (h : nat) :
  (h + Z.to_nat (Z.max 0 (frames - Z.of_nat h)))%nat
  = Z.to_nat (Z.max frames (Z.of_nat h)).
Proof. lia. Qed.

Lemma PadIfLessThan_dims {A} (zero : A) frames (t : Tensor4 A) :
  dim0 (PadIfLessThan zero frames t) = dim0 t /\
  Z.of_nat (dim1 (PadIfLessThan zero frames t)) = Z.max frames (Z.of_nat (dim1 t)) /\
  dim2 (PadIfLessThan zero frames t) = dim2 t /\
  dim3 (PadIfLessThan zero frames t) = dim3 t.
Proof. unfold PadIfLessThan; simpl. repeat split. lia. Qed.

Lemma PadIfLessThan_wf {A} (zero : A) frames (t : Tensor4 A) :
  wf_tensor t -> wf_tensor (PadIfLessThan zero frames t).
Proof.
  intros [Hlen Himgs]. unfold PadIfLessThan, wf_tensor; simpl. split.
  - now rewrite length_map.
  - apply Forall_map. eapply Forall_impl; [exact Himgs|].
    intros img [Hh Hfr]; simpl. split.
    + rewrite length_app, length_replicate. lia.
    + apply Forall_app. split; [exact Hfr|].
      apply Forall_replicate. split.
      * apply length_replicate.
      * apply Forall_replicate, length_replicate.
Qed.

(** Padding by nothing returns the batch itself. *)
Lemma PadIfLessThan_id {A} (zero : A) frames (t : Tensor4 A) :
  (frames <= Z.of_nat (dim1 t))%Z -> PadIfLessThan zero frames t = t.
Proof.
  intros Hle. destruct t as [d0 d1 d2 d3 dat]; unfold PadIfLessThan; simpl in *.
  replace (Z.to_nat (Z.max 0 (frames - Z.of_nat d1))) with 0%nat by lia.
  simpl. rewrite Nat.add_0_r. f_equal.
  induction dat as [|img dat IH]; simpl; [reflexivity|].
  now rewrite app_nil_r, IH.
Qed.

Lemma tf_image_resize_wf (t : Tensor4 Q) (nh nw : Z) (out : Tensor4 Q) :
  length (data t) = dim0 t ->
  tf_image_resize t nh nw = Ok out ->
  wf_tensor out /\ dim0 out = dim0 t /\ Z.of_nat (dim1 out) = nh /\
  Z.of_nat (dim2 out) = nw /\ dim3 out = dim3 t.
Proof.
  intros Hlen. unfold tf_image_resize.
  destruct ((nh <=? 0)%Z || (nw <=? 0)%Z) eqn:Hpos; [discriminate|].
  destruct (Nat.eqb (dim1 t) 0 || Nat.eqb (dim2 t) 0)%nat; [discriminate|].
  destruct (Nat.eqb (dim3 t) 0); [discriminate|].
  intros [= <-]. apply orb_false_iff in Hpos as [H1 H2].
  apply Z.leb_gt in H1, H2. unfold wf_tensor. simpl. repeat split; try lia.
  - now rewrite length_map.
  - apply Forall_map, Forall_forall. intros img _. unfold resize_image. split.
    + now rewrite length_map, length_seq.
    + apply Forall_map, Forall_forall. intros y _.
      destruct (interpolation (dim1 t) (Z.to_nat nh) y) as [[y0 y1] wy]. split.
      * now rewrite length_map, length_seq.
      * apply Forall_map, Forall_forall. intros x _.
        destruct (interpolation (dim2 t) (Z.to_nat nw) x) as [[x0 x1] wx].
        now rewrite length_map, length_seq.
Qed.

(** C5. Padding to [T] frames and then resizing to [T] frames gives a
    batch of exactly [T] frames, whatever the number of frames of the
    input; examples, joints and channels keep their number; a batch that
    already has [T] frames is returned unchanged. *)
Theorem pad_then_resize_has_target_frames (T : Z) (images : Tensor4 Q) :
  (0 < T)%Z ->
  (0 < dim2 images)%nat -> (0 < dim3 images)%nat ->
  wf_tensor images ->
  exists out,
    length_normalization T images = Ok out /\
    Z.of_nat (dim1 out) = T /\
    dim0 out = dim0 images /\ dim2 out = dim2 images /\ dim3 out = dim3 images /\
    wf_tensor out /\
    (Z.of_nat (dim1 images) = T -> out = images).
Proof.
  intros HT Hw Hc Hwf. unfold length_normalization.
  pose proof (PadIfLessThan_dims 0%Q T images) as (P0 & P1 & P2 & P3).
  pose proof (PadIfLessThan_wf 0%Q T images Hwf) as Pwf.
  unfold ResizeIfMoreThan.
  destruct (Z.of_nat (dim1 (PadIfLessThan 0%Q T images)) >? T)%Z eqn:Hgt.
  - apply Z.gtb_lt in Hgt. simpl fst; simpl snd.
    destruct (tf_image_resize (PadIfLessThan 0%Q T images) T
                (Z.of_nat (dim2 (PadIfLessThan 0%Q T images)))) as [out|e] eqn:Hr.
    + destruct (tf_image_resize_wf _ _ _ _ (proj1 Pwf) Hr) as (W & D0 & D1 & D2 & D3).
      exists out. repeat split; try congruence; try lia.
      * apply W.
      * apply W.
    + exfalso. revert Hr. unfold tf_image_resize.
      replace ((T <=? 0)%Z) with false by (symmetry; apply Z.leb_gt; lia).
      replace ((Z.of_nat (dim2 (PadIfLessThan 0%Q T images)) <=? 0)%Z) with false
        by (symmetry; apply Z.leb_gt; lia).
      replace (Nat.eqb (dim1 (PadIfLessThan 0%Q T images)) 0) with false
        by (symmetry; apply Nat.eqb_neq; lia).
      replace (Nat.eqb (dim2 (PadIfLessThan 0%Q T images)) 0) with false
        by (symmetry; apply Nat.eqb_neq; lia).
      replace (Nat.eqb (dim3 (PadIfLessThan 0%Q T images)) 0) with false
        by (symmetry; apply Nat.eqb_neq; lia).
      simpl. discriminate.
  - assert (Hle : (Z.of_nat (dim1 (PadIfLessThan 0%Q T images)) <= T)%Z).
    { destruct (Z.gtb_spec (Z.of_nat (dim1 (PadIfLessThan 0%Q T images))) T);
        [discriminate | lia]. }
    exists (PadIfLessThan 0%Q T images). repeat split; try assumption; try lia.
    + apply Pwf.
    + apply Pwf.
    + intros Heq. apply PadIfLessThan_id. lia.
Qed.

Lemma pad_then_resize_has_target_frames_witness :
  exists out,
    length_normalization 3 sample_batch = Ok out /\
    Z.of_nat (dim1 out) = 3%Z /\
    dim0 out = 1%nat /\ dim2 out = 1%nat /\ dim3 out = 3%nat /\
    wf_tensor out /\
    (Z.of_nat (dim1 sample_batch) = 3%Z -> out = sample_batch).
Proof.
  apply (pad_then_resize_has_target_frames 3 sample_batch).
  - reflexivity.
  - simpl; lia.
  - simpl; lia.
  - unfold wf_tensor, sample_batch; simpl. repeat constructor.
Defined.

(** ** Min-max rescaling *)

Lemma Qlt_bool_true (x y : Q) : Qlt_bool x y = true <-> x < y.
Proof.
  unfold Qlt_bool. rewrite negb_true_iff. split.
  - intros H. apply Qnot_le_lt. intros Hle. apply Qle_bool_iff in Hle. congruence.
  - intros H. destruct (Qle_bool y x) eqn:E; [|reflexivity].
    apply Qle_bool_iff in E. exfalso. apply (Qlt_not_le _ _ H E).
Qed.

Lemma Qlt_bool_false (x y : Q) : Qlt_bool x y = false <-> y <= x.
Proof.
  unfold Qlt_bool. rewrite negb_false_iff. apply Qle_bool_iff.
Qed.

(** *** Overflow *)

Lemma float64_max_ge_1 : 1 <= float64_max.
Proof. apply Qle_bool_iff. vm_compute. reflexivity. Qed.

Lemma dtype_max_ge_1 (dtype : DType) : 1 <= dtype_max dtype.
Proof. destruct dtype; apply Qle_bool_iff; vm_compute; reflexivity. Qed.

Lemma overflow_cases (M q : Q) :
  (overflow M q = PInf /\ M < q) \/
  (overflow M q = NInf /\ q < - M) \/
  (overflow M q = Fin q /\ - M <= q <= M).
Proof.
  unfold overflow. destruct (Qlt_bool M q) eqn:E1.
  - left. split; [reflexivity | now apply Qlt_bool_true].
  - destruct (Qlt_bool q (- M)) eqn:E2.
    + right. left. split; [reflexivity | now apply Qlt_bool_true].
    + right. right. apply Qlt_bool_false in E1, E2. tauto.
Qed.

Lemma overflow_in_range (M q : Q) : - M <= q <= M -> overflow M q = Fin q.
Proof.
  intros [H1 H2]. unfold overflow.
  rewrite (proj2 (Qlt_bool_false M q) H2). now rewrite (proj2 (Qlt_bool_false q (- M)) H1).
Qed.

(** *** The least and the greatest entry *)

Lemma fold_fmin_NaN (t : list fval) : fold_left fmin t NaN = NaN.
Proof. induction t as [|y t IH]; [reflexivity | exact IH]. Qed.

Lemma fold_fmax_NaN (t : list fval) : fold_left fmax t NaN = NaN.
Proof. induction t as [|y t IH]; [reflexivity | exact IH]. Qed.

Lemma fle_refl' (a : fval) : a <> NaN -> fle a a.
Proof. destruct a; simpl; try easy. intros _. apply Qle_refl. Qed.

Lemma fle_trans' (a b c : fval) : fle a b -> fle b c -> fle a c.
Proof. destruct a, b, c; simpl; try easy. apply Qle_trans. Qed.

Lemma fmin_cases (x y : fval) :
  x <> NaN ->
  (y = NaN /\ fmin x y = NaN) \/
  (y <> NaN /\ fmin x y = y /\ fle y x) \/
  (y <> NaN /\ fmin x y = x /\ fle x y).
Proof.
  intros Hx. unfold fmin.
  destruct (isnan x) eqn:Ex; [now destruct x|].
  destruct (isnan y) eqn:Ey; [left; now destruct y|].
  assert (Hy : y <> NaN) by (now destruct y).
  destruct (fltb y x) eqn:E.
  - right. left. split; [exact Hy|]. split; [reflexivity|].
    destruct y, x; simpl in E |- *; try easy.
    apply Qlt_bool_true in E. now apply Qlt_le_weak.
  - right. right. split; [exact Hy|]. split; [reflexivity|].
    destruct y, x; simpl in E |- *; try easy.
    now apply Qlt_bool_false in E.
Qed.

Lemma fmax_cases (x y : fval) :
  x <> NaN ->
  (y = NaN /\ fmax x y = NaN) \/
  (y <> NaN /\ fmax x y = y /\ fle x y) \/
  (y <> NaN /\ fmax x y = x /\ fle y x).
Proof.
  intros Hx. unfold fmax.
  destruct (isnan x) eqn:Ex; [now destruct x|].
  destruct (isnan y) eqn:Ey; [left; now destruct y|].
  assert (Hy : y <> NaN) by (now destruct y).
  destruct (fltb x y) eqn:E.
  - right. left. split; [exact Hy|]. split; [reflexivity|].
    destruct y, x; simpl in E |- *; try easy.
    apply Qlt_bool_true in E. now apply Qlt_le_weak.
  - right. right. split; [exact Hy|]. split; [reflexivity|].
    destruct y, x; simpl in E |- *; try easy.
    now apply Qlt_bool_false in E.
Qed.

Lemma fold_fmin_spec (t : list fval) (x : fval) :
  x <> NaN ->
  let m := fold_left fmin t x in
  (In NaN t /\ m = NaN) \/
  (~ In NaN t /\ (m = x \/ In m t) /\ fle m x /\ forall v, In v t -> fle m v).
Proof.
  revert x. induction t as [|y t IH]; intros x Hx; cbn [fold_left].
  - right. split; [intros []|]. split; [now left|].
    split; [now apply fle_refl' | intros v []].
  - destruct (fmin_cases x y Hx) as [[-> ->] | [(Hy & -> & Hle0) | (Hy & -> & Hle0)]].
    + left. split; [now left | apply fold_fmin_NaN].
    + destruct (IH y Hy) as [[Hn Hm] | (Hn & Hin & Hle & Hall)].
      * left. split; [now right | exact Hm].
      * right. split; [intros [E | H]; [now apply Hy | now apply Hn]|].
        split; [right; destruct Hin as [-> | Hin]; [now left | now right]|].
        split; [eapply fle_trans'; eassumption|].
        intros v [<- | Hv]; [exact Hle | auto].
    + destruct (IH x Hx) as [[Hn Hm] | (Hn & Hin & Hle & Hall)].
      * left. split; [now right | exact Hm].
      * right. split; [intros [E | H]; [now apply Hy | now apply Hn]|].
        split; [destruct Hin as [-> | Hin]; [now left | right; now right]|].
        split; [exact Hle|].
        intros v [<- | Hv]; [eapply fle_trans'; eassumption | auto].
Qed.

Lemma fold_fmax_spec (t : list fval) (x : fval) :
  x <> NaN ->
  let m := fold_left fmax t x in
  (In NaN t /\ m = NaN) \/
  (~ In NaN t /\ (m = x \/ In m t) /\ fle x m /\ forall v, In v t -> fle v m).
Proof.
  revert x. induction t as [|y t IH]; intros x Hx; cbn [fold_left].
  - right. split; [intros []|]. split; [now left|].
    split; [now apply fle_refl' | intros v []].
  - destruct (fmax_cases x y Hx) as [[-> ->] | [(Hy & -> & Hle0) | (Hy & -> & Hle0)]].
    + left. split; [now left | apply fold_fmax_NaN].
    + destruct (IH y Hy) as [[Hn Hm] | (Hn & Hin & Hle & Hall)].
      * left. split; [now right | exact Hm].
      * right. split; [intros [E | H]; [now apply Hy | now apply Hn]|].
        split; [right; destruct Hin as [-> | Hin]; [now left | now right]|].
        split; [eapply fle_trans'; eassumption|].
        intros v [<- | Hv]; [exact Hle | auto].
    + destruct (IH x Hx) as [[Hn Hm] | (Hn & Hin & Hle & Hall)].
      * left. split; [now right | exact Hm].
      * right. split; [intros [E | H]; [now apply Hy | now apply Hn]|].
        split; [destruct Hin as [-> | Hin]; [now left | right; now right]|].
        split; [exact Hle|].
        intros v [<- | Hv]; [eapply fle_trans'; eassumption | auto].
Qed.

(** Over entries that hold a NaN, [reduce_min] and [reduce_max] are NaN;
    otherwise they are the least and the greatest entry. *)
Lemma reduce_min_max_spec (l : list fval) (v : fval) :
  In v l ->
  (In NaN l /\ reduce_min l = NaN /\ reduce_max l = NaN) \/
  (~ In NaN l /\ In (reduce_min l) l /\ In (reduce_max l) l /\
   forall u, In u l -> fle (reduce_min l) u /\ fle u (reduce_max l)).
Proof.
  intros Hv. unfold reduce_min, reduce_max.
  destruct (fold_fmin_spec l PInf ltac:(discriminate))
    as [[Hn Hm] | (Hn & Hin & _ & Hall)];
  destruct (fold_fmax_spec l NInf ltac:(discriminate))
    as [[Hn' Hm'] | (Hn' & Hin' & _ & Hall')]; try contradiction.
  - left. tauto.
  - right. split; [exact Hn|].
    assert (Hlo : In (fold_left fmin l PInf) l).
    { destruct Hin as [E | Hin]; [|exact Hin].
      pose proof (Hall v Hv) as Hle. rewrite E in Hle |- *.
      destruct v; simpl in Hle; try contradiction. exact Hv. }
    assert (Hhi : In (fold_left fmax l NInf) l).
    { destruct Hin' as [E | Hin']; [|exact Hin'].
      pose proof (Hall' v Hv) as Hle. rewrite E in Hle |- *.
      destruct v; simpl in Hle; try contradiction. exact Hv. }
    split; [exact Hlo|]. split; [exact Hhi|].
    intros u Hu. split; [now apply Hall | now apply Hall'].
Qed.

(** *** The rescaled value *)


(** Over finite entries whose range fits the format, it is a number of
    [0,1], and 0 when the range is degenerate. *)
Lemma min_max_scale_finite (dtype : DType) (x a b : Q) :
  a <= x -> x <= b -> b - a <= dtype_max dtype ->
  (a == b -> min_max_scale dtype (Fin x) (Fin a) (Fin b) = Fin 0) /\
  (~ a == b ->
   exists q, min_max_scale dtype (Fin x) (Fin a) (Fin b) = Fin q /\
             0 <= q /\ q <= 1 /\ q == (x - a) / (b - a)).
Proof.
  intros Hlo Hhi Hfit. unfold min_max_scale, divide_no_nan, fsub_in.
  pose proof (dtype_max_ge_1 dtype) as HM. set (M := dtype_max dtype) in *.
  cbn [fneg fadd_in].
  rewrite (overflow_in_range M (b + - a)) by lra.
  rewrite (overflow_in_range M (x + - a)) by lra.
  split.
  - intros Heq. replace (Qeq_bool (b + - a) 0) with true; [reflexivity|].
    symmetry. apply Qeq_bool_iff. lra.
  - intros Hne. destruct (Qeq_bool (b + - a) 0) eqn:E.
    + apply Qeq_bool_iff in E. exfalso. apply Hne. lra.
    + cbn [fdiv_in]. rewrite E.
      assert (H0 : 0 <= (x + - a) / (b + - a)) by (apply Qle_shift_div_l; lra).
      assert (H1 : (x + - a) / (b + - a) <= 1) by (apply Qle_shift_div_r; lra).
      rewrite overflow_in_range by lra.
      eexists. split; [reflexivity|]. split; [exact H0|]. split; [exact H1|].
      reflexivity.
Qed.

Lemma in_channel_values (img : list (list (list fval))) (i j c : nat) fr jt v :
  img !! i = Some fr -> fr !! j = Some jt -> jt !! c = Some v ->
  In v (channel_values img c).
Proof.
  intros Hi Hj Hc. unfold channel_values.
  apply list_elem_of_In, list_elem_of_join.
  exists (map (fun jt => default NaN (jt !! c)) fr). split.
  - apply list_elem_of_In, in_map_iff. exists jt. split.
    + now rewrite Hc.
    + apply list_elem_of_In. eapply list_elem_of_lookup_2; eassumption.
  - apply list_elem_of_In, in_map, list_elem_of_In.
    eapply list_elem_of_lookup_2; eassumption.
Qed.

Lemma in_joint_values (img : list (list (list fval))) (i j c : nat) fr jt v :
  img !! i = Some fr -> fr !! j = Some jt -> jt !! c = Some v ->
  In v (joint_values img j c).
Proof.
  intros Hi Hj Hc. unfold joint_values. apply in_map_iff. exists fr. split.
  - rewrite Hj. simpl. now rewrite Hc.
  - apply list_elem_of_In. eapply list_elem_of_lookup_2; eassumption.
Qed.

Lemma in_scale_slice level (img : list (list (list fval))) (i j c : nat) fr jt v :
  img !! i = Some fr -> fr !! j = Some jt -> jt !! c = Some v ->
  In v (scale_slice level img j c).
Proof.
  intros. unfold scale_slice. destruct (String.eqb level "channel").
  - eapply in_channel_values; eassumption.
  - eapply in_joint_values; eassumption.
Qed.

(** What the layer computes at one entry. *)
Lemma TranslationScaleInvariant_entry (level : string) (dtype : DType)
    (batch : Tensor4 fval) (e i j c : nat) img fr jt v :
  dim3 batch = 3%nat ->
  level = "channel" \/ level = "joint" ->
  data batch !! e = Some img -> img !! i = Some fr ->
  fr !! j = Some jt -> jt !! c = Some v ->
  exists out,
    TranslationScaleInvariant level dtype batch = Ok out /\
    dim0 out = dim0 batch /\ dim1 out = dim1 batch /\
    dim2 out = dim2 batch /\ dim3 out = 3%nat /\
    entry out e i j c
    = Some (min_max_scale dtype v (reduce_min (scale_slice level img j c))
                                  (reduce_max (scale_slice level img j c))).
Proof.
  intros Hd Hl He Hi Hj Hc. unfold TranslationScaleInvariant.
  destruct Hl as [-> | ->]; simpl;
    unfold channel_level_translation_scale_invariant,
           joint_level_translation_scale_invariant, unstack3;
    rewrite Hd; simpl; eexists; (split; [reflexivity|]);
    repeat (split; [reflexivity|]);
    unfold entry; simpl.
  - rewrite lookup_map, He; simpl. rewrite lookup_map, Hi; simpl.
    rewrite lookup_map, Hj; simpl. rewrite list_lookup_imap, Hc. reflexivity.
  - rewrite lookup_map, He; simpl. rewrite lookup_map, Hi; simpl.
    rewrite list_lookup_imap, Hj; simpl. rewrite list_lookup_imap, Hc. reflexivity.
Qed.

(** The rescaled entry when the entries that share its minimum and
    maximum are numbers between [lo] and [hi], both among them, and the
    range fits the format. *)
Lemma min_max_scale_slice (dtype : DType) (S : list fval) (x lo hi : Q) :
  In (Fin x) S -> In (Fin lo) S -> In (Fin hi) S ->
  (forall u, In u S -> exists q, u = Fin q /\ lo <= q /\ q <= hi) ->
  hi - lo <= dtype_max dtype ->
  (lo == hi -> min_max_scale dtype (Fin x) (reduce_min S) (reduce_max S) = Fin 0) /\
  (~ lo == hi ->
   exists q, min_max_scale dtype (Fin x) (reduce_min S) (reduce_max S) = Fin q /\
             0 <= q /\ q <= 1 /\ q == (x - lo) / (hi - lo)).
Proof.
  intros Hx Hlo Hhi Hall Hfit.
  destruct (reduce_min_max_spec S (Fin x) Hx)
    as [(Hn & _) | (_ & Hmin & Hmax & Hbounds)].
  { destruct (Hall NaN Hn) as (q & Hq & _). discriminate. }
  destruct (Hall _ Hmin) as (a & Ea & Ha1 & Ha2).
  destruct (Hall _ Hmax) as (b & Eb & Hb1 & Hb2).
  destruct (Hall _ Hx) as (x' & Ex & Hx1 & Hx2). injection Ex as <-.
  pose proof (proj1 (Hbounds _ Hlo)) as Hle1.
  pose proof (proj2 (Hbounds _ Hhi)) as Hle2.
  pose proof (Hbounds _ Hx) as [Hle3 Hle4].
  rewrite Ea, Eb in *. cbn [fle] in Hle1, Hle2, Hle3, Hle4.
  assert (Eqa : a == lo) by lra. assert (Eqb : b == hi) by lra.
  destruct (min_max_scale_finite dtype x a b Hle3 Hle4 ltac:(lra)) as [Hdeg Hnon].
  split.
  - intros Heq. apply Hdeg. lra.
  - intros Hne. destruct Hnon as (q & Hq & H0 & H1 & Hval); [lra|].
    exists q. split; [exact Hq|]. split; [exact H0|]. split; [exact H1|].
    rewrite Hval, Eqa, Eqb. reflexivity.
Qed.




End LayersFacts.

(** ** Group keys *)

Module KeysFacts.

Lemma in_insert_key (k x : Z) (l : list Z) :
  In x (insert_key k l) <-> x = k \/ In x l.
Proof.
  induction l as [|y t IH]; simpl.
  - intuition.
  - destruct (Z.ltb_spec k y); simpl; [intuition|].
    destruct (Z.eqb_spec k y); simpl; [subst; intuition|].
    rewrite IH. intuition.
Qed.

Lemma in_sorted_keys (x : Z) (l : list Z) : In x (sorted_keys l) <-> In x l.
Proof.
  induction l as [|y t IH]; simpl; [reflexivity|].
  rewrite in_insert_key, IH. intuition.
Qed.

Lemma insert_key_sorted (k : Z) (l : list Z) :
  StronglySorted Z.lt l -> StronglySorted Z.lt (insert_key k l).
Proof.
  induction 1 as [|y t Hs IH Hall]; simpl.
  - repeat constructor.
  - destruct (Z.ltb_spec k y).
    + constructor; [now constructor|].
      constructor; [assumption|].
      eapply Forall_impl; [exact Hall|]. intros; simpl in *; lia.
    + destruct (Z.eqb_spec k y); [now constructor|].
      constructor; [exact IH|].
      apply Forall_forall. intros x Hx.
      apply list_elem_of_In, in_insert_key in Hx. destruct Hx as [-> | Hx]; [lia|].
      rewrite Forall_forall in Hall. apply Hall, list_elem_of_In, Hx.
Qed.

Lemma sorted_keys_sorted (l : list Z) : StronglySorted Z.lt (sorted_keys l).
Proof.
  induction l; simpl; [constructor | now apply insert_key_sorted].
Qed.

(** Strictly increasing lists with the same elements are equal. *)
Lemma strictly_sorted_ext (l1 l2 : list Z) :
  StronglySorted Z.lt l1 -> StronglySorted Z.lt l2 ->
  (forall x, In x l1 <-> In x l2) -> l1 = l2.
Proof.
  intros H1. revert l2. induction H1 as [|a t1 Hs1 IH Hall1]; intros l2 H2 Hext.
  - destruct l2 as [|b t2]; [reflexivity|].
    exfalso. apply (Hext b). now left.
  - destruct H2 as [|b t2 Hs2 Hall2].
    + exfalso. apply (Hext a). now left.
    + rewrite Forall_forall in Hall1, Hall2.
      assert (Hab : a = b).
      { destruct (proj1 (Hext a) (or_introl eq_refl)) as [Hb | Ha]; [now symmetry|].
        destruct (proj2 (Hext b) (or_introl eq_refl)) as [Ha' | Hb]; [assumption|].
        apply list_elem_of_In, Hall2 in Ha. apply list_elem_of_In, Hall1 in Hb. lia. }
      subst b. f_equal. apply IH; [assumption|].
      intros x. split; intros Hx.
      * destruct (proj1 (Hext x) (or_intror Hx)) as [<- | Hx']; [|assumption].
        apply list_elem_of_In, Hall1 in Hx. lia.
      * destruct (proj2 (Hext x) (or_intror Hx)) as [<- | Hx']; [|assumption].
        apply list_elem_of_In, Hall2 in Hx. lia.
Qed.

Lemma sorted_keys_ext (l1 l2 : list Z) :
  (forall x, In x l1 <-> In x l2) -> sorted_keys l1 = sorted_keys l2.
Proof.
  intros Hext. apply strictly_sorted_ext; try apply sorted_keys_sorted.
  intros x. now rewrite !in_sorted_keys.
Qed.

End KeysFacts.

(** ** The dataset builder *)

Module DatasetBuilderFacts.

Import KeysFacts.

Lemma unique_in_order_seen (seen l : list Z) :
  (forall y, In y l -> existsb (Z.eqb y) seen = true) ->
  unique_in_order seen l = [].
Proof.
  induction l as [|x t IH]; intros H; simpl; [reflexivity|].
  rewrite (H x (or_introl eq_refl)). apply IH. intros y Hy. apply H. now right.
Qed.

Lemma unique_in_order_const (x : Z) (l : list Z) :
  l <> [] -> (forall y, In y l -> y = x) -> unique_in_order [] l = [x].
Proof.
  destruct l as [|a t]; [easy|]. intros _ H. simpl.
  rewrite (H a (or_introl eq_refl)). f_equal.
  apply unique_in_order_seen. intros y Hy.
  rewrite (H y (or_intror Hy)). simpl. now rewrite Z.eqb_refl.
Qed.

Lemma length_one_hot (width pos : nat) : length (one_hot width pos) = width.
Proof. unfold one_hot. now rewrite length_map, length_seq. Qed.

Section SingleLabel.

Variable rs : list Row.
Hypothesis single_label :
  forall r1 r2, In r1 rs -> In r2 rs -> video r1 = video r2 -> label r1 = label r2.

Lemma in_video_rows (r : Row) (k : Z) :
  In r (video_rows rs k) <-> In r rs /\ video r = k.
Proof.
  unfold video_rows. rewrite filter_In. now rewrite Z.eqb_eq.
Qed.

Lemma first_label_of (r : Row) : In r rs -> first_label rs (video r) = label r.
Proof.
  intros Hr. unfold first_label.
  destruct (video_rows rs (video r)) as [|r0 t] eqn:E.
  - exfalso. assert (H : In r (video_rows rs (video r))) by now apply in_video_rows.
    now rewrite E in H.
  - simpl. assert (H0 : In r0 (video_rows rs (video r))) by (rewrite E; now left).
    apply in_video_rows in H0 as [H0 Hv]. now apply single_label.
Qed.

Lemma group_labels (k : Z) :
  In k (map video rs) ->
  unique_in_order [] (map label (video_rows rs k)) = [first_label rs k].
Proof.
  intros Hk. apply in_map_iff in Hk as (r & <- & Hr).
  apply unique_in_order_const.
  - intros E. apply map_eq_nil in E.
    assert (H : In r (video_rows rs (video r))) by now apply in_video_rows.
    now rewrite E in H.
  - intros y Hy. apply in_map_iff in Hy as (r' & <- & Hr').
    apply in_video_rows in Hr' as [Hr' Hv].
    rewrite <- Hv. symmetry. now apply first_label_of.
Qed.

Lemma video_labels_eq :
  map (fun g : Z * list Row => unique_in_order [] (map label (snd g)))
      (groupby_video rs)
  = map (fun k => [first_label rs k]) (sorted_keys (map video rs)).
Proof.
  unfold groupby_video. rewrite map_map. apply map_ext_in.
  intros k Hk. simpl. apply group_labels. now apply in_sorted_keys.
Qed.

Lemma categories_eq :
  sorted_keys (map (first_label rs) (sorted_keys (map video rs)))
  = distinct_labels rs.
Proof.
  apply sorted_keys_ext. intros x. rewrite !in_map_iff. split.
  - intros (k & <- & Hk). apply in_sorted_keys, in_map_iff in Hk as (r & <- & Hr).
    exists r. split; [symmetry; now apply first_label_of | assumption].
  - intros (r & <- & Hr). exists (video r). split; [now apply first_label_of|].
    apply in_sorted_keys, in_map. exact Hr.
Qed.

End SingleLabel.

Lemma fit_transform_ok (X : list (list Z)) (n : nat) :
  X <> [] -> (forall line, In line X -> length line = n) ->
  fit_transform X
  = Ok (map (fun line =>
               mjoin (imap (fun j v =>
                        one_hot (length (categories_of X j))
                                (position v (categories_of X j))) line)) X).
Proof.
  intros Hne Hlen. unfold fit_transform.
  destruct X as [|first rest] eqn:E; [easy|]. rewrite <- E in *.
  assert (Hall : forallb (fun line : list Z => Nat.eqb (length line) (length first)) X
                 = true).
  { apply forallb_forall. intros line Hl. apply Nat.eqb_eq.
    rewrite (Hlen line Hl). symmetry. apply Hlen. rewrite E. now left. }
  now rewrite Hall.
Qed.

Lemma fit_transform_single (f : Z -> Z) (keys : list Z) :
  keys <> [] ->
  fit_transform (map (fun k => [f k]) keys)
  = Ok (map (fun k =>
              one_hot (length (sorted_keys (map f keys)))
                      (position (f k) (sorted_keys (map f keys)))) keys).
Proof.
  intros Hne.
  rewrite (fit_transform_ok _ 1).
  - f_equal. rewrite map_map. apply map_ext. intros k. simpl.
    unfold categories_of. rewrite map_map. simpl. apply app_nil_r.
  - intros E. apply map_eq_nil in E. contradiction.
  - intros line Hl. apply in_map_iff in Hl as (k & <- & _). reflexivity.
Qed.

Lemma length_from_row_lengths {A} (values : list A) (row_lengths : list nat) :
  length (from_row_lengths values row_lengths) = length row_lengths.
Proof.
  revert values. induction row_lengths as [|n ns IH]; intros values; simpl;
    [reflexivity | now rewrite IH].
Qed.

(** C3 (as the code has it). The encoder is created and fit inside every
    call of [dataframe_to_dataset], on the labels of the videos of the
    table of that call (after the filter on video ids).  When every video
    has one label, the dataset has one example per video, and the label
    vector of a video is the one-hot vector of the rank of its label among
    the distinct labels of that table; its width is their number. *)
Theorem one_hot_fit_per_table (d : DataFrame) (cols : list string) (ids : list Z) :
  let t := filtered_table d ids in
  rows t <> [] ->
  missing_column t (map (fun col : string => (col ++ "_x")%string) cols) = None ->
  missing_column t (map (fun col : string => (col ++ "_y")%string) cols) = None ->
  (forall r1 r2, In r1 (rows t) -> In r2 (rows t) ->
                 video r1 = video r2 -> label r1 = label r2) ->
  exists ds,
    dataframe_to_dataset d cols ids = Ok ds /\
    length ds = length (sorted_keys (map video (rows t))) /\
    forall k e vid,
      ds !! k = Some e ->
      sorted_keys (map video (rows t)) !! k = Some vid ->
      ex_y e = one_hot (length (distinct_labels (rows t)))
                 (position (first_label (rows t) vid) (distinct_labels (rows t))) /\
      length (ex_y e) = length (distinct_labels (rows t)).
Proof.
  intros t Hne Hx Hy Hsingle.
  unfold dataframe_to_dataset. fold t. unfold getitems. rewrite Hx, Hy.
  cbv [mbind result_bind rbind mret result_ret].
  rewrite (video_labels_eq (rows t) Hsingle).
  assert (Hkeys : sorted_keys (map video (rows t)) <> []).
  { destruct (rows t) as [|r rest]; [easy|]. intros E.
    assert (H : In (video r) (sorted_keys (map video (r :: rest))))
      by (apply in_sorted_keys; now left).
    now rewrite E in H. }
  rewrite (fit_transform_single _ _ Hkeys), (categories_eq (rows t) Hsingle).
  eexists. split; [reflexivity|]. split.
  - rewrite length_zip_with, length_from_row_lengths, !length_map.
    unfold groupby_video. rewrite length_map. lia.
  - intros k e vid He Hvid. rewrite lookup_zip_with in He.
    destruct (from_row_lengths _ _ !! k) as [x|]; [|discriminate]. simpl in He.
    rewrite lookup_map, Hvid in He. simpl in He.
    injection He as <-. simpl. split; [reflexivity | apply length_one_hot].
Qed.

Lemma one_hot_fit_per_table_witness :
  exists ds,
    dataframe_to_dataset two_videos ["pose_0"] [] = Ok ds /\
    length ds = length (sorted_keys (map video (rows two_videos))) /\
    forall k e vid,
      ds !! k = Some e ->
      sorted_keys (map video (rows two_videos)) !! k = Some vid ->
      ex_y e = one_hot (length (distinct_labels (rows two_videos)))
                 (position (first_label (rows two_videos) vid)
                    (distinct_labels (rows two_videos))) /\
      length (ex_y e) = length (distinct_labels (rows two_videos)).
Proof.
  apply (one_hot_fit_per_table two_videos ["pose_0"] []).
  - discriminate.
  - reflexivity.
  - reflexivity.
  - intros r1 r2 H1 H2. simpl in H1, H2.
    destruct H1 as [<- | [<- | [<- | []]]], H2 as [<- | [<- | [<- | []]]];
      simpl; intros; (reflexivity || discriminate).
Defined.

(** C3 (counterexample). With a training table holding the labels 5 and 7
    and a validation table holding only the label 7, the label vectors of
    the validation dataset have width 1 while two distinct labels exist in
    the two tables together; label 7 is at position 1 in the training
    dataset and at position 0 in the validation dataset. *)
Lemma one_hot_width_not_combined :
  ~ width_is_combined two_videos one_video ["pose_0"] /\
  map ex_y <$> dataframe_to_dataset two_videos ["pose_0"] [] = Ok [[1; 0]; [0; 1]] /\
  map ex_y <$> dataframe_to_dataset one_video ["pose_0"] [] = Ok [[1]].
Proof.
  split; [|split; reflexivity].
  intros H.
  specialize (H [mkExample [[[Fin 1; Fin 2; Fin 0]]] [1]]
                (mkExample [[[Fin 1; Fin 2; Fin 0]]] [1]) eq_refl (or_introl eq_refl)).
  vm_compute in H. discriminate.
Qed.

(** C4 (the code at the failing input). With one video of one frame and
    one of two frames the boundaries are [[1]]: lengths 1 and 2 fall in the
    same bucket, and the evaluation pipeline yields a single batch holding
    both videos. *)
Theorem eval_batches_mix_lengths :
  exists b,
    eval_batches two_videos ["pose_0"] [] 32 = Ok [b] /\
    map (fun e => length (ex_x e)) b = [1%nat; 2%nat].
Proof. eexists. split; vm_compute; reflexivity. Qed.

End DatasetBuilderFacts.

(** ** Floating-point cells *)

Module FloatFacts.

Import LayersFacts.

Lemma fle_refl (a : fval) : a <> NaN -> fle a a.
Proof. destruct a; simpl; try easy. intros _. apply Qle_refl. Qed.

Lemma fle_trans (a b c : fval) : fle a b -> fle b c -> fle a c.
Proof.
  destruct a, b, c; simpl; try easy. apply Qle_trans.
Qed.

Lemma fle_not_nan_l (a b : fval) : fle a b -> a <> NaN.
Proof. destruct a; simpl; easy. Qed.

Lemma fle_not_nan_r (a b : fval) : fle a b -> b <> NaN.
Proof. destruct a, b; simpl; easy. Qed.

Lemma fltb_true_fle (a b : fval) : fltb a b = true -> fle a b.
Proof.
  destruct a, b; simpl; try easy.
  intros H. apply Qlt_bool_true in H. now apply Qlt_le_weak.
Qed.

Lemma fltb_false_fle (a b : fval) :
  a <> NaN -> b <> NaN -> fltb a b = false -> fle b a.
Proof.
  destruct a, b; simpl; try easy.
  intros _ _ H. now apply Qlt_bool_false in H.
Qed.

Lemma isnan_false (a : fval) : isnan a = false <-> a <> NaN.
Proof. destruct a; simpl; split; easy. Qed.

(** [nanmax] of a list without numbers is NaN; otherwise it is a number
    of the list, and no number of the list exceeds it. *)
Lemma nanmax_cases (l : list fval) :
  (nanmax l = NaN /\ forall x, In x l -> x = NaN) \/
  (nanmax l <> NaN /\ In (nanmax l) l /\
   forall x, In x l -> x <> NaN -> fle x (nanmax l)).
Proof.
  induction l as [|x t IH]; simpl.
  - left. split; [reflexivity | intros x []].
  - destruct (isnan x) eqn:Ex.
    + apply FrameFacts.isnan_true in Ex. subst x.
      destruct IH as [[Hm Hall] | (Hm & Hin & Hub)].
      * left. split; [exact Hm|]. intros y [<- | Hy]; [reflexivity | auto].
      * right. split; [exact Hm|]. split; [now right|].
        intros y [<- | Hy] Hne; [contradiction | auto].
    + apply isnan_false in Ex. right.
      destruct IH as [[Hm Hall] | (Hm & Hin & Hub)].
      * rewrite Hm. simpl. split; [exact Ex|]. split; [now left|].
        intros y [<- | Hy] Hne; [now apply fle_refl|].
        now rewrite (Hall y Hy) in Hne.
      * destruct (isnan (nanmax t)) eqn:Em;
          [apply FrameFacts.isnan_true in Em; contradiction|].
        destruct (fltb x (nanmax t)) eqn:El.
        -- split; [exact Hm|]. split; [now right|].
           intros y [<- | Hy] Hne; [now apply fltb_true_fle | auto].
        -- split; [exact Ex|]. split; [now left|].
           intros y [<- | Hy] Hne; [now apply fle_refl|].
           eapply fle_trans; [apply Hub; assumption|].
           now apply fltb_false_fle.
Qed.

Lemma Qabs_div_le (x q : Q) : 0 < q -> Qabs x <= q -> Qabs (x / q) <= 1.
Proof.
  intros Hq Hx. unfold Qdiv. rewrite Qabs_Qmult, Qabs_Qinv.
  rewrite (Qabs_pos q) by lra.
  apply Qle_shift_div_r; lra.
Qed.

Lemma Qabs_div_eq (x q : Q) : 0 < q -> Qabs x == q -> Qabs (x / q) == 1.
Proof.
  intros Hq Hx. unfold Qdiv. rewrite Qabs_Qmult, Qabs_Qinv.
  rewrite (Qabs_pos q) by lra. rewrite Hx. field. lra.
Qed.

(** Float64 operations whose exact result fits the format. *)
Lemma fsub_Fin (x y : Q) :
  Qabs (x + - y) <= float64_max -> fsub (Fin x) (Fin y) = Fin (x + - y).
Proof.
  intros H. unfold fsub, fsub_in. cbn [fneg fadd_in]. apply overflow_in_range.
  now apply Qabs_Qle_condition.
Qed.

Lemma fdiv_Fin (x y : Q) :
  ~ y == 0 -> Qabs (x / y) <= float64_max -> fdiv (Fin x) (Fin y) = Fin (x / y).
Proof.
  intros Hy H. unfold fdiv. cbn [fdiv_in].
  destruct (Qeq_bool y 0) eqn:E; [apply Qeq_bool_eq in E; contradiction|].
  apply overflow_in_range. now apply Qabs_Qle_condition.
Qed.

Lemma fdiv_Fin_unit (x y : Q) :
  ~ y == 0 -> Qabs (x / y) <= 1 -> fdiv (Fin x) (Fin y) = Fin (x / y).
Proof.
  intros Hy H. apply fdiv_Fin; [exact Hy|].
  pose proof float64_max_ge_1. lra.
Qed.

End FloatFacts.

(** ** Centring and scaling on the root *)

Module NormalizationFacts.

Import FrameFacts LayersFacts FloatFacts.
Lemma centred_by_position (d : DataFrame) (r : Row) :
  wf d -> length (cells r) = length (columns d) ->
  map (centred d r) (columns d)
  = centred_cells (cell_by_name d r "root_x") (cell_by_name d r "root_y") (cells r).
Proof.
  intros Hwf Hlen. apply list_eq. intros p.
  unfold centred_cells. rewrite lookup_map, list_lookup_imap.
  destruct (columns d !! p) as [n|] eqn:En; simpl.
  - assert (Hn : In n (columns d)).
    { apply list_elem_of_In. eapply list_elem_of_lookup_2; exact En. }
    assert (Hp : index_of n (columns d) = Some p).
    { apply index_of_lookup; [now apply wf_NoDup | exact En]. }
    assert (Hc : cells r !! p = Some (cell_by_name d r n)).
    { rewrite (cell_by_name_coordinate d r n p);
        [|eapply coordinate_not_base; eauto | exact Hp].
      unfold cell. destruct (cells r !! p) as [v|] eqn:Ev; [reflexivity|].
      apply lookup_ge_None in Ev. apply lookup_lt_Some in En. lia. }
    rewrite Hc. simpl. f_equal.
    destruct (axis_columns d n (if Nat.even p then AxisX else AxisY)) as [Hx Hy].
    { now apply wf_NoDup. }
    { unfold axis_of. now rewrite Hp. }
    unfold centred, centred_x, assigned, every_row. rewrite Hx, Hy.
    now destruct (Nat.even p).
  - apply lookup_ge_None in En.
    assert (E : cells r !! p = None) by (apply lookup_ge_None; lia).
    now rewrite E.
Qed.

Lemma fabs_Fin_inv (c : fval) (q : Q) :
  fabs c = Fin q -> exists x, c = Fin x /\ q = Qabs x.
Proof. destruct c; simpl; try discriminate. intros [= <-]. eauto. Qed.

Lemma fabs_NaN_inv (c : fval) : fabs c = NaN -> c = NaN.
Proof. now destruct c. Qed.

Lemma Qeq_bool_false (x y : Q) : ~ x == y -> Qeq_bool x y = false.
Proof.
  intros H. destruct (Qeq_bool x y) eqn:E; [|reflexivity].
  apply Qeq_bool_eq in E. contradiction.
Qed.

Lemma Qeq_bool_true (x y : Q) : x == y -> Qeq_bool x y = true.
Proof. apply Qeq_eq_bool. Qed.

(** A value over the largest absolute value of its row is missing or lies
    between -1 and 1. *)
Lemma scaled_range (cc : list fval) (c : fval) :
  In c cc ->
  fdiv c (max_abs cc) = NaN \/
  exists y, fdiv c (max_abs cc) = Fin y /\ Qabs y <= 1.
Proof.
  intros Hc. unfold max_abs.
  destruct (nanmax_cases (map fabs cc)) as [[Hm Hall] | (Hm & Hin & Hub)].
  - left. rewrite Hm. now destruct c.
  - assert (Hle : c <> NaN -> fle (fabs c) (nanmax (map fabs cc))).
    { intros Hne. apply Hub; [now apply in_map|]. now destruct c. }
    apply in_map_iff in Hin as (x0 & Hx0 & _).
    destruct c as [x| | |]; [| | |now left].
    + specialize (Hle ltac:(discriminate)).
      destruct x0 as [q0| | |]; cbn [fabs] in Hx0; rewrite <- Hx0 in *;
        cbn [fabs fle] in Hle.
      * destruct (Qeq_bool (Qabs q0) 0) eqn:E0.
        -- pose proof E0 as E0'. apply Qeq_bool_eq in E0'. rewrite E0' in Hle.
           assert (Hx : x == 0).
           { apply Qabs_Qle_condition in Hle. lra. }
           left. unfold fdiv. cbn [fdiv_in]. rewrite E0.
           now rewrite (Qeq_bool_true _ _ Hx).
        -- apply Qeq_bool_neq in E0.
           assert (Hd : Qabs (x / Qabs q0) <= 1).
           { apply Qabs_div_le; [|exact Hle]. pose proof (Qabs_nonneg q0). lra. }
           right. exists (x / Qabs q0). split; [|exact Hd].
           now apply fdiv_Fin_unit.
      * right. exists 0. split; [reflexivity|]. now rewrite Qabs_pos.
      * right. exists 0. split; [reflexivity|]. now rewrite Qabs_pos.
      * contradiction.
    + specialize (Hle ltac:(discriminate)).
      destruct (nanmax (map fabs cc)); simpl in Hle; try contradiction. now left.
    + specialize (Hle ltac:(discriminate)).
      destruct (nanmax (map fabs cc)); simpl in Hle; try contradiction. now left.
Qed.

(** When the largest absolute value of a row is a non-zero number, the
    cell that holds it becomes 1 or -1. *)
Lemma scaled_attains (cc : list fval) (q : Q) :
  max_abs cc = Fin q -> ~ q == 0 ->
  exists c y, In c cc /\ fdiv c (max_abs cc) = Fin y /\ Qabs y == 1.
Proof.
  intros Hq Hne.
  destruct (nanmax_cases (map fabs cc)) as [[Hm _] | (_ & Hin & _)].
  - unfold max_abs in Hq. congruence.
  - fold (max_abs cc) in Hin. rewrite Hq in *.
    apply in_map_iff in Hin as (c & Hc & Hin).
    apply fabs_Fin_inv in Hc as (x & -> & ->).
    assert (Hd : Qabs (x / Qabs x) == 1).
    { apply Qabs_div_eq; [|reflexivity]. pose proof (Qabs_nonneg x). lra. }
    exists (Fin x), (x / Qabs x). split; [exact Hin|]. split; [|exact Hd].
    apply fdiv_Fin_unit; [exact Hne | rewrite Hd; apply Qle_refl].
Qed.

Lemma scaled_on_columns (d : DataFrame) (r : Row) (n : string) :
  In n (columns d) ->
  scaled d r n = fdiv (centred d r n) (row_scale d r).
Proof.
  intros Hn. unfold scaled, assigned, every_row, xy_columns_of.
  apply existsb_eqb_In in Hn. now rewrite Hn.
Qed.

Lemma neg1_to_1_rows (h : heap) (l : loc) (d : DataFrame) :
  h !! l = Some d -> wf d ->
  In "root_x" (columns d) -> In "root_y" (columns d) ->
  exists l' h' d',
    normalize_dataframe_from_neg1_to_1 l h = (Ok l', h') /\
    h' !! l' = Some d' /\
    columns d' = columns d /\
    Forall2 (fun r r' =>
      same_metadata r r' /\
      let cc := centred_cells (cell_by_name d r "root_x")
                  (cell_by_name d r "root_y") (cells r) in
      cells r' = map (fun c => fdiv c (max_abs cc)) cc) (rows d) (rows d').
Proof.
  intros Hl Hwf Hrx Hry.
  destruct (neg1_to_1_run h l d Hl Hwf Hrx Hry)
    as (l' & h' & d' & Hrun & Hl' & Hcols & Hwf' & _ & G & Hrows & HG).
  exists l', h', d'. split; [exact Hrun|]. split; [exact Hl'|].
  split; [exact Hcols|].
  rewrite Hrows. apply Forall2_map_diag. intros r Hr.
  destruct (HG r Hr) as [Hmeta Hcell]. split; [exact Hmeta|]. cbv zeta.
  rewrite <- (centred_by_position d r Hwf (wf_rows d r Hwf Hr)).
  rewrite (cells_by_name d' (G r) Hwf').
  2:{ apply wf_rows; [exact Hwf'|]. rewrite Hrows. now apply in_map. }
  rewrite Hcols, map_map. apply map_ext_in. intros n Hn.
  rewrite (Hcell n Hn) by (intros []).
  now apply scaled_on_columns.
Qed.

Lemma Forall2_In_r {A B} (P : A -> B -> Prop) (l : list A) (k : list B) (y : B) :
  Forall2 P l k -> In y k -> exists x, In x l /\ P x y.
Proof.
  induction 1 as [|a b l k Hab _ IH]; intros Hy; [destruct Hy|].
  destruct Hy as [<- | Hy].
  - exists a. split; [now left | exact Hab].
  - destruct (IH Hy) as (x & Hx & HP). exists x. split; [now right | exact HP].
Qed.

Lemma wf_rooted_table : wf rooted_table.
Proof.
  split.
  - refine (bool_decide_unpack _ _). vm_compute. reflexivity.
  - repeat constructor.
Defined.

(** X1. [normalize_dataframe_from_neg1_to_1] on a well-formed table with
    the columns [root_x] and [root_y] returns a table with the same columns
    and the same rows in the same order, in which the coordinates of a row
    are those of the argument minus the root of the row ([root_x] at the
    even positions, [root_y] at the odd ones), each divided by the largest
    absolute value among these differences. *)
Theorem neg1_to_1_centres_and_scales (h : heap) (l : loc) (d : DataFrame) :
  h !! l = Some d -> wf d ->
  In "root_x" (columns d) -> In "root_y" (columns d) ->
  exists l' h' d',
    normalize_dataframe_from_neg1_to_1 l h = (Ok l', h') /\
    h' !! l' = Some d' /\
    columns d' = columns d /\
    Forall2 (fun r r' =>
      same_metadata r r' /\
      let cc := centred_cells (cell_by_name d r "root_x")
                  (cell_by_name d r "root_y") (cells r) in
      cells r' = map (fun c => fdiv c (max_abs cc)) cc) (rows d) (rows d').
Proof. exact (neg1_to_1_rows h l d). Qed.

Lemma neg1_to_1_centres_and_scales_witness :
  exists l' h' d',
    normalize_dataframe_from_neg1_to_1 0 rooted_heap = (Ok l', h') /\
    h' !! l' = Some d' /\
    columns d' = columns rooted_table /\
    Forall2 (fun r r' =>
      same_metadata r r' /\
      let cc := centred_cells (cell_by_name rooted_table r "root_x")
                  (cell_by_name rooted_table r "root_y") (cells r) in
      cells r' = map (fun c => fdiv c (max_abs cc)) cc)
      (rows rooted_table) (rows d').
Proof.
  apply (neg1_to_1_centres_and_scales rooted_heap 0 rooted_table).
  - reflexivity.
  - exact wf_rooted_table.
  - simpl. tauto.
  - simpl. tauto.
Defined.

(** X2. With its default mode, [normalize_dataframe] returns a table in
    which every coordinate is missing or lies between -1 and 1. *)
Theorem normalize_default_range (h : heap) (l : loc) (d : DataFrame) :
  h !! l = Some d -> wf d ->
  In "root_x" (columns d) -> In "root_y" (columns d) ->
  exists l' h' d',
    normalize_dataframe l Neg1To1 h = (Ok l', h') /\
    h' !! l' = Some d' /\
    forall r' c, In r' (rows d') -> In c (cells r') ->
      c = NaN \/ exists y, c = Fin y /\ - (1) <= y <= 1.
Proof.
  intros Hl Hwf Hrx Hry.
  destruct (neg1_to_1_rows h l d Hl Hwf Hrx Hry)
    as (l' & h' & d' & Hrun & Hl' & _ & Hrows).
  exists l', h', d'. split; [exact Hrun|]. split; [exact Hl'|].
  intros r' c Hr' Hc.
  destruct (Forall2_In_r _ _ _ _ Hrows Hr') as (r & _ & _ & Hcells).
  cbv zeta in Hcells. rewrite Hcells in Hc.
  apply in_map_iff in Hc as (c0 & <- & Hc0).
  destruct (scaled_range _ c0 Hc0) as [-> | (y & -> & Hy)]; [now left|].
  right. exists y. split; [reflexivity|]. now apply Qabs_Qle_condition.
Qed.

Lemma normalize_default_range_witness :
  exists l' h' d',
    normalize_dataframe 0 Neg1To1 rooted_heap = (Ok l', h') /\
    h' !! l' = Some d' /\
    forall r' c, In r' (rows d') -> In c (cells r') ->
      c = NaN \/ exists y, c = Fin y /\ - (1) <= y <= 1.
Proof.
  apply (normalize_default_range rooted_heap 0 rooted_table).
  - reflexivity.
  - exact wf_rooted_table.
  - simpl. tauto.
  - simpl. tauto.
Defined.

Lemma in_centred_cells (rx ry : fval) (cs : list fval) (x : fval) :
  In x (centred_cells rx ry cs) <->
  exists p c, cs !! p = Some c /\ x = fsub c (if Nat.even p then rx else ry).
Proof.
  unfold centred_cells. rewrite <- list_elem_of_In, elem_of_lookup_imap.
  split; intros (p & c & H1 & H2); exists p, c; tauto.
Qed.

Lemma max_abs_finite (rx ry : Q) (cs : list fval) :
  (forall p c, cs !! p = Some c ->
     c = NaN \/
     exists v, c = Fin v /\
               Qabs (v - (if Nat.even p then rx else ry)) <= float64_max) ->
  (exists p v, cs !! p = Some (Fin v) /\ ~ v == (if Nat.even p then rx else ry)) ->
  exists q, max_abs (centred_cells (Fin rx) (Fin ry) cs) = Fin q /\ ~ q == 0.
Proof.
  intros Hfit (p & v & Hp & Hv). unfold max_abs.
  set (cc := centred_cells (Fin rx) (Fin ry) cs).
  assert (Hcc : forall x, In x cc ->
            x = NaN \/
            exists p' w, cs !! p' = Some (Fin w) /\
              x = Fin (w + - (if Nat.even p' then rx else ry))).
  { intros x Hx. apply in_centred_cells in Hx as (p' & c & Hc & ->).
    destruct (Hfit p' c Hc) as [-> | (w & -> & Hw)].
    - left. now destruct (Nat.even p').
    - right. exists p', w. split; [exact Hc|].
      destruct (Nat.even p'); now apply fsub_Fin. }
  assert (Hin : In (Fin (v + - (if Nat.even p then rx else ry))) cc).
  { apply in_centred_cells. exists p, (Fin v). split; [exact Hp|].
    destruct (Hfit p _ Hp) as [E | (w & [= <-] & Hw)]; [discriminate|].
    symmetry. destruct (Nat.even p); now apply fsub_Fin. }
  destruct (nanmax_cases (map fabs cc)) as [[_ Hall] | (Hm & Hmax & Hub)].
  - specialize (Hall _ (in_map fabs _ _ Hin)). discriminate.
  - specialize (Hub _ (in_map fabs _ _ Hin) ltac:(discriminate)).
    apply in_map_iff in Hmax as (x & Hx & Hxin).
    destruct (Hcc x Hxin) as [-> | (p' & w & _ & ->)].
    + cbn [fabs] in Hx. now rewrite <- Hx in Hm.
    + rewrite <- Hx in *. cbn [fabs fle] in Hub |- *.
      eexists. split; [reflexivity|].
      intros E0. rewrite E0 in Hub. apply Qabs_Qle_condition in Hub.
      apply Hv. lra.
Qed.

(** X3. In the table returned by [normalize_dataframe_from_neg1_to_1], a
    row whose root is a number and whose coordinates are missing or
    numbers that differ from the root by no more than the largest float64
    number, with a coordinate that differs from the root, has a coordinate
    equal to 1 or -1. *)
Theorem neg1_to_1_reaches_unit (h : heap) (l : loc) (d : DataFrame) :
  h !! l = Some d -> wf d ->
  In "root_x" (columns d) -> In "root_y" (columns d) ->
  exists l' h' d',
    normalize_dataframe_from_neg1_to_1 l h = (Ok l', h') /\
    h' !! l' = Some d' /\
    Forall2 (fun r r' =>
      forall rx ry,
        cell_by_name d r "root_x" = Fin rx ->
        cell_by_name d r "root_y" = Fin ry ->
        (forall p c, cells r !! p = Some c ->
           c = NaN \/
           exists v, c = Fin v /\
             Qabs (v - (if Nat.even p then rx else ry)) <= float64_max) ->
        (exists p v, cells r !! p = Some (Fin v) /\
                     ~ v == (if Nat.even p then rx else ry)) ->
        exists y, In (Fin y) (cells r') /\ Qabs y == 1) (rows d) (rows d').
Proof.
  intros Hl Hwf Hrx Hry.
  destruct (neg1_to_1_rows h l d Hl Hwf Hrx Hry)
    as (l' & h' & d' & Hrun & Hl' & _ & Hrows).
  exists l', h', d'. split; [exact Hrun|]. split; [exact Hl'|].
  eapply Forall2_impl; [exact Hrows|].
  intros r r' [_ Hcells] rx ry Ex Ey Hfin Hdiff. cbv zeta in Hcells.
  rewrite Ex, Ey in Hcells.
  destruct (max_abs_finite rx ry (cells r) Hfin Hdiff) as (q & Hq & Hne).
  destruct (scaled_attains _ q Hq Hne) as (c & y & Hc & Hy & Habs).
  exists y. split; [|exact Habs].
  rewrite Hcells, <- Hy. now apply (in_map (fun c => fdiv c _)).
Qed.

Lemma neg1_to_1_reaches_unit_witness :
  exists l' h' d',
    normalize_dataframe_from_neg1_to_1 0 rooted_heap = (Ok l', h') /\
    h' !! l' = Some d' /\
    Forall2 (fun r r' =>
      forall rx ry,
        cell_by_name rooted_table r "root_x" = Fin rx ->
        cell_by_name rooted_table r "root_y" = Fin ry ->
        (forall p c, cells r !! p = Some c ->
           c = NaN \/
           exists v, c = Fin v /\
             Qabs (v - (if Nat.even p then rx else ry)) <= float64_max) ->
        (exists p v, cells r !! p = Some (Fin v) /\
                     ~ v == (if Nat.even p then rx else ry)) ->
        exists y, In (Fin y) (cells r') /\ Qabs y == 1)
      (rows rooted_table) (rows d').
Proof.
  apply (neg1_to_1_reaches_unit rooted_heap 0 rooted_table).
  - reflexivity.
  - exact wf_rooted_table.
  - simpl. tauto.
  - simpl. tauto.
Defined.

Lemma scaled_coincident (rx ry : Q) (cs : list fval) (x : fval) :
  (forall p c, cs !! p = Some c ->
     c = NaN \/ exists v, c = Fin v /\ v == (if Nat.even p then rx else ry)) ->
  let cc := centred_cells (Fin rx) (Fin ry) cs in
  In x (map (fun c => fdiv c (max_abs cc)) cc) -> x = NaN.
Proof.
  intros Hcs cc Hx.
  assert (Hcc : forall c, In c cc -> c = NaN \/ exists z, c = Fin z /\ z == 0).
  { intros c Hc. apply in_centred_cells in Hc as (p & c0 & Hp & ->).
    destruct (Hcs p c0 Hp) as [-> | (v & -> & Hv)]; [left; now destruct (Nat.even p)|].
    right. exists (v + - (if Nat.even p then rx else ry)).
    assert (E : v + - (if Nat.even p then rx else ry) == 0) by lra.
    split; [|exact E].
    destruct (Nat.even p); apply fsub_Fin; rewrite E;
      pose proof float64_max_ge_1; change (Qabs 0) with 0; lra. }
  apply in_map_iff in Hx as (c & <- & Hc).
  destruct (Hcc c Hc) as [-> | (z & -> & Hz)]; [reflexivity|].
  unfold max_abs.
  destruct (nanmax_cases (map fabs cc)) as [[-> _] | (_ & Hmax & _)]; [reflexivity|].
  apply in_map_iff in Hmax as (c0 & <- & Hc0).
  destruct (Hcc c0 Hc0) as [-> | (z0 & -> & Hz0)]; [reflexivity|].
  unfold fdiv. cbn [fabs fdiv_in].
  rewrite (Qeq_bool_true (Qabs z0) 0) by (rewrite Hz0; reflexivity).
  now rewrite (Qeq_bool_true z 0 Hz).
Qed.

(** X4. In the table returned by [normalize_dataframe_from_neg1_to_1], a
    row in which every coordinate that is present equals the root of the
    row has no number left: every cell is missing (zero over zero). *)
Theorem neg1_to_1_coincident_row_is_missing (h : heap) (l : loc) (d : DataFrame) :
  h !! l = Some d -> wf d ->
  In "root_x" (columns d) -> In "root_y" (columns d) ->
  exists l' h' d',
    normalize_dataframe_from_neg1_to_1 l h = (Ok l', h') /\
    h' !! l' = Some d' /\
    Forall2 (fun r r' =>
      forall rx ry,
        cell_by_name d r "root_x" = Fin rx ->
        cell_by_name d r "root_y" = Fin ry ->
        (forall p c, cells r !! p = Some c ->
           c = NaN \/
           exists v, c = Fin v /\ v == (if Nat.even p then rx else ry)) ->
        forall c', In c' (cells r') -> c' = NaN) (rows d) (rows d').
Proof.
  intros Hl Hwf Hrx Hry.
  destruct (neg1_to_1_rows h l d Hl Hwf Hrx Hry)
    as (l' & h' & d' & Hrun & Hl' & _ & Hrows).
  exists l', h', d'. split; [exact Hrun|]. split; [exact Hl'|].
  eapply Forall2_impl; [exact Hrows|].
  intros r r' [_ Hcells] rx ry Ex Ey Hsame c' Hc'. cbv zeta in Hcells.
  rewrite Ex, Ey in Hcells. rewrite Hcells in Hc'.
  exact (scaled_coincident rx ry (cells r) c' Hsame Hc').
Qed.

Lemma neg1_to_1_coincident_row_is_missing_witness :
  exists l' h' d',
    normalize_dataframe_from_neg1_to_1 0 rooted_heap = (Ok l', h') /\
    h' !! l' = Some d' /\
    Forall2 (fun r r' =>
      forall rx ry,
        cell_by_name rooted_table r "root_x" = Fin rx ->
        cell_by_name rooted_table r "root_y" = Fin ry ->
        (forall p c, cells r !! p = Some c ->
           c = NaN \/
           exists v, c = Fin v /\ v == (if Nat.even p then rx else ry)) ->
        forall c', In c' (cells r') -> c' = NaN)
      (rows rooted_table) (rows d').
Proof.
  apply (neg1_to_1_coincident_row_is_missing rooted_heap 0 rooted_table).
  - reflexivity.
  - exact wf_rooted_table.
  - simpl. tauto.
  - simpl. tauto.
Defined.

(** X5. Without a column [root_x] or without a column [root_y],
    [normalize_dataframe] in its default mode raises [KeyError] and
    leaves its argument as it was. *)
Theorem normalize_needs_root (h : heap) (l : loc) (d : DataFrame) :
  h !! l = Some d ->
  ~ In "root_x" (columns d) \/ ~ In "root_y" (columns d) ->
  exists key h',
    normalize_dataframe l Neg1To1 h = (Raise (KeyError key), h') /\
    h' !! l = Some d.
Proof.
  intros Hl Hno.
  assert (Hg : exists key, getitems d ["root_x"; "root_y"] = Raise (KeyError key)).
  { unfold getitems, missing_column. cbn [find].
    destruct (has_column d "root_x") eqn:Hx; cbn [negb]; [|eauto].
    destruct (has_column d "root_y") eqn:Hy; cbn [negb]; [|eauto].
    exfalso. unfold has_column in Hx, Hy. cbn [is_base String.eqb Ascii.eqb
      Bool.eqb orb] in Hx, Hy.
    apply bool_decide_eq_true in Hx as [px Hpx], Hy as [py Hpy].
    apply index_of_Some in Hpx, Hpy.
    destruct Hno as [Hno | Hno]; apply Hno; apply list_elem_of_In;
      eapply list_elem_of_lookup_2; eassumption. }
  destruct Hg as (key & Hg).
  exists key, (<[fresh (dom h) := d]> h). split.
  - change (normalize_dataframe l Neg1To1) with (normalize_dataframe_from_neg1_to_1 l).
    unfold normalize_dataframe_from_neg1_to_1.
    rewrite (copy_run h l d _ Hl).
    rewrite (bind_run _ _ _ _ _ (df_read_run _ _ d (lookup_insert_eq _ _ _))).
    cbv zeta. now rewrite Hg.
  - rewrite lookup_insert_ne; [exact Hl|].
    intros <-. apply (is_fresh (dom h)). apply elem_of_dom. eauto.
Qed.

Lemma normalize_needs_root_witness :
  exists key h',
    normalize_dataframe 0 Neg1To1 sample_heap = (Raise (KeyError key), h') /\
    h' !! 0%nat = Some sample_table.
Proof.
  apply (normalize_needs_root sample_heap 0 sample_table).
  - reflexivity.
  - left. simpl. intros H. repeat (destruct H as [H | H]; [discriminate|]). exact H.
Defined.

(** X6. [preprocess_dataframe] with its defaults followed by
    [normalize_dataframe] with its default returns a table with as many
    rows as the argument, in which every coordinate is missing or lies
    between -1 and 1. *)
Theorem preprocess_then_normalize (h : heap) (l : loc) (d : DataFrame)
    (with_midhip : bool) :
  h !! l = Some d -> wf d ->
  (forall a, In a (required_columns true with_midhip) -> In a (columns d)) ->
  exists l1 h1 l2 h2 d2,
    preprocess_dataframe l [] true with_midhip h = (Ok l1, h1) /\
    normalize_dataframe l1 Neg1To1 h1 = (Ok l2, h2) /\
    h2 !! l2 = Some d2 /\
    length (rows d2) = length (rows d) /\
    forall r' c, In r' (rows d2) -> In c (cells r') ->
      c = NaN \/ exists y, c = Fin y /\ - (1) <= y <= 1.
Proof.
  intros Hl Hwf Hreq.
  destruct (preprocess_dataframe_run h l d [] true with_midhip Hl Hwf Hreq)
    as (l1 & h1 & d8 & Hrun & Hl1 & Hwf8 & Hcols & G & Hrows8 & _).
  { intros a []. }
  change (selected d8 []) with d8 in Hl1.
  destruct (neg1_to_1_rows h1 l1 d8 Hl1 Hwf8)
    as (l2 & h2 & d2 & Hrun2 & Hl2 & _ & Hrows).
  { apply Hcols. right. simpl. tauto. }
  { apply Hcols. right. simpl. tauto. }
  exists l1, h1, l2, h2, d2.
  split; [exact Hrun|]. split; [exact Hrun2|]. split; [exact Hl2|]. split.
  - apply Forall2_length in Hrows. rewrite <- Hrows, Hrows8. apply length_map.
  - intros r' c Hr' Hc.
    destruct (Forall2_In_r _ _ _ _ Hrows Hr') as (r & _ & _ & Hcells).
    cbv zeta in Hcells. rewrite Hcells in Hc.
    apply in_map_iff in Hc as (c0 & <- & Hc0).
    destruct (scaled_range _ c0 Hc0) as [-> | (y & -> & Hy)]; [now left|].
    right. exists y. split; [reflexivity|]. now apply Qabs_Qle_condition.
Qed.

Lemma preprocess_then_normalize_witness :
  exists l1 h1 l2 h2 d2,
    preprocess_dataframe 0 [] true false sample_heap = (Ok l1, h1) /\
    normalize_dataframe l1 Neg1To1 h1 = (Ok l2, h2) /\
    h2 !! l2 = Some d2 /\
    length (rows d2) = length (rows sample_table) /\
    forall r' c, In r' (rows d2) -> In c (cells r') ->
      c = NaN \/ exists y, c = Fin y /\ - (1) <= y <= 1.
Proof.
  apply (preprocess_then_normalize sample_heap 0 sample_table false).
  - reflexivity.
  - exact wf_sample_table.
  - intros a Ha. simpl in Ha.
    repeat (destruct Ha as [<- | Ha];
            [simpl; repeat (first [left; reflexivity | right])|]).
    contradiction.
Defined.

(** C6 (as the code has it). In the table returned by
    [normalize_dataframe_from_neg1_to_1], take a row whose root is a
    number and whose coordinates are missing or numbers that differ from
    the root by no more than the largest float64 number.  When a
    coordinate differs from the root, every coordinate of the row is
    missing or of absolute value at most 1, and one has absolute value
    exactly 1.  When every coordinate that is present equals the root,
    the scale is zero and every cell of the row is NaN. *)
Theorem neg1_to_1_largest_is_one (h : heap) (l : loc) (d : DataFrame) :
  h !! l = Some d -> wf d ->
  In "root_x" (columns d) -> In "root_y" (columns d) ->
  exists l' h' d',
    normalize_dataframe_from_neg1_to_1 l h = (Ok l', h') /\
    h' !! l' = Some d' /\
    Forall2 (fun r r' =>
      forall rx ry,
        cell_by_name d r "root_x" = Fin rx ->
        cell_by_name d r "root_y" = Fin ry ->
        (forall p c, cells r !! p = Some c ->
           c = NaN \/
           exists v, c = Fin v /\
             Qabs (v - (if Nat.even p then rx else ry)) <= float64_max) ->
        ((exists p v, cells r !! p = Some (Fin v) /\
                      ~ v == (if Nat.even p then rx else ry)) ->
         (forall c', In c' (cells r') ->
            c' = NaN \/ exists y, c' = Fin y /\ Qabs y <= 1) /\
         (exists y, In (Fin y) (cells r') /\ Qabs y == 1)) /\
        ((forall p v, cells r !! p = Some (Fin v) ->
                      v == (if Nat.even p then rx else ry)) ->
         forall c', In c' (cells r') -> c' = NaN)) (rows d) (rows d').
Proof.
  intros Hl Hwf Hrx Hry.
  destruct (neg1_to_1_rows h l d Hl Hwf Hrx Hry)
    as (l' & h' & d' & Hrun & Hl' & _ & Hrows).
  exists l', h', d'. split; [exact Hrun|]. split; [exact Hl'|].
  eapply Forall2_impl; [exact Hrows|].
  intros r r' [_ Hcells] rx ry Ex Ey Hfit. cbv zeta in Hcells.
  rewrite Ex, Ey in Hcells. split.
  - intros Hdiff. split.
    + intros c' Hc'. rewrite Hcells in Hc'.
      apply in_map_iff in Hc' as (c0 & <- & Hc0).
      exact (scaled_range _ c0 Hc0).
    + destruct (max_abs_finite rx ry (cells r) Hfit Hdiff) as (q & Hq & Hne).
      destruct (scaled_attains _ q Hq Hne) as (c & y & Hc & Hy & Habs).
      exists y. split; [|exact Habs].
      rewrite Hcells, <- Hy. now apply (in_map (fun c => fdiv c _)).
  - intros Hsame c' Hc'. rewrite Hcells in Hc'.
    apply (scaled_coincident rx ry (cells r) c'); [|exact Hc'].
    intros p c Hp. destruct (Hfit p c Hp) as [-> | (v & -> & _)]; [now left|].
    right. exists v. split; [reflexivity | now apply (Hsame p)].
Qed.

Lemma neg1_to_1_largest_is_one_witness :
  exists l' h' d',
    normalize_dataframe_from_neg1_to_1 0 rooted_heap = (Ok l', h') /\
    h' !! l' = Some d' /\
    Forall2 (fun r r' =>
      forall rx ry,
        cell_by_name rooted_table r "root_x" = Fin rx ->
        cell_by_name rooted_table r "root_y" = Fin ry ->
        (forall p c, cells r !! p = Some c ->
           c = NaN \/
           exists v, c = Fin v /\
             Qabs (v - (if Nat.even p then rx else ry)) <= float64_max) ->
        ((exists p v, cells r !! p = Some (Fin v) /\
                      ~ v == (if Nat.even p then rx else ry)) ->
         (forall c', In c' (cells r') ->
            c' = NaN \/ exists y, c' = Fin y /\ Qabs y <= 1) /\
         (exists y, In (Fin y) (cells r') /\ Qabs y == 1)) /\
        ((forall p v, cells r !! p = Some (Fin v) ->
                      v == (if Nat.even p then rx else ry)) ->
         forall c', In c' (cells r') -> c' = NaN))
      (rows rooted_table) (rows d').
Proof.
  apply (neg1_to_1_largest_is_one rooted_heap 0 rooted_table).
  - reflexivity.
  - exact wf_rooted_table.
  - simpl. tauto.
  - simpl. tauto.
Defined.

(** C6 (counterexample). The second row of the table holds its root
    (1, 1) in every coordinate: it is all zero after centring, and in the
    result it is NaN in every cell, not 0. *)
Lemma neg1_to_1_zero_row_is_missing :
  exists l' h' d' r1,
    normalize_dataframe_from_neg1_to_1 0 rooted_heap = (Ok l', h') /\
    h' !! l' = Some d' /\
    rows d' = [r1; mkRow 1 1 7 [NaN; NaN; NaN; NaN]] /\
    ~ zero_rows_stay_zero rooted_table d'.
Proof.
  do 4 eexists. split; [vm_compute; reflexivity|].
  split; [vm_compute; reflexivity|].
  split; [reflexivity|].
  intros H. inversion H as [|r r' rs rs' _ Hrest]; subst.
  inversion Hrest as [|r2 r2' rs2 rs2' H2 _]; subst.
  assert (Hz : feq NaN (Fin 0)).
  { apply H2; [|now left].
    intros c Hc. vm_compute in Hc.
    repeat (destruct Hc as [<- | Hc]; [reflexivity|]). destruct Hc. }
  exact Hz.
Qed.

End NormalizationFacts.

(** ** Layers: padding, centring and rescaling *)

Module TensorFacts.

Import ListFacts LayersFacts.
Lemma wf_tensor_entry {A} (t : Tensor4 A) (e i j c : nat) :
  wf_tensor t ->
  (e < dim0 t)%nat -> (i < dim1 t)%nat -> (j < dim2 t)%nat -> (c < dim3 t)%nat ->
  exists img fr jt v,
    data t !! e = Some img /\ img !! i = Some fr /\ fr !! j = Some jt /\
    jt !! c = Some v /\
    length img = dim1 t /\ length fr = dim2 t /\ length jt = dim3 t.
Proof.
  intros [Hlen Himgs] He Hi Hj Hc.
  destruct (lookup_lt_is_Some_2 (data t) e ltac:(lia)) as [img Himg].
  rewrite Forall_forall in Himgs.
  destruct (Himgs img (list_elem_of_lookup_2 _ _ _ Himg)) as [Hl1 Hfrs].
  destruct (lookup_lt_is_Some_2 img i ltac:(lia)) as [fr Hfr].
  rewrite Forall_forall in Hfrs.
  destruct (Hfrs fr (list_elem_of_lookup_2 _ _ _ Hfr)) as [Hl2 Hjts].
  destruct (lookup_lt_is_Some_2 fr j ltac:(lia)) as [jt Hjt].
  rewrite Forall_forall in Hjts.
  pose proof (Hjts jt (list_elem_of_lookup_2 _ _ _ Hjt)) as Hl3.
  destruct (lookup_lt_is_Some_2 jt c ltac:(lia)) as [v Hv].
  exists img, fr, jt, v. repeat split; assumption.
Qed.

Lemma entry_inv {A} (t : Tensor4 A) (e i j c : nat) (v : A) :
  entry t e i j c = Some v ->
  exists img fr jt,
    data t !! e = Some img /\ img !! i = Some fr /\ fr !! j = Some jt /\
    jt !! c = Some v.
Proof.
  unfold entry. intros H.
  destruct (data t !! e) as [img|] eqn:E1; [|discriminate]. simpl in H.
  destruct (img !! i) as [fr|] eqn:E2; [|discriminate]. simpl in H.
  destruct (fr !! j) as [jt|] eqn:E3; [|discriminate]. simpl in H.
  exists img, fr, jt. repeat split; assumption.
Qed.

(** X7. [PadIfLessThan] keeps every entry of the batch where it was and
    fills the frames it appends, up to the target number of frames, with
    the constant. *)
Theorem PadIfLessThan_keeps_then_fills {A} (zero : A) (frames : Z)
    (images : Tensor4 A) (e i j c : nat) :
  wf_tensor images ->
  (e < dim0 images)%nat -> (j < dim2 images)%nat -> (c < dim3 images)%nat ->
  ((i < dim1 images)%nat ->
   entry (PadIfLessThan zero frames images) e i j c = entry images e i j c) /\
  ((dim1 images <= i)%nat -> (Z.of_nat i < frames)%Z ->
   entry (PadIfLessThan zero frames images) e i j c = Some zero) /\
  ((dim1 images <= i)%nat -> (frames <= Z.of_nat i)%Z ->
   entry (PadIfLessThan zero frames images) e i j c = None).
Proof.
  intros Hwf He Hj Hc.
  pose proof Hwf as [Hlen Himgs].
  destruct (lookup_lt_is_Some_2 (data images) e ltac:(lia)) as [img Himg].
  rewrite Forall_forall in Himgs.
  destruct (Himgs img (list_elem_of_lookup_2 _ _ _ Himg)) as [Hl1 _].
  unfold entry, PadIfLessThan. cbn [data].
  rewrite lookup_map, Himg. cbn [fmap option_fmap option_map mbind option_bind].
  split; [|split].
  - intros Hi. now rewrite lookup_app_l by lia.
  - intros Hi Hlt. rewrite lookup_app_r by lia.
    rewrite lookup_replicate_2 by lia. simpl.
    rewrite lookup_replicate_2 by lia. simpl.
    now rewrite lookup_replicate_2 by lia.
  - intros Hi Hge. rewrite lookup_app_r by lia.
    match goal with
    | |- ?l !! ?k ≫= _ = None => destruct (l !! k) as [fr|] eqn:E; [|reflexivity]
    end.
    apply lookup_replicate in E. lia.
Qed.

Lemma PadIfLessThan_keeps_then_fills_witness :
  (entry (PadIfLessThan 0 4 sample_batch) 0 1 0 0 = entry sample_batch 0 1 0 0) /\
  (entry (PadIfLessThan 0 4 sample_batch) 0 3 0 0 = Some 0) /\
  (entry (PadIfLessThan 0 4 sample_batch) 0 4 0 0 = None).
Proof.
  assert (Hwf : wf_tensor sample_batch).
  { unfold wf_tensor, sample_batch; simpl. repeat constructor. }
  split; [|split].
  - apply (PadIfLessThan_keeps_then_fills 0 4 sample_batch 0 1 0 0 Hwf);
      simpl; lia.
  - apply (PadIfLessThan_keeps_then_fills 0 4 sample_batch 0 3 0 0 Hwf);
      simpl; lia.
  - apply (PadIfLessThan_keeps_then_fills 0 4 sample_batch 0 4 0 0 Hwf);
      simpl; lia.
Defined.

Lemma length_normalization_frames (T : Z) (images out : Tensor4 Q) :
  length (data images) = dim0 images ->
  length_normalization T images = Ok out ->
  Z.of_nat (dim1 out) = T.
Proof.
  intros Hlen. unfold length_normalization, ResizeIfMoreThan.
  pose proof (PadIfLessThan_dims 0%Q T images) as (P0 & P1 & P2 & P3).
  destruct (Z.of_nat (dim1 (PadIfLessThan 0%Q T images)) >? T)%Z eqn:Hgt.
  - cbn [fst snd]. intros Hr.
    apply tf_image_resize_wf in Hr; [tauto|].
    unfold PadIfLessThan. cbn [data dim0]. now rewrite length_map.
  - intros [= <-].
    destruct (Z.gtb_spec (Z.of_nat (dim1 (PadIfLessThan 0%Q T images))) T);
      [discriminate | lia].
Qed.

(** X8. The length normalization of the training pipeline,
    [PadIfLessThan] then [ResizeIfMoreThan] with the same number of
    frames, is idempotent: applied to its own output it returns that
    output. *)
Theorem length_normalization_idempotent (T : Z) (images out : Tensor4 Q) :
  length (data images) = dim0 images ->
  length_normalization T images = Ok out ->
  length_normalization T out = Ok out.
Proof.
  intros Hlen Hout.
  pose proof (length_normalization_frames T images out Hlen Hout) as HT.
  unfold length_normalization. rewrite PadIfLessThan_id by lia.
  unfold ResizeIfMoreThan.
  destruct (Z.gtb_spec (Z.of_nat (dim1 out)) T); [lia | reflexivity].
Qed.

Lemma length_normalization_idempotent_witness :
  exists out,
    length_normalization 1 sample_batch = Ok out /\
    length_normalization 1 out = Ok out.
Proof.
  eexists. split; [vm_compute; reflexivity|].
  apply (length_normalization_idempotent 1 sample_batch);
    [reflexivity | vm_compute; reflexivity].
Defined.

Lemma joint_index_in_range (index : Z) (joints : nat) :
  (- Z.of_nat joints <= index < Z.of_nat joints)%Z ->
  joint_index index joints = Ok (Z.to_nat (index mod Z.of_nat joints)).
Proof.
  intros [H0 H1]. unfold joint_index.
  destruct (Z.ltb_spec index 0).
  - replace (index mod Z.of_nat joints)%Z with (index + Z.of_nat joints)%Z.
    + destruct (Z.leb_spec 0 (index + Z.of_nat joints)); [|lia].
      destruct (Z.ltb_spec (index + Z.of_nat joints) (Z.of_nat joints));
        [reflexivity | lia].
    + apply (Z.mod_unique _ _ (-1)); lia.
  - rewrite Z.mod_small by lia.
    destruct (Z.leb_spec 0 index); [|lia].
    destruct (Z.ltb_spec index (Z.of_nat joints)); [reflexivity | lia].
Qed.

Lemma joint_index_lt (index : Z) (joints : nat) :
  (- Z.of_nat joints <= index < Z.of_nat joints)%Z ->
  (Z.to_nat (index mod Z.of_nat joints) < joints)%nat.
Proof.
  intros H. pose proof (Z.mod_pos_bound index (Z.of_nat joints) ltac:(lia)). lia.
Qed.

Lemma joint_index_out_of_range (index : Z) (joints : nat) :
  (index < - Z.of_nat joints \/ Z.of_nat joints <= index)%Z ->
  exists msg, joint_index index joints = Raise (ValueError msg).
Proof.
  intros H. unfold joint_index. eexists.
  destruct (Z.ltb_spec index 0).
  - destruct (Z.leb_spec 0 (index + Z.of_nat joints)); [lia | reflexivity].
  - destruct (Z.leb_spec 0 index); [|lia].
    destruct (Z.ltb_spec index (Z.of_nat joints)); [lia | reflexivity].
Qed.

(** What [Center] computes at one entry. *)
Lemma Center_entry (around_index : Z) (dtype : DType) (batch : Tensor4 fval)
    (e i j c : nat) img fr jt u :
  dim3 batch = 3%nat ->
  (- Z.of_nat (dim2 batch) <= around_index < Z.of_nat (dim2 batch))%Z ->
  data batch !! e = Some img -> img !! i = Some fr ->
  fr !! j = Some jt -> jt !! c = Some u ->
  let k := Z.to_nat (around_index mod Z.of_nat (dim2 batch)) in
  exists out,
    Center around_index dtype batch = Ok out /\
    dim0 out = dim0 batch /\ dim1 out = dim1 batch /\
    dim2 out = dim2 batch /\ dim3 out = 3%nat /\
    entry out e i j c
    = Some (if Nat.eqb c 0
            then fsub_in (dtype_max dtype) u
                   (default NaN (jt ← fr !! k; jt !! 0%nat))
            else if Nat.eqb c 1
            then fsub_in (dtype_max dtype) u
                   (default NaN (jt ← fr !! k; jt !! 1%nat))
            else u).
Proof.
  intros Hd Hk He Hi Hj Hc k. unfold Center, unstack3. rewrite Hd. cbn [Nat.eqb].
  cbn [mbind result_bind rbind]. rewrite (joint_index_in_range _ _ Hk).
  cbn [rbind mret result_ret]. eexists. split; [reflexivity|].
  repeat (split; [reflexivity|]).
  unfold entry. cbn [data].
  rewrite lookup_map, He; simpl. rewrite lookup_map, Hi; simpl.
  rewrite lookup_map, Hj; simpl. rewrite list_lookup_imap, Hc. reflexivity.
Qed.

Lemma wf_tensor_frame {A} (t : Tensor4 A) (e i : nat) :
  wf_tensor t -> (e < dim0 t)%nat -> (i < dim1 t)%nat ->
  exists img fr,
    data t !! e = Some img /\ img !! i = Some fr /\
    forall j c, (j < dim2 t)%nat -> (c < dim3 t)%nat ->
      exists jt v, fr !! j = Some jt /\ jt !! c = Some v.
Proof.
  intros [Hlen Himgs] He Hi.
  destruct (lookup_lt_is_Some_2 (data t) e ltac:(lia)) as [img Himg].
  rewrite Forall_forall in Himgs.
  destruct (Himgs img (list_elem_of_lookup_2 _ _ _ Himg)) as [Hl1 Hfrs].
  destruct (lookup_lt_is_Some_2 img i ltac:(lia)) as [fr Hfr].
  rewrite Forall_forall in Hfrs.
  destruct (Hfrs fr (list_elem_of_lookup_2 _ _ _ Hfr)) as [Hl2 Hjts].
  exists img, fr. split; [exact Himg|]. split; [exact Hfr|].
  intros j c Hj Hc.
  destruct (lookup_lt_is_Some_2 fr j ltac:(lia)) as [jt Hjt].
  rewrite Forall_forall in Hjts.
  pose proof (Hjts jt (list_elem_of_lookup_2 _ _ _ Hjt)) as Hl3.
  destruct (lookup_lt_is_Some_2 jt c ltac:(lia)) as [v Hv].
  eauto.
Qed.

Lemma fsub_in_self (M : Q) (u : fval) :
  0 <= M ->
  (forall x, u = Fin x -> exists z, fsub_in M u u = Fin z /\ z == 0) /\
  (isfinite u = false -> fsub_in M u u = NaN).
Proof.
  intros HM. split.
  - intros x ->. unfold fsub_in. cbn [fneg fadd_in].
    exists (x + - x). split; [|ring].
    apply overflow_in_range. assert (E : x + - x == 0) by ring. rewrite E. lra.
  - now destruct u.
Qed.

(** X9. [Center] moves every frame so that the chosen joint is at the
    origin.  For an index within the joints axis, counted from the end
    when negative, the output has the shape of the batch; in it the first
    two channels of the chosen joint are 0 where the batch holds a
    number, and NaN where it holds NaN or an infinity; the third channel
    is the input's.  An index outside the axis is rejected. *)
Theorem Center_puts_joint_at_origin (around_index : Z) (dtype : DType)
    (batch : Tensor4 fval) :
  wf_tensor batch -> dim3 batch = 3%nat ->
  ((- Z.of_nat (dim2 batch) <= around_index < Z.of_nat (dim2 batch))%Z ->
   let k := Z.to_nat (around_index mod Z.of_nat (dim2 batch)) in
   exists out,
     Center around_index dtype batch = Ok out /\
     dim0 out = dim0 batch /\ dim1 out = dim1 batch /\
     dim2 out = dim2 batch /\ dim3 out = dim3 batch /\
     forall e i, (e < dim0 batch)%nat -> (i < dim1 batch)%nat ->
       (forall c, (c < 2)%nat ->
          exists u,
            entry batch e i k c = Some u /\
            (forall x, u = Fin x ->
               exists z, entry out e i k c = Some (Fin z) /\ z == 0) /\
            (isfinite u = false -> entry out e i k c = Some NaN)) /\
       (forall j, (j < dim2 batch)%nat ->
          entry out e i j 2 = entry batch e i j 2)) /\
  ((around_index < - Z.of_nat (dim2 batch) \/
    Z.of_nat (dim2 batch) <= around_index)%Z ->
   raises (Center around_index dtype batch)).
Proof.
  intros Hwf Hd. split.
  - intros Hk k.
    assert (Hout : exists out, Center around_index dtype batch = Ok out /\
              dim0 out = dim0 batch /\ dim1 out = dim1 batch /\
              dim2 out = dim2 batch /\ dim3 out = dim3 batch).
    { unfold Center, unstack3. rewrite Hd. cbn [Nat.eqb mbind result_bind rbind].
      rewrite (joint_index_in_range _ _ Hk). eexists. split; [reflexivity|].
      cbn [dim0 dim1 dim2 dim3]. now repeat split. }
    destruct Hout as (out & Hout & D0 & D1 & D2 & D3).
    exists out. split; [exact Hout|]. repeat (split; [assumption|]).
    intros e i He Hi.
    destruct (wf_tensor_frame batch e i Hwf He Hi) as (img & fr & E1 & E2 & Hfr).
    pose proof (joint_index_lt _ _ Hk) as Hklt. fold k in Hklt.
    assert (Hentry : forall j c, (j < dim2 batch)%nat -> (c < 3)%nat ->
              exists jt u,
                fr !! j = Some jt /\ jt !! c = Some u /\
                entry batch e i j c = Some u /\
                entry out e i j c
                = Some (if Nat.eqb c 0
                        then fsub_in (dtype_max dtype) u
                               (default NaN (jt ← fr !! k; jt !! 0%nat))
                        else if Nat.eqb c 1
                        then fsub_in (dtype_max dtype) u
                               (default NaN (jt ← fr !! k; jt !! 1%nat))
                        else u)).
    { intros j c Hj Hc.
      destruct (Hfr j c Hj ltac:(lia)) as (jt & u & E3 & E4).
      destruct (Center_entry around_index dtype batch e i j c img fr jt u
                  Hd Hk E1 E2 E3 E4) as (out' & Hout' & _ & _ & _ & _ & Hw).
      assert (out' = out) by congruence. subst out'.
      exists jt, u. split; [exact E3|]. split; [exact E4|]. split; [|exact Hw].
      unfold entry. rewrite E1; simpl. rewrite E2; simpl. now rewrite E3. }
    split.
    + intros c Hc.
      destruct (Hentry k c Hklt ltac:(lia)) as (jt & u & E3 & E4 & Hu & Hw).
      exists u. split; [exact Hu|]. rewrite Hw, E3. cbn [mbind option_bind].
      pose proof (dtype_max_ge_1 dtype) as HM.
      destruct (fsub_in_self (dtype_max dtype) u ltac:(lra)) as [Hfin Hnot].
      destruct c as [|[|c]]; [| |lia]; rewrite E4; cbn [Nat.eqb default id];
        (split; [intros x Ex; destruct (Hfin x Ex) as (z & -> & Hz); eauto
                | intros Hn; now rewrite (Hnot Hn)]).
    + intros j Hj.
      destruct (Hentry j 2%nat Hj ltac:(lia)) as (jt & u & _ & _ & Hu & Hw).
      rewrite Hw, Hu. reflexivity.
  - intros Hk. unfold raises, Center, unstack3. rewrite Hd.
    cbn [Nat.eqb mbind result_bind rbind].
    destruct (joint_index_out_of_range _ _ Hk) as (msg & ->). eauto.
Qed.

Lemma Center_puts_joint_at_origin_witness :
  (let k := Z.to_nat ((-1) mod Z.of_nat (dim2 float_batch)) in
   exists out,
     Center (-1) float32 float_batch = Ok out /\
     dim0 out = dim0 float_batch /\ dim1 out = dim1 float_batch /\
     dim2 out = dim2 float_batch /\ dim3 out = dim3 float_batch /\
     forall e i, (e < dim0 float_batch)%nat -> (i < dim1 float_batch)%nat ->
       (forall c, (c < 2)%nat ->
          exists u,
            entry float_batch e i k c = Some u /\
            (forall x, u = Fin x ->
               exists z, entry out e i k c = Some (Fin z) /\ z == 0) /\
            (isfinite u = false -> entry out e i k c = Some NaN)) /\
       (forall j, (j < dim2 float_batch)%nat ->
          entry out e i j 2 = entry float_batch e i j 2)) /\
  raises (Center 1 float32 float_batch).
Proof.
  assert (Hwf : wf_tensor float_batch).
  { unfold wf_tensor, float_batch; simpl. repeat constructor. }
  split.
  - apply (Center_puts_joint_at_origin (-1) float32 float_batch Hwf eq_refl).
    simpl. lia.
  - apply (Center_puts_joint_at_origin 1 float32 float_batch Hwf eq_refl).
    simpl. lia.
Defined.

(** X10. [TranslationScaleInvariant] uses the whole range: where the
    entries that share a minimum and a maximum are numbers, not all
    equal, whose range does not exceed the largest finite number of the
    dtype, an entry that is least among them becomes 0 and one that is
    greatest becomes 1. *)
Theorem translation_scale_invariant_endpoints (level : string) (dtype : DType)
    (batch : Tensor4 fval) (e i j c : nat) (x : Q) :
  dim3 batch = 3%nat ->
  level = "channel" \/ level = "joint" ->
  entry batch e i j c = Some (Fin x) ->
  exists out img w,
    TranslationScaleInvariant level dtype batch = Ok out /\
    data batch !! e = Some img /\
    entry out e i j c = Some w /\
    forall lo hi : Q,
      In (Fin lo) (scale_slice level img j c) ->
      In (Fin hi) (scale_slice level img j c) ->
      (forall u, In u (scale_slice level img j c) ->
         exists q, u = Fin q /\ lo <= q /\ q <= hi) ->
      hi - lo <= dtype_max dtype ->
      ~ lo == hi ->
      (x == lo -> exists q, w = Fin q /\ q == 0) /\
      (x == hi -> exists q, w = Fin q /\ q == 1).
Proof.
  intros Hd Hl Hv.
  destruct (entry_inv batch e i j c _ Hv) as (img & fr & jt & He & Hi & Hj & Hc).
  destruct (TranslationScaleInvariant_entry level dtype batch e i j c img fr jt _
              Hd Hl He Hi Hj Hc) as (out & Hout & _ & _ & _ & _ & Hw).
  pose proof (in_scale_slice level img i j c fr jt _ Hi Hj Hc) as Hin.
  exists out, img. eexists. split; [exact Hout|]. split; [exact He|].
  split; [exact Hw|].
  intros lo hi Hlo Hhi Hall Hfit Hne.
  destruct (min_max_scale_slice dtype _ x lo hi Hin Hlo Hhi Hall Hfit)
    as [_ Hnon].
  destruct (Hnon Hne) as (q & Hq & _ & _ & Hval).
  split; intros E; exists q; (split; [exact Hq|]); rewrite Hval, E; field; lra.
Qed.

Lemma translation_scale_invariant_endpoints_witness :
  exists out img w,
    TranslationScaleInvariant "channel" float32 float_batch = Ok out /\
    data float_batch !! 0%nat = Some img /\
    entry out 0 1 0 0 = Some w /\
    forall lo hi : Q,
      In (Fin lo) (scale_slice "channel" img 0 0) ->
      In (Fin hi) (scale_slice "channel" img 0 0) ->
      (forall u, In u (scale_slice "channel" img 0 0) ->
         exists q, u = Fin q /\ lo <= q /\ q <= hi) ->
      hi - lo <= dtype_max float32 ->
      ~ lo == hi ->
      (3 == lo -> exists q, w = Fin q /\ q == 0) /\
      (3 == hi -> exists q, w = Fin q /\ q == 1).
Proof.
  apply (translation_scale_invariant_endpoints "channel" float32 float_batch
           0 1 0 0 3).
  - reflexivity.
  - now left.
  - reflexivity.
Defined.

(** X11. [TranslationScaleInvariant] fails with [KeyError] on a level
    that is not a key of its [level_dict], whatever the batch, and with
    [ValueError] on a batch whose last axis does not have three
    channels. *)
Theorem translation_scale_invariant_errors (level : string) (dtype : DType)
    (batch : Tensor4 fval) :
  (level <> "channel" -> level <> "joint" ->
   TranslationScaleInvariant level dtype batch = Raise (KeyError level)) /\
  (level = "channel" \/ level = "joint" -> dim3 batch <> 3%nat ->
   exists msg,
     TranslationScaleInvariant level dtype batch = Raise (ValueError msg)).
Proof.
  unfold TranslationScaleInvariant, level_dict. split.
  - intros H1 H2.
    destruct (String.eqb_spec level "channel"); [contradiction|].
    destruct (String.eqb_spec level "joint"); [contradiction|]. reflexivity.
  - intros Hl Hd. apply Nat.eqb_neq in Hd.
    destruct Hl as [-> | ->]; simpl;
      unfold channel_level_translation_scale_invariant,
             joint_level_translation_scale_invariant, unstack3;
      rewrite Hd; destruct (dim3 batch <? 3)%nat; eexists; reflexivity.
Qed.

Lemma translation_scale_invariant_errors_witness :
  TranslationScaleInvariant "frame" float32 float_batch = Raise (KeyError "frame") /\
  exists msg,
    TranslationScaleInvariant "joint" float32 (mkT 1 1 1 2 [[[[Fin 1; Fin 2]]]])
    = Raise (ValueError msg).
Proof.
  split.
  - apply (translation_scale_invariant_errors "frame" float32 float_batch);
      discriminate.
  - apply (translation_scale_invariant_errors "joint" float32
             (mkT 1 1 1 2 [[[[Fin 1; Fin 2]]]]));
      [now right | simpl; lia].
Defined.

End TensorFacts.

(** ** The dataset builder: frames, labels and counts *)

Module DatasetFacts.

Import ListFacts FrameFacts KeysFacts DatasetBuilderFacts.
Section Groups.

Context {A : Type}.
Variable key : A -> Z.

Lemma group_of_cons_other (r : A) (rs : list A) (ks : list Z) :
  ~ In (key r) ks ->
  map (group_of key (r :: rs)) ks = map (group_of key rs) ks.
Proof.
  intros Hn. apply map_ext_in. intros k Hk. unfold group_of. simpl.
  destruct (Z.eqb_spec (key r) k); [subst; contradiction | reflexivity].
Qed.

Lemma join_cons {B} (a : list B) (l : list (list B)) : mjoin (a :: l) = a ++ mjoin l.
Proof. reflexivity. Qed.

Lemma group_of_empty (rs : list A) (k : Z) :
  ~ In k (map key rs) -> group_of key rs k = [].
Proof.
  intros Hn. unfold group_of. induction rs as [|r rs IH]; simpl; [reflexivity|].
  destruct (Z.eqb_spec (key r) k).
  - exfalso. apply Hn. left. assumption.
  - apply IH. intros H. apply Hn. now right.
Qed.

Lemma sorted_head_notin (x : Z) (t : list Z) :
  StronglySorted Z.lt (x :: t) -> ~ In x t.
Proof.
  intros H Hin. inversion H as [|? ? _ Hall]; subst.
  rewrite Forall_forall in Hall. apply list_elem_of_In, Hall in Hin. lia.
Qed.

(** The groups of a list that is in the order of its keys, one after
    the other by ascending key, are the list. *)
Lemma groups_of_sorted (rs : list A) :
  StronglySorted Z.le (map key rs) ->
  mjoin (map (group_of key rs) (sorted_keys (map key rs))) = rs.
Proof.
  induction rs as [|r rs IH]; intros Hs; [reflexivity|].
  inversion Hs as [|? ? Hs' Hall]; subst. specialize (IH Hs').
  cbn [map sorted_keys fold_right]. fold (sorted_keys (map key rs)).
  pose proof (sorted_keys_sorted (map key rs)) as HS.
  assert (Hge : forall k, In k (sorted_keys (map key rs)) -> (key r <= k)%Z).
  { intros k Hk. apply (proj1 (in_sorted_keys _ _)) in Hk.
    rewrite Forall_forall in Hall.
    apply Hall. now apply list_elem_of_In. }
  destruct (sorted_keys (map key rs)) as [|x t] eqn:E.
  - simpl. unfold group_of at 1. simpl. rewrite Z.eqb_refl.
    destruct rs as [|r' rs'].
    + reflexivity.
    + exfalso. assert (H : In (key r') (sorted_keys (map key (r' :: rs'))))
        by (apply in_sorted_keys; now left).
      now rewrite E in H.
  - cbn [insert_key].
    destruct (Z.ltb_spec (key r) x) as [Hlt | Hnlt].
    + assert (Hnot : ~ In (key r) (x :: t)).
      { intros Hin. specialize (Hge _ Hin).
        destruct Hin as [Heq | Hin]; [lia|].
        inversion HS as [|? ? _ Hall']; subst. rewrite Forall_forall in Hall'.
        apply list_elem_of_In, Hall' in Hin. lia. }
      rewrite map_cons, (group_of_cons_other r rs (x :: t) Hnot), join_cons, IH.
      unfold group_of. cbn [List.filter]. rewrite Z.eqb_refl.
      fold (group_of key rs (key r)). rewrite group_of_empty; [reflexivity|].
      intros Hin. apply Hnot. rewrite <- E. now apply in_sorted_keys.
    + assert (Hx : key r = x) by (specialize (Hge x (or_introl eq_refl)); lia).
      rewrite <- Hx, Z.eqb_refl.
      rewrite map_cons, (group_of_cons_other r rs t).
      * unfold group_of at 1. cbn [List.filter]. rewrite Z.eqb_refl.
        fold (group_of key rs (key r)). rewrite join_cons.
        rewrite <- IH at 3. rewrite map_cons, join_cons, <- Hx.
        reflexivity.
      * rewrite Hx. now apply sorted_head_notin.
Qed.

Lemma in_group_of (rs : list A) (k : Z) (r : A) :
  In r (group_of key rs k) <-> In r rs /\ key r = k.
Proof. unfold group_of. rewrite filter_In. now rewrite Z.eqb_eq. Qed.

Lemma list_sum_map_add (f g : Z -> nat) (ks : list Z) :
  (list_sum (map f ks) + list_sum (map g ks))%nat
  = list_sum (map (fun k => (f k + g k)%nat) ks).
Proof. induction ks as [|k ks IH]; simpl; [reflexivity | lia]. Qed.

Lemma count_key_absent (a : Z) (ks : list Z) :
  ~ In a ks ->
  list_sum (map (fun k => if (a =? k)%Z then 1%nat else 0%nat) ks) = 0%nat.
Proof.
  induction ks as [|y t IH]; intros Hn; [reflexivity|]. simpl.
  destruct (Z.eqb_spec a y).
  - exfalso. apply Hn. now left.
  - apply IH. intros H. apply Hn. now right.
Qed.

Lemma count_key_once (a : Z) (ks : list Z) :
  NoDup ks -> In a ks ->
  list_sum (map (fun k => if (a =? k)%Z then 1%nat else 0%nat) ks) = 1%nat.
Proof.
  induction 1 as [|x t Hx Hnd IH]; intros Hin; [destruct Hin|].
  simpl. destruct (Z.eqb_spec a x).
  - subst. rewrite count_key_absent; [reflexivity|].
    intros H. apply Hx. now apply list_elem_of_In.
  - destruct Hin as [-> | Hin]; [contradiction|]. now apply IH.
Qed.

(** The groups over all the keys hold every element once. *)
Lemma group_sizes_sum (rs : list A) (ks : list Z) :
  NoDup ks -> (forall r, In r rs -> In (key r) ks) ->
  list_sum (map (fun k => length (group_of key rs k)) ks) = length rs.
Proof.
  intros Hnd. induction rs as [|r rs IH]; intros Hks.
  - clear Hnd Hks. induction ks as [|k ks IHk]; [reflexivity | exact IHk].
  - transitivity (list_sum (map (fun k => if (key r =? k)%Z then 1%nat else 0%nat) ks)
                  + list_sum (map (fun k => length (group_of key rs k)) ks))%nat.
    + rewrite list_sum_map_add. f_equal. apply map_ext. intros k.
      unfold group_of. cbn [List.filter]. now destruct (key r =? k)%Z.
    + rewrite count_key_once; [|exact Hnd | apply Hks; now left].
      rewrite IH; [reflexivity|]. intros r' Hr'. apply Hks. now right.
Qed.

End Groups.

Lemma strictly_sorted_NoDup (l : list Z) : StronglySorted Z.lt l -> NoDup l.
Proof.
  induction 1 as [|x t Hs IH Hall]; constructor; [|exact IH].
  intros Hin. rewrite Forall_forall in Hall. apply Hall in Hin. lia.
Qed.

Lemma join_from_row_lengths {A} (values : list A) (row_lengths : list nat) :
  mjoin (from_row_lengths values row_lengths) = take (list_sum row_lengths) values.
Proof.
  revert values. induction row_lengths as [|n ns IH]; intros values.
  - reflexivity.
  - change (list_sum (n :: ns)) with (n + list_sum ns)%nat.
    cbn [from_row_lengths]. rewrite join_cons, IH.
    apply take_take_drop.
Qed.

Lemma lengths_from_row_lengths {A} (values : list A) (row_lengths : list nat) :
  (list_sum row_lengths <= length values)%nat ->
  map (@length A) (from_row_lengths values row_lengths) = row_lengths.
Proof.
  revert values. induction row_lengths as [|n ns IH]; intros values Hle.
  - reflexivity.
  - change (list_sum (n :: ns)) with (n + list_sum ns)%nat in Hle.
    cbn [from_row_lengths map]. f_equal.
    + rewrite length_take. lia.
    + apply IH. rewrite length_drop. lia.
Qed.

Lemma from_row_lengths_join {A} (ls : list (list A)) :
  from_row_lengths (mjoin ls) (map (@length A) ls) = ls.
Proof.
  induction ls as [|a ls IH]; [reflexivity|].
  cbn [map from_row_lengths]. rewrite join_cons.
  now rewrite take_app_length, drop_app_length, IH.
Qed.

Lemma map_join {A B} (f : A -> B) (ls : list (list A)) :
  map f (mjoin ls) = mjoin (map (map f) ls).
Proof.
  induction ls as [|a ls IH]; [reflexivity|].
  cbn [map]. now rewrite !join_cons, map_app, IH.
Qed.

Lemma zip_with_maps {A B C D} (f : B -> C -> D) (g1 : A -> B) (g2 : A -> C)
    (l : list A) :
  zip_with f (map g1 l) (map g2 l) = map (fun a => f (g1 a) (g2 a)) l.
Proof. induction l as [|a l IH]; simpl; [reflexivity | now rewrite IH]. Qed.

Lemma stacked_images_rows (t : DataFrame) (cols : list string) :
  zip_with (fun lx ly => zip_with (fun x y => [x; y; Fin 0]) lx ly)
    (map (fun r => map (cell_by_name t r)
                     (map (fun col : string => (col ++ "_x")%string) cols)) (rows t))
    (map (fun r => map (cell_by_name t r)
                     (map (fun col : string => (col ++ "_y")%string) cols)) (rows t))
  = map (frame_image t cols) (rows t).
Proof.
  rewrite zip_with_maps. apply map_ext. intros r.
  rewrite !map_map, zip_with_maps. reflexivity.
Qed.

Lemma fit_transform_length (X : list (list Z)) (y : list (list Q)) :
  fit_transform X = Ok y -> length y = length X.
Proof.
  unfold fit_transform. destruct X as [|first rest]; [discriminate|].
  destruct (negb _); [discriminate|]. intros [= <-]. simpl. now rewrite length_map.
Qed.

Lemma examples_x (X : list (list (list (list fval)))) (y : list (list Q)) :
  length y = length X -> map ex_x (zip_with mkExample X y) = X.
Proof.
  revert y. induction X as [|x X IH]; intros [|a y] H; simpl in *;
    try discriminate; [reflexivity|].
  f_equal. apply IH. lia.
Qed.

Lemma group_lengths (rs : list Row) :
  map (fun g : Z * list Row => length (snd g)) (groupby_video rs)
  = map (fun k => length (video_rows rs k)) (sorted_keys (map video rs)).
Proof. unfold groupby_video. now rewrite map_map. Qed.

Lemma video_rows_sizes (rs : list Row) :
  list_sum (map (fun k => length (video_rows rs k)) (sorted_keys (map video rs)))
  = length rs.
Proof.
  apply (group_sizes_sum video rs).
  - apply strictly_sorted_NoDup, sorted_keys_sorted.
  - intros r Hr. apply in_sorted_keys. now apply in_map.
Qed.

(** The dataset as [dataframe_to_dataset] assembles it. *)
Lemma dataframe_to_dataset_inv (d : DataFrame) (cols : list string) (ids : list Z)
    (ds : list Example) :
  let t := filtered_table d ids in
  dataframe_to_dataset d cols ids = Ok ds ->
  exists y,
    fit_transform (map (fun g : Z * list Row =>
                          unique_in_order [] (map label (snd g)))
                       (groupby_video (rows t))) = Ok y /\
    length y = length (sorted_keys (map video (rows t))) /\
    ds = zip_with mkExample
           (from_row_lengths (map (frame_image t cols) (rows t))
              (map (fun k => length (video_rows (rows t) k))
                   (sorted_keys (map video (rows t))))) y.
Proof.
  intros t. unfold dataframe_to_dataset. fold t. unfold getitems.
  cbv [mbind result_bind rbind mret result_ret].
  destruct (missing_column t (map _ cols)) as [n|]; [discriminate|].
  destruct (missing_column t (map _ cols)) as [n|]; [discriminate|].
  destruct (fit_transform _) as [y|e] eqn:Ey; [|discriminate].
  intros [= <-]. exists y. split; [reflexivity|]. split.
  - rewrite (fit_transform_length _ _ Ey). unfold groupby_video.
    now rewrite !length_map.
  - now rewrite stacked_images_rows, group_lengths.
Qed.

(** X13. The examples returned by [dataframe_to_dataset] hold the rows
    of the table (after the video filter) dealt out in table order: the
    k-th example takes as many consecutive rows as the video with the
    k-th smallest id has; every frame has one [x, y, 0] triple per joint. *)
Theorem dataset_deals_rows_in_table_order (d : DataFrame) (cols : list string)
    (ids : list Z) (ds : list Example) :
  let t := filtered_table d ids in
  dataframe_to_dataset d cols ids = Ok ds ->
  mjoin (map ex_x ds) = map (frame_image t cols) (rows t) /\
  map (fun e => length (ex_x e)) ds
  = map (fun k => length (video_rows (rows t) k)) (sorted_keys (map video (rows t))).
Proof.
  intros t Hds.
  destruct (dataframe_to_dataset_inv d cols ids ds Hds) as (y & _ & Hy & ->).
  fold t. rewrite <- (map_map ex_x (@length _)).
  rewrite examples_x by (now rewrite length_from_row_lengths, length_map).
  split.
  - rewrite join_from_row_lengths, video_rows_sizes.
    rewrite <- (length_map (frame_image t cols)). apply firstn_all.
  - apply lengths_from_row_lengths. rewrite video_rows_sizes, length_map. lia.
Qed.

Lemma dataset_deals_rows_in_table_order_witness :
  exists ds,
    dataframe_to_dataset two_videos ["pose_0"] [] = Ok ds /\
    mjoin (map ex_x ds)
    = map (frame_image (filtered_table two_videos []) ["pose_0"])
        (rows (filtered_table two_videos [])) /\
    map (fun e => length (ex_x e)) ds
    = map (fun k => length (video_rows (rows (filtered_table two_videos [])) k))
        (sorted_keys (map video (rows (filtered_table two_videos [])))).
Proof.
  eexists. split; [vm_compute; reflexivity|].
  apply (dataset_deals_rows_in_table_order two_videos ["pose_0"] []).
  vm_compute. reflexivity.
Defined.

(** X14. On a table whose rows are in the order of their video ids,
    the k-th example returned by [dataframe_to_dataset] holds exactly the
    frames of the video with the k-th smallest id, in table order. *)
Theorem sorted_table_examples_are_videos (d : DataFrame) (cols : list string)
    (ids : list Z) (ds : list Example) :
  let t := filtered_table d ids in
  StronglySorted Z.le (map video (rows t)) ->
  dataframe_to_dataset d cols ids = Ok ds ->
  forall k e vid,
    ds !! k = Some e ->
    sorted_keys (map video (rows t)) !! k = Some vid ->
    ex_x e = map (frame_image t cols) (video_rows (rows t) vid).
Proof.
  intros t Hsorted Hds k e vid He Hvid.
  destruct (dataframe_to_dataset_inv d cols ids ds Hds) as (y & _ & Hy & ->).
  fold t in He.
  assert (HX : from_row_lengths (map (frame_image t cols) (rows t))
                 (map (fun k => length (video_rows (rows t) k))
                      (sorted_keys (map video (rows t))))
               = map (fun k => map (frame_image t cols) (video_rows (rows t) k))
                   (sorted_keys (map video (rows t)))).
  { rewrite <- (groups_of_sorted video (rows t) Hsorted) at 1.
    rewrite map_join, map_map.
    replace (map (fun k => length (video_rows (rows t) k))
               (sorted_keys (map video (rows t))))
      with (map (@length _)
              (map (fun k => map (frame_image t cols) (group_of video (rows t) k))
                 (sorted_keys (map video (rows t)))));
      [apply from_row_lengths_join|].
    rewrite map_map. apply map_ext. intros k0. apply length_map. }
  rewrite HX, lookup_zip_with, lookup_map, Hvid in He. simpl in He.
  destruct (y !! k); [|discriminate]. simpl in He. now injection He as <-.
Qed.

Lemma sorted_table_examples_are_videos_witness :
  exists ds,
    dataframe_to_dataset two_videos ["pose_0"] [] = Ok ds /\
    forall k e vid,
      ds !! k = Some e ->
      sorted_keys (map video (rows (filtered_table two_videos []))) !! k = Some vid ->
      ex_x e = map (frame_image (filtered_table two_videos []) ["pose_0"])
                 (video_rows (rows (filtered_table two_videos [])) vid).
Proof.
  eexists. split; [vm_compute; reflexivity|].
  apply (sorted_table_examples_are_videos two_videos ["pose_0"] []).
  - simpl. repeat constructor; lia.
  - vm_compute. reflexivity.
Defined.

Lemma unique_in_order_spec (l seen : list Z) :
  NoDup (unique_in_order seen l) /\
  forall x, In x (unique_in_order seen l) <-> In x l /\ ~ In x seen.
Proof.
  revert seen. induction l as [|a l IH]; intros seen; simpl.
  - split; [constructor | tauto].
  - destruct (existsb (Z.eqb a) seen) eqn:E.
    + destruct (IH seen) as [Hnd Hin]. split; [exact Hnd|].
      intros x. rewrite Hin. apply existsb_exists in E as (b & Hb & Hab).
      apply Z.eqb_eq in Hab. subst b. split; [tauto|].
      intros [[<- | Hx] Hn]; [contradiction | tauto].
    + destruct (IH (a :: seen)) as [Hnd Hin]. split.
      * constructor; [|exact Hnd]. rewrite list_elem_of_In, Hin. simpl. tauto.
      * intros x. simpl. rewrite Hin. simpl.
        assert (Ha : ~ In a seen).
        { intros Ha. rewrite <- not_true_iff_false in E. apply E.
          apply existsb_exists. exists a. split; [exact Ha | apply Z.eqb_refl]. }
        destruct (Z.eq_dec a x) as [-> | Hne]; [tauto|]. tauto.
Qed.

Lemma two_values_length (l : list Z) (a b : Z) :
  In a l -> In b l -> a <> b -> (2 <= length (unique_in_order [] l))%nat.
Proof.
  intros Ha Hb Hne. destruct (unique_in_order_spec l []) as [_ Hin].
  assert (Ha' : In a (unique_in_order [] l)) by (apply Hin; tauto).
  assert (Hb' : In b (unique_in_order [] l)) by (apply Hin; tauto).
  destruct (unique_in_order [] l) as [|x [|y t]]; simpl in *; [tauto | | lia].
  destruct Ha' as [<- | []], Hb' as [<- | []]. contradiction.
Qed.

(** X15. When one video of the table has a single label and another has
    rows with two different labels, [dataframe_to_dataset] raises
    [ValueError]: the per-video label lists do not form a rectangular
    array for the encoder. *)
Theorem mixed_label_counts_raise (d : DataFrame) (cols : list string)
    (ids : list Z) (r1 r2 r3 : Row) :
  let t := filtered_table d ids in
  missing_column t (map (fun col : string => (col ++ "_x")%string) cols) = None ->
  missing_column t (map (fun col : string => (col ++ "_y")%string) cols) = None ->
  In r1 (rows t) -> In r2 (rows t) -> video r1 = video r2 -> label r1 <> label r2 ->
  In r3 (rows t) ->
  (forall r, In r (rows t) -> video r = video r3 -> label r = label r3) ->
  exists msg, dataframe_to_dataset d cols ids = Raise (ValueError msg).
Proof.
  intros t Hx Hy H1 H2 Hv Hl H3 Hsingle.
  unfold dataframe_to_dataset. fold t. unfold getitems. rewrite Hx, Hy.
  cbv [mbind result_bind rbind mret result_ret].
  set (U := fun g : Z * list Row => unique_in_order [] (map label (snd g))).
  assert (Hlen1 : (2 <= length (U (video r1, video_rows (rows t) (video r1))))%nat).
  { unfold U. cbn [snd]. apply (two_values_length _ (label r1) (label r2)); auto.
    - apply in_map. apply in_video_rows. tauto.
    - apply in_map. apply in_video_rows. split; [exact H2 | now symmetry]. }
  assert (Hlen3 : length (U (video r3, video_rows (rows t) (video r3))) = 1%nat).
  { unfold U. cbn [snd]. rewrite (unique_in_order_const (label r3)); [reflexivity | |].
    - intros E. apply map_eq_nil in E.
      assert (H : In r3 (video_rows (rows t) (video r3))) by (apply in_video_rows; tauto).
      now rewrite E in H.
    - intros y Hy'. apply in_map_iff in Hy' as (r & <- & Hr).
      apply in_video_rows in Hr as [Hr Hvr]. now apply Hsingle. }
  assert (Hin : forall r, In r (rows t) ->
            In (U (video r, video_rows (rows t) (video r)))
               (map U (groupby_video (rows t)))).
  { intros r Hr. apply in_map. unfold groupby_video. apply in_map_iff.
    exists (video r). split; [reflexivity|]. apply in_sorted_keys. now apply in_map. }
  pose proof (Hin r1 H1) as Hin1. pose proof (Hin r3 H3) as Hin3.
  unfold fit_transform.
  destruct (map U (groupby_video (rows t))) as [|first rest] eqn:E; [destruct Hin1|].
  rewrite <- E in *.
  destruct (forallb (fun line : list Z => Nat.eqb (length line) (length first))
              (map U (groupby_video (rows t)))) eqn:Eall.
  - exfalso. rewrite forallb_forall in Eall.
    pose proof (Eall _ Hin1) as E1. pose proof (Eall _ Hin3) as E3.
    apply Nat.eqb_eq in E1, E3. lia.
  - simpl. eauto.
Qed.

Lemma mixed_label_counts_raise_witness :
  exists msg, dataframe_to_dataset two_labels ["pose_0"] [] = Raise (ValueError msg).
Proof.
  apply (mixed_label_counts_raise two_labels ["pose_0"] []
           (mkRow 1 0 5 [Fin 1; Fin 2]) (mkRow 1 1 6 [Fin 3; Fin 4])
           (mkRow 2 0 7 [Fin 5; Fin 6])).
  - reflexivity.
  - reflexivity.
  - simpl. tauto.
  - simpl. tauto.
  - reflexivity.
  - discriminate.
  - simpl. tauto.
  - intros r Hr. simpl in Hr. destruct Hr as [<- | [<- | [<- | []]]];
      simpl; intros; (reflexivity || discriminate).
Defined.

(** X16. A video filter that matches no row of the table makes
    [dataframe_to_dataset] raise: the encoder is fit on an empty list of
    labels.  No empty dataset is returned. *)
Theorem unmatched_filter_raises (d : DataFrame) (cols : list string) (ids : list Z) :
  ids <> [] ->
  (forall r, In r (rows d) -> ~ In (video r) ids) ->
  missing_column d (map (fun col : string => (col ++ "_x")%string) cols) = None ->
  missing_column d (map (fun col : string => (col ++ "_y")%string) cols) = None ->
  raises (dataframe_to_dataset d cols ids).
Proof.
  intros Hids Hnone Hx Hy. unfold raises.
  assert (Hrows : rows (filtered_table d ids) = []).
  { unfold filtered_table. destruct ids as [|i ids]; [contradiction|].
    cbn [length Nat.ltb Nat.leb]. unfold filter_dataframe_by_video_ids. cbn [rows].
    induction (rows d) as [|r rs IH]; [reflexivity|]. cbn [List.filter].
    destruct (existsb (Z.eqb (video r)) (i :: ids)) eqn:E.
    - exfalso. apply existsb_exists in E as (x & Hin & Heq).
      apply Z.eqb_eq in Heq. subst x. apply (Hnone r); [now left | exact Hin].
    - apply IH. intros r' Hr'. apply Hnone. now right. }
  assert (Hcols : columns (filtered_table d ids) = columns d).
  { unfold filtered_table. now destruct (0 <? length ids)%nat. }
  unfold dataframe_to_dataset, getitems.
  unfold missing_column, has_column in *. rewrite Hcols, Hx, Hy, Hrows.
  simpl. eauto.
Qed.

Lemma unmatched_filter_raises_witness :
  raises (dataframe_to_dataset two_videos ["pose_0"] [3%Z]).
Proof.
  apply (unmatched_filter_raises two_videos ["pose_0"] [3%Z]).
  - discriminate.
  - intros r Hr. simpl in Hr. destruct Hr as [<- | [<- | [<- | []]]];
      simpl; intros [H | []]; discriminate.
  - reflexivity.
  - reflexivity.
Defined.

Lemma count_distinct (l : list Z) :
  length (unique_in_order [] l) = length (sorted_keys l).
Proof.
  apply Permutation_length, NoDup_Permutation.
  - apply unique_in_order_spec.
  - apply strictly_sorted_NoDup, sorted_keys_sorted.
  - intros x. rewrite !list_elem_of_In, in_sorted_keys.
    rewrite (proj2 (unique_in_order_spec l [])). simpl. tauto.
Qed.

(** X17. The number of training examples that [Dataset.__init__]
    records, the number of distinct video ids of the training table, is
    the number of examples of the dataset that [dataframe_to_dataset]
    builds from that table. *)
Theorem dataset_length_is_video_count (joints : list string) (h : heap)
    (train val : loc) (dt dv : DataFrame) (cols : list string)
    (ds : list Example) :
  h !! train = Some dt -> h !! val = Some dv ->
  dataframe_to_dataset dt cols [] = Ok ds ->
  exists self,
    Dataset_init joints train val None h = (Ok self, h) /\
    num_train_examples self = length ds.
Proof.
  intros Ht Hv Hds.
  destruct (dataframe_to_dataset_inv dt cols [] ds Hds) as (y & _ & Hy & ->).
  unfold Dataset_init.
  rewrite (bind_run _ _ _ _ _ (df_read_run h train dt Ht)).
  rewrite (bind_run _ _ _ _ _ (df_read_run h val dv Hv)).
  eexists. split; [reflexivity|]. cbn [num_train_examples].
  unfold count_videos. rewrite count_distinct.
  rewrite length_zip_with, length_from_row_lengths, length_map, Hy.
  change (filtered_table dt []) with dt. lia.
Qed.

Lemma dataset_length_is_video_count_witness :
  exists self,
    Dataset_init ["pose_0"] 0%nat 1%nat None
      {[ 0%nat := two_videos; 1%nat := one_video ]}
    = (Ok self, {[ 0%nat := two_videos; 1%nat := one_video ]}) /\
    num_train_examples self
    = length [mkExample [[[Fin 1; Fin 2; Fin 0]]] [1; 0];
              mkExample [[[Fin 3; Fin 4; Fin 0]]; [[Fin 5; Fin 6; Fin 0]]] [0; 1]].
Proof.
  apply (dataset_length_is_video_count ["pose_0"]
           {[ 0%nat := two_videos; 1%nat := one_video ]} 0%nat 1%nat
           two_videos one_video ["pose_0"]).
  - reflexivity.
  - reflexivity.
  - vm_compute. reflexivity.
Defined.

End DatasetFacts.

(** ** The evaluation batches *)

Module BatchFacts.

Import ListFacts FrameFacts KeysFacts DatasetBuilderFacts DatasetFacts.
Section Windows.

Context {A : Type}.
Variable key : A -> nat.
Variable window_size : nat -> nat.
Variable n_keys : nat.

Lemma waiting_cons (j : nat) (ks : list nat) (ws : gmap nat (list A)) :
  waiting (j :: ks) ws = default [] (ws !! j) ++ waiting ks ws.
Proof. unfold waiting. simpl. now destruct (ws !! j). Qed.

Lemma waiting_other (ks : list nat) (ws ws' : gmap nat (list A)) :
  (forall j, In j ks -> ws !! j = ws' !! j) -> waiting ks ws = waiting ks ws'.
Proof.
  induction ks as [|j ks IH]; intros H; [reflexivity|].
  rewrite !waiting_cons, (H j (or_introl eq_refl)).
  rewrite IH; [reflexivity|]. intros j' Hj'. apply H. now right.
Qed.

Lemma waiting_insert (ks : list nat) (ws : gmap nat (list A)) (k : nat)
    (w : list A) :
  NoDup ks -> In k ks ->
  waiting ks (<[k := w]> ws) ≡ₚ w ++ waiting ks (delete k ws).
Proof.
  induction 1 as [|j ks Hj Hnd IH]; intros Hin; [destruct Hin|].
  rewrite !waiting_cons. destruct (decide (j = k)) as [-> | Hne].
  - rewrite lookup_insert_eq, lookup_delete_eq. simpl.
    apply Permutation_app_head.
    erewrite waiting_other; [reflexivity|].
    intros j' Hj'. assert (j' <> k) by (intros ->; apply Hj; now apply list_elem_of_In).
    now rewrite lookup_insert_ne, lookup_delete_ne by congruence.
  - destruct Hin as [-> | Hin]; [contradiction|].
    rewrite lookup_insert_ne, lookup_delete_ne by congruence.
    rewrite IH by assumption.
    rewrite !app_assoc. apply Permutation_app_tail, Permutation_app_comm.
Qed.

Lemma waiting_split (ks : list nat) (ws : gmap nat (list A)) (k : nat) :
  NoDup ks -> In k ks ->
  waiting ks ws ≡ₚ default [] (ws !! k) ++ waiting ks (delete k ws).
Proof.
  intros Hnd Hin. destruct (ws !! k) as [w|] eqn:E; simpl.
  - rewrite <- (insert_id ws k w E) at 1. now apply waiting_insert.
  - now rewrite delete_id.
Qed.

(** The batches hold the elements that were waiting and the elements of
    the input, each once. *)
Lemma group_by_window_permutation (input : list A) (windows : gmap nat (list A)) :
  (forall x, In x input -> (key x < n_keys)%nat) ->
  mjoin (group_by_window key window_size n_keys windows input)
  ≡ₚ waiting (seq 0 n_keys) windows ++ input.
Proof.
  revert windows. induction input as [|x rest IH]; intros windows Hkeys.
  - cbn [group_by_window]. fold (waiting (seq 0 n_keys) windows).
    now rewrite app_nil_r.
  - assert (Hk : In (key x) (seq 0 n_keys)).
    { apply in_seq. specialize (Hkeys x (or_introl eq_refl)). lia. }
    assert (Hrest : forall y, In y rest -> (key y < n_keys)%nat).
    { intros y Hy. apply Hkeys. now right. }
    assert (Hnd : NoDup (seq 0 n_keys)) by apply NoDup_seq.
    rewrite (waiting_split (seq 0 n_keys) windows (key x) Hnd Hk).
    cbn [group_by_window].
    destruct (Nat.eqb _ _).
    + rewrite join_cons, (IH _ Hrest).
      rewrite <- !app_assoc. apply Permutation_app_head. cbn [app]. apply Permutation_middle.
    + rewrite (IH _ Hrest), (waiting_insert _ _ _ _ Hnd Hk).
      rewrite <- !app_assoc. apply Permutation_app_head. cbn [app]. apply Permutation_middle.
Qed.

Lemma group_by_window_same_key (input : list A) (windows : gmap nat (list A)) :
  keyed key windows ->
  forall b x y,
    In b (group_by_window key window_size n_keys windows input) ->
    In x b -> In y b -> key x = key y.
Proof.
  revert windows. induction input as [|a rest IH]; intros windows Hinv b x y Hb Hx Hy.
  - cbn [group_by_window] in Hb.
    apply list_elem_of_In, list_elem_of_omap in Hb as (k & _ & Hk).
    rewrite (Hinv k b x Hk Hx), (Hinv k b y Hk Hy). reflexivity.
  - cbn [group_by_window] in Hb.
    set (w := default [] (windows !! key a) ++ [a]) in *.
    assert (Hw : forall z, In z w -> key z = key a).
    { intros z Hz. apply in_app_or in Hz as [Hz | [<- | []]]; [|reflexivity].
      destruct (windows !! key a) as [w0|] eqn:E; [|destruct Hz].
      exact (Hinv _ _ _ E Hz). }
    destruct (Nat.eqb (length w) (window_size (key a))).
    + destruct Hb as [<- | Hb].
      * now rewrite (Hw x Hx), (Hw y Hy).
      * eapply (IH (delete (key a) windows)); eauto.
        intros k w0 z Hk Hz. apply lookup_delete_Some in Hk as [_ Hk].
        exact (Hinv _ _ _ Hk Hz).
    + eapply (IH (<[key a := w]> windows)); eauto.
      intros k w0 z Hk Hz. apply lookup_insert_Some in Hk as [[<- <-] | [_ Hk]].
      * now apply Hw.
      * exact (Hinv _ _ _ Hk Hz).
Qed.

Lemma group_by_window_sizes (input : list A) (windows : gmap nat (list A)) :
  (forall x, In x input -> (1 <= window_size (key x))%nat) ->
  filling window_size windows ->
  forall b,
    In b (group_by_window key window_size n_keys windows input) ->
    exists k, (1 <= length b <= window_size k)%nat.
Proof.
  revert windows. induction input as [|a rest IH]; intros windows Hsize Hinv b Hb.
  - cbn [group_by_window] in Hb.
    apply list_elem_of_In, list_elem_of_omap in Hb as (k & _ & Hk).
    exists k. specialize (Hinv k b Hk). lia.
  - cbn [group_by_window] in Hb.
    set (w := default [] (windows !! key a) ++ [a]) in *.
    assert (Hrest : forall x, In x rest -> (1 <= window_size (key x))%nat).
    { intros x Hx. apply Hsize. now right. }
    assert (Hw : (1 <= length w <= window_size (key a))%nat).
    { unfold w. rewrite length_app. simpl.
      destruct (windows !! key a) as [w0|] eqn:E; simpl.
      - specialize (Hinv _ _ E). lia.
      - specialize (Hsize a (or_introl eq_refl)). lia. }
    destruct (Nat.eqb_spec (length w) (window_size (key a))) as [Heq | Hne].
    + destruct Hb as [<- | Hb]; [exists (key a); lia|].
      apply (IH (delete (key a) windows)); auto.
      intros k w0 Hk. apply lookup_delete_Some in Hk as [_ Hk]. now apply Hinv.
    + apply (IH (<[key a := w]> windows)); auto.
      intros k w0 Hk. apply lookup_insert_Some in Hk as [[<- <-] | [_ Hk]].
      * lia.
      * now apply Hinv.
Qed.

End Windows.

Lemma first_bucket_ge (lo hi : list Z) (i : nat) (len : Z) :
  (i <= first_bucket i lo hi len)%nat.
Proof.
  revert hi i. induction lo as [|l lo IH]; intros [|h hi] i; simpl; try lia.
  destruct ((l <=? len)%Z && (len <? h)%Z); [lia|].
  specialize (IH hi (S i)). lia.
Qed.

Lemma first_bucket_cons (i : nat) (l h : Z) (lo hi : list Z) (len : Z) :
  first_bucket i (l :: lo) (h :: hi) len
  = if ((l <=? len) && (len <? h))%Z then i else first_bucket (S i) lo hi len.
Proof. reflexivity. Qed.

(** The buckets cover every length between the two sentinels. *)
Lemma first_bucket_covers (bb : list Z) (l0 top len : Z) (i : nat) :
  (l0 <= len < top)%Z ->
  (first_bucket i (l0 :: bb) (bb ++ [top]) len <= i + length bb)%nat.
Proof.
  revert l0 i. induction bb as [|b bb IH]; intros l0 i Hlen.
  - cbn [app length]. rewrite first_bucket_cons.
    destruct ((l0 <=? len)%Z && (len <? top)%Z) eqn:E; [lia|].
    apply andb_false_iff in E as [E | E];
      [apply Z.leb_gt in E | apply Z.ltb_ge in E]; lia.
  - cbn [app length]. rewrite first_bucket_cons.
    destruct ((l0 <=? len)%Z && (len <? b)%Z) eqn:E; [lia|].
    assert (Hb : (b <= len)%Z).
    { apply andb_false_iff in E as [E | E];
        [apply Z.leb_gt in E | apply Z.ltb_ge in E]; lia. }
    assert (Hlen' : (b <= len < top)%Z) by lia.
    specialize (IH b (S i) Hlen'). lia.
Qed.

(** With the boundaries [s, s+1, ..., s+n-1] a length below the last
    boundary has a bucket of its own. *)
Lemma first_bucket_seq_small (n s i L : nat) (l0 top : Z) :
  (l0 <= Z.of_nat L)%Z -> (1 <= n)%nat -> (L + 1 < s + n)%nat ->
  first_bucket i (l0 :: map Z.of_nat (seq s n)) (map Z.of_nat (seq s n) ++ [top])
    (Z.of_nat L)
  = (i + (L + 1 - s))%nat.
Proof.
  revert s i l0. induction n as [|n IH]; intros s i l0 Hl0 Hn HL; [lia|].
  cbn [seq map app]. rewrite first_bucket_cons.
  destruct (Z.leb_spec l0 (Z.of_nat L)); [|lia].
  destruct (Z.ltb_spec (Z.of_nat L) (Z.of_nat s)); cbn [andb].
  - lia.
  - rewrite (IH (S s) (S i) (Z.of_nat s)); lia.
Qed.

Lemma first_bucket_seq_large (n s i L : nat) (l0 top : Z) :
  (s + n <= L + 1)%nat ->
  (i + n <= first_bucket i (l0 :: map Z.of_nat (seq s n))
              (map Z.of_nat (seq s n) ++ [top]) (Z.of_nat L))%nat.
Proof.
  revert s i l0. induction n as [|n IH]; intros s i l0 HL.
  - pose proof (first_bucket_ge (l0 :: map Z.of_nat (seq s 0))
                  (map Z.of_nat (seq s 0) ++ [top]) i (Z.of_nat L)). lia.
  - cbn [seq map app]. rewrite first_bucket_cons.
    destruct ((l0 <=? Z.of_nat L)%Z && (Z.of_nat L <? Z.of_nat s)%Z) eqn:E.
    + apply andb_true_iff in E as [_ E]. apply Z.ltb_lt in E. lia.
    + specialize (IH (S s) (S i) (Z.of_nat s) ltac:(lia)). lia.
Qed.

(** Two lengths with the same bucket are equal, or both reach the last
    boundary. *)
Lemma bucket_id_seq_same (n L1 L2 : nat) :
  bucket_id (map Z.of_nat (seq 1 n)) (Z.of_nat L1)
  = bucket_id (map Z.of_nat (seq 1 n)) (Z.of_nat L2) ->
  L1 = L2 \/ (n <= L1 /\ n <= L2)%nat.
Proof.
  unfold bucket_id. intros H.
  assert (Hmin : forall L, (int32_min <= Z.of_nat L)%Z) by (unfold int32_min; lia).
  destruct (Nat.lt_ge_cases L1 n) as [H1 | H1], (Nat.lt_ge_cases L2 n) as [H2 | H2].
  - rewrite !first_bucket_seq_small in H by (auto; lia). left. lia.
  - rewrite (first_bucket_seq_small n 1 0 L1) in H by (auto; lia).
    pose proof (first_bucket_seq_large n 1 0 L2 int32_min int32_max ltac:(lia)). lia.
  - rewrite (first_bucket_seq_small n 1 0 L2) in H by (auto; lia).
    pose proof (first_bucket_seq_large n 1 0 L1 int32_min int32_max ltac:(lia)). lia.
  - right. lia.
Qed.

Lemma waiting_empty {A} (ks : list nat) : waiting ks (∅ : gmap nat (list A)) = [].
Proof.
  induction ks as [|k ks IH]; [reflexivity|].
  now rewrite waiting_cons, lookup_empty, IH.
Qed.

Lemma in_from_row_lengths {A} (values : list A) (row_lengths : list nat)
    (x : list A) :
  In x (from_row_lengths values row_lengths) -> (length x <= length values)%nat.
Proof.
  revert values. induction row_lengths as [|n ns IH]; intros values; simpl; [easy|].
  intros [<- | Hx].
  - rewrite length_take. lia.
  - specialize (IH _ Hx). rewrite length_drop in IH. lia.
Qed.

Lemma in_zip_with_l {A B C} (f : A -> B -> C) (l : list A) (k : list B) (c : C) :
  In c (zip_with f l k) -> exists a b, In a l /\ In b k /\ c = f a b.
Proof.
  revert k. induction l as [|a l IH]; intros [|b k]; simpl; try easy.
  intros [<- | Hc]; [exists a, b; tauto|].
  destruct (IH k Hc) as (a' & b' & Ha & Hb & ->). exists a', b'. tauto.
Qed.

Lemma length_filtered_rows (d : DataFrame) (ids : list Z) :
  (length (rows (filtered_table d ids)) <= length (rows d))%nat.
Proof.
  unfold filtered_table. destruct (0 <? length ids)%nat; [|lia].
  unfold filter_dataframe_by_video_ids. cbn [rows]. apply filter_length_le.
Qed.

(** The frames of an example are rows of the table. *)
Lemma example_length_bound (d : DataFrame) (cols : list string) (ids : list Z)
    (ds : list Example) (e : Example) :
  dataframe_to_dataset d cols ids = Ok ds -> In e ds ->
  (length (ex_x e) <= length (rows d))%nat.
Proof.
  intros Hds He. pose proof (length_filtered_rows d ids) as Hle.
  revert Hds. unfold dataframe_to_dataset, getitems.
  cbv [mbind result_bind rbind mret result_ret].
  destruct (missing_column _ _); [discriminate|].
  destruct (missing_column _ _); [discriminate|].
  destruct (fit_transform _) as [y|]; [|discriminate].
  intros [= <-]. apply in_zip_with_l in He as (x & lbl & Hx & _ & ->).
  apply in_from_row_lengths in Hx. cbn [ex_x].
  rewrite length_zip_with, !length_map in Hx. lia.
Qed.

(** The batches of the evaluation pipeline as [generate_test_dataset]
    forms them. *)
Lemma eval_batches_inv (d : DataFrame) (cols : list string) (ids : list Z)
    (batch_size : Z) (batches : list (list Example)) :
  eval_batches d cols ids batch_size = Ok batches ->
  exists ds,
    dataframe_to_dataset d cols ids = Ok ds /\
    (1 <= max_element_length d)%nat /\ (0 < batch_size)%Z /\
    batches
    = group_by_window
        (fun e => bucket_id (map Z.of_nat (seq 1 (max_element_length d - 1)))
                    (Z.of_nat (length (ex_x e))))
        (fun k => Z.to_nat (default 1%Z
                              (replicate (max_element_length d) batch_size !! k)))
        (max_element_length d) ∅ ds.
Proof.
  unfold eval_batches. fold (max_element_length d).
  destruct (dataframe_to_dataset d cols ids) as [ds|]; [|discriminate].
  cbv [mbind result_bind rbind]. unfold bucket_by_sequence_length.
  rewrite length_replicate, length_map, length_seq.
  destruct (Nat.eqb_spec (max_element_length d) (max_element_length d - 1 + 1))
    as [Hm | Hm]; [|discriminate]. cbn [negb].
  destruct (forallb _ _) eqn:Hpos; [|discriminate]. cbn [negb].
  intros [= <-]. exists ds. split; [reflexivity|]. split; [lia|]. split; [|reflexivity].
  rewrite forallb_forall in Hpos.
  apply Z.ltb_lt, Hpos, list_elem_of_In, elem_of_replicate. split; [reflexivity | lia].
Qed.

(** X18. The evaluation batches hold every example of the dataset
    exactly once: none is dropped, none is repeated. *)
Theorem eval_batches_keep_every_example (d : DataFrame) (cols : list string)
    (ids : list Z) (batch_size : Z) (batches : list (list Example)) :
  (Z.of_nat (length (rows d)) < int32_max)%Z ->
  eval_batches d cols ids batch_size = Ok batches ->
  exists ds,
    dataframe_to_dataset d cols ids = Ok ds /\ mjoin batches ≡ₚ ds.
Proof.
  intros Hsmall Hb.
  destruct (eval_batches_inv d cols ids batch_size batches Hb)
    as (ds & Hds & Hm & _ & ->).
  exists ds. split; [exact Hds|].
  rewrite group_by_window_permutation; [now rewrite waiting_empty|].
  intros e He. pose proof (example_length_bound d cols ids ds e Hds He) as Hlen.
  unfold bucket_id.
  pose proof (first_bucket_covers
                (map Z.of_nat (seq 1 (max_element_length d - 1)))
                int32_min int32_max (Z.of_nat (length (ex_x e))) 0) as Hcov.
  rewrite length_map, length_seq in Hcov.
  assert (int32_min <= Z.of_nat (length (ex_x e)) < int32_max)%Z
    by (unfold int32_min; lia).
  specialize (Hcov H). lia.
Qed.

Lemma eval_batches_keep_every_example_witness :
  exists batches,
    eval_batches two_videos ["pose_0"] [] 32 = Ok batches /\
    exists ds,
      dataframe_to_dataset two_videos ["pose_0"] [] = Ok ds /\
      mjoin batches ≡ₚ ds.
Proof.
  eexists. split; [vm_compute; reflexivity|].
  apply (eval_batches_keep_every_example two_videos ["pose_0"] [] 32).
  - vm_compute. reflexivity.
  - vm_compute. reflexivity.
Defined.

(** X19. Every evaluation batch holds at least one example and at most
    [batch_size] examples. *)
Theorem eval_batches_batch_sizes (d : DataFrame) (cols : list string)
    (ids : list Z) (batch_size : Z) (batches : list (list Example)) :
  eval_batches d cols ids batch_size = Ok batches ->
  forall b, In b batches -> (1 <= Z.of_nat (length b) <= batch_size)%Z.
Proof.
  intros Hb b Hin.
  destruct (eval_batches_inv d cols ids batch_size batches Hb)
    as (ds & Hds & Hm & Hpos & ->).
  assert (Hsize : forall k,
            (1 <= Z.to_nat (default 1%Z
                              (replicate (max_element_length d) batch_size !! k))
             <= Z.to_nat batch_size)%nat).
  { intros k. destruct (replicate _ _ !! k) as [z|] eqn:E; simpl.
    - apply lookup_replicate in E as [-> _]. lia.
    - lia. }
  assert (Hk : exists k,
            (1 <= length b
             <= Z.to_nat (default 1%Z
                            (replicate (max_element_length d) batch_size !! k)))%nat).
  { eapply group_by_window_sizes; [ | | exact Hin].
    - intros x _. apply Hsize.
    - intros k w Hk. rewrite lookup_empty in Hk. discriminate. }
  destruct Hk as (k & Hk). specialize (Hsize k). lia.
Qed.

Lemma eval_batches_batch_sizes_witness :
  exists batches,
    eval_batches two_videos ["pose_0"] [] 32 = Ok batches /\
    forall b, In b batches -> (1 <= Z.of_nat (length b) <= 32)%Z.
Proof.
  eexists. split; [vm_compute; reflexivity|].
  apply (eval_batches_batch_sizes two_videos ["pose_0"] [] 32).
  vm_compute. reflexivity.
Defined.

(** X20. Two examples of one evaluation batch have the same number of
    frames, unless both have at least [max_element_length - 1] frames:
    only the two greatest lengths share a bucket. *)
Theorem eval_batches_lengths (d : DataFrame) (cols : list string)
    (ids : list Z) (batch_size : Z) (batches : list (list Example)) :
  eval_batches d cols ids batch_size = Ok batches ->
  forall b e1 e2, In b batches -> In e1 b -> In e2 b ->
    length (ex_x e1) = length (ex_x e2) \/
    (max_element_length d - 1 <= length (ex_x e1) /\
     max_element_length d - 1 <= length (ex_x e2))%nat.
Proof.
  intros Hb b e1 e2 Hin H1 H2.
  destruct (eval_batches_inv d cols ids batch_size batches Hb)
    as (ds & Hds & Hm & Hpos & ->).
  apply bucket_id_seq_same.
  eapply (group_by_window_same_key
            (fun e => bucket_id (map Z.of_nat (seq 1 (max_element_length d - 1)))
                        (Z.of_nat (length (ex_x e)))));
    [ | exact Hin | exact H1 | exact H2].
  intros k w x Hk. rewrite lookup_empty in Hk. discriminate.
Qed.

Lemma eval_batches_lengths_witness :
  exists batches,
    eval_batches two_videos ["pose_0"] [] 32 = Ok batches /\
    forall b e1 e2, In b batches -> In e1 b -> In e2 b ->
      length (ex_x e1) = length (ex_x e2) \/
      (max_element_length two_videos - 1 <= length (ex_x e1) /\
       max_element_length two_videos - 1 <= length (ex_x e2))%nat.
Proof.
  eexists. split; [vm_compute; reflexivity|].
  apply (eval_batches_lengths two_videos ["pose_0"] [] 32).
  vm_compute. reflexivity.
Defined.

End BatchFacts.

(** ** The legacy normalization *)

Module LegacyFacts.

Import ListFacts FrameFacts HeapFacts LayersFacts KeysFacts FloatFacts NormalizationFacts DatasetFacts.
Lemma select_lines_filter {A} (m : A -> bool) (rs : list A) :
  select_lines (map m rs) rs = List.filter m rs.
Proof.
  induction rs as [|r rs IH]; simpl; [reflexivity|].
  destruct (m r); now rewrite IH.
Qed.

Lemma cell_row_abs (d : DataFrame) (r : Row) (n : string) :
  is_base n = false ->
  cell_by_name d (row_abs r) n = fabs (cell_by_name d r n).
Proof.
  intros Hb. unfold cell_by_name. rewrite !(meta_value_None _ n Hb).
  destruct (index_of n (columns d)) as [p|]; [|reflexivity].
  unfold cell, row_abs. cbn [cells]. rewrite lookup_map.
  now destruct (cells r !! p).
Qed.

Lemma filter_map_commute {A B} (f : A -> B) (p : B -> bool) (q : A -> bool)
    (l : list A) :
  (forall a, In a l -> p (f a) = q a) ->
  List.filter p (map f l) = map f (List.filter q l).
Proof.
  induction l as [|a l IH]; intros H; simpl; [reflexivity|].
  rewrite (H a (or_introl eq_refl)).
  destruct (q a); simpl; rewrite IH; auto; intros; apply H; now right.
Qed.

Lemma groupby_video_map (F : Row -> Row) (key : Row -> Z) (sel : list Row) :
  (forall r, In r sel -> video (F r) = key r) ->
  groupby_video (map F sel)
  = map (fun k => (k, map F (group_of key sel k))) (sorted_keys (map key sel)).
Proof.
  intros HF. unfold groupby_video.
  assert (Hk : map video (map F sel) = map key sel).
  { rewrite map_map. now apply map_ext_in. }
  rewrite Hk. apply map_ext. intros k. f_equal. unfold group_of.
  apply filter_map_commute. intros r Hr. now rewrite (HF r Hr).
Qed.

Lemma map_const_replicate {A B} (f : A -> B) (b : B) (l : list A) :
  (forall a, In a l -> f a = b) -> map f l = replicate (length l) b.
Proof.
  induction l as [|a l IH]; intros H; simpl; [reflexivity|].
  rewrite (H a (or_introl eq_refl)), IH; auto. intros; apply H; now right.
Qed.

(** In a list that is in the order of its keys, [np.repeat] of one value
    per group by the group sizes gives every element the value of its
    own group. *)
Lemma repeat_groups_sorted {A B} (key : A -> Z) (V : Z -> B) (sel : list A) :
  StronglySorted Z.le (map key sel) ->
  np_repeat (map V (sorted_keys (map key sel)))
    (map (fun k => length (group_of key sel k)) (sorted_keys (map key sel)))
  = map (fun r => V (key r)) sel.
Proof.
  intros Hs. unfold np_repeat. rewrite zip_with_maps.
  transitivity (map (fun r => V (key r))
                  (mjoin (map (group_of key sel) (sorted_keys (map key sel))))).
  - rewrite map_join, map_map. f_equal. apply map_ext. intros k.
    symmetry. apply map_const_replicate. intros a Ha.
    apply in_group_of in Ha as [_ ->]. reflexivity.
  - now rewrite groups_of_sorted.
Qed.

Lemma shift_lines (m : Row -> bool) (ns : list string)
    (T : Row -> string -> fval) (rs : list Row) :
  lines_op fadd
    (select_lines (map m rs) (map (fun r0 => map (T r0) ns) rs))
    (map (fun line => fabs (nanmin line))
       (select_lines (map m rs) (map (fun r0 => map (T r0) ns) rs)))
  = map (fun r0 => map (fun n => fadd (T r0 n) (fabs (nanmin (map (T r0) ns)))) ns)
      (select_lines (map m rs) rs).
Proof.
  rewrite select_lines_map, map_map, lines_op_map.
  apply map_ext. intros r. now rewrite map_map.
Qed.

Lemma scale_lines (d d2 : DataFrame) :
  wf d -> columns d2 = columns d ->
  tracks d [] [] (shifted_xy d) d2 ->
  StronglySorted Z.le (map abs_video (List.filter (out_of_scale d) (rows d))) ->
  lines_op fdiv
    (select_lines
       (any_gt (Fin 1)
          (map (fun r0 => map (shifted_xy d r0) (xy_columns_of d)) (rows d)))
       (map (fun r0 => map (shifted_xy d r0) (xy_columns_of d)) (rows d)))
    (np_repeat
       (map (fun g : Z * list Row =>
               nanmax (group_column_max d2 (xy_columns_of d) (snd g)))
          (groupby_video
             (map row_abs
                (select_rows
                   (any_gt (Fin 1)
                      (map (fun r0 => map (shifted_xy d r0) (xy_columns_of d))
                         (rows d)))
                   (rows d2)))))
       (map (fun g : Z * list Row => length (snd g))
          (groupby_video
             (map row_abs
                (select_rows
                   (any_gt (Fin 1)
                      (map (fun r0 => map (shifted_xy d r0) (xy_columns_of d))
                         (rows d)))
                   (rows d2))))))
  = map (fun r0 =>
           map (fun n => fdiv (shifted_xy d r0 n) (video_max d (abs_video r0)))
             (xy_columns_of d))
      (select_lines (map (out_of_scale d) (rows d)) (rows d)).
Proof.
  intros Hwf Hc (Hwf2 & Hcols & G & Hrows & HG) Hsorted.
  assert (Hmask : any_gt (Fin 1)
                    (map (fun r0 => map (shifted_xy d r0) (xy_columns_of d)) (rows d))
                  = map (out_of_scale d) (rows d)).
  { unfold any_gt, out_of_scale, xy_columns_of. now rewrite map_map. }
  rewrite Hmask, Hrows, <- select_lines_rows, !select_lines_map, select_lines_filter.
  set (sel := List.filter (out_of_scale d) (rows d)) in *.
  assert (Hsel : forall r, In r sel -> In r (rows d)).
  { intros r Hr. apply filter_In in Hr. tauto. }
  rewrite map_map.
  rewrite (groupby_video_map (fun r => row_abs (G r)) abs_video sel).
  2:{ intros r Hr. destruct (HG r (Hsel r Hr)) as [(Hv & _) _].
      unfold abs_video. cbn [row_abs video]. now rewrite Hv. }
  rewrite !map_map. cbn [snd].
  assert (Hmax : map (fun k => nanmax (group_column_max d2 (xy_columns_of d)
                                         (map (fun r => row_abs (G r))
                                            (group_of abs_video sel k))))
                   (sorted_keys (map abs_video sel))
                 = map (video_max d) (sorted_keys (map abs_video sel))).
  { apply map_ext. intros k. unfold video_max, group_column_max, xy_columns_of.
    fold sel. f_equal. apply map_ext_in. intros n Hn. f_equal.
    rewrite map_map. apply map_ext_in. intros r Hr.
    apply in_group_of in Hr as [Hr _].
    rewrite cell_row_abs.
    - f_equal. apply (HG r (Hsel r Hr)); [exact Hn | intros []].
    - eapply coordinate_not_base; [exact Hwf | exact Hn]. }
  rewrite Hmax.
  assert (Hlen : map (fun k => length (map (fun r => row_abs (G r))
                                         (group_of abs_video sel k)))
                   (sorted_keys (map abs_video sel))
                 = map (fun k => length (group_of abs_video sel k))
                     (sorted_keys (map abs_video sel))).
  { apply map_ext. intros k. apply length_map. }
  rewrite Hlen, (repeat_groups_sorted abs_video (video_max d) sel Hsorted).
  rewrite lines_op_map. apply map_ext. intros r. now rewrite map_map.
Qed.

(** *** Running [normalize_dataframe_legacy] *)

Lemma legacy_run (h : heap) (l : loc) (d : DataFrame) :
  h !! l = Some d -> wf d ->
  StronglySorted Z.le (map abs_video (List.filter (out_of_scale d) (rows d))) ->
  exists l' h' d',
    normalize_dataframe_legacy l h = (Ok l', h') /\
    h' !! l' = Some d' /\
    columns d' = columns d /\
    tracks d [] [] (legacy_cells d) d'.
Proof.
  intros Hl0 Hwf Hsorted. unfold normalize_dataframe_legacy.
  rewrite (copy_run h l d _ Hl0).
  set (l1 := fresh (dom h)). set (h1 := <[l1 := d]> h).
  assert (Hl : h1 !! l1 = Some d) by apply lookup_insert_eq.
  clearbody h1 l1.
  pose proof (tracks_init d [] Hwf) as Htr.
  rewrite (bind_run _ _ _ _ _ (df_read_run h1 l1 d Hl)). cbv zeta.
  (* x columns *)
  rewrite (bind_run _ _ _ _ _ (df_read_run h1 l1 d Hl)).
  rewrite (tracks_getitems d [] [] _ d (x_columns_of d) Htr), lift_run.
  2:{ intros a Ha. split; [now apply x_columns_incl | intros []]. }
  match goal with
  | |- exists l' h' d', ?X = _ /\ _ =>
      pattern X; match goal with |- ?Q0 _ => set (Q := Q0) end
  end.
  eapply (assign_step_tracks h1 l1 d d [] [] (cell_by_name d)
            (negative_row (x_columns_of d) (cell_by_name d)) (x_columns_of d)
            (fun r n => fadd (cell_by_name d r n)
                          (fabs (nanmin (map (cell_by_name d r) (x_columns_of d))))));
    [exact Hl | exact Htr | apply x_columns_incl | | |].
  { unfold any_lt, negative_row. now rewrite map_map. }
  { unfold any_lt. rewrite map_map.
    apply (shift_lines (negative_row (x_columns_of d) (cell_by_name d))). }
  clear Hl Htr h1. intros h1 d1 Hl Hc1 Htr.
  fold (shifted (x_columns_of d) (cell_by_name d)) in Htr.
  set (T1 := shifted (x_columns_of d) (cell_by_name d)) in *.
  (* y columns *)
  rewrite (bind_run _ _ _ _ _ (df_read_run h1 l1 d1 Hl)).
  rewrite (tracks_getitems d [] [] _ d1 (y_columns_of d) Htr), lift_run.
  2:{ intros a Ha. split; [now apply y_columns_incl | intros []]. }
  eapply (assign_step_tracks h1 l1 d d1 [] [] T1
            (negative_row (y_columns_of d) T1) (y_columns_of d)
            (fun r n => fadd (T1 r n) (fabs (nanmin (map (T1 r) (y_columns_of d))))));
    [exact Hl | exact Htr | apply y_columns_incl | | |].
  { unfold any_lt, negative_row. now rewrite map_map. }
  { unfold any_lt. rewrite map_map.
    apply (shift_lines (negative_row (y_columns_of d) T1)). }
  clear Hl Htr h1. intros h2 d2 Hl Hc2 Htr.
  fold (shifted (y_columns_of d) T1) in Htr. subst T1. fold (shifted_xy d) in Htr.
  (* scale *)
  rewrite (bind_run _ _ _ _ _ (df_read_run h2 l1 d2 Hl)).
  rewrite (tracks_getitems d [] [] _ d2 (xy_columns_of d) Htr), lift_run.
  2:{ intros a Ha. split; [exact Ha | intros []]. }
  eapply (assign_step_tracks h2 l1 d d2 [] [] (shifted_xy d)
            (out_of_scale d) (xy_columns_of d)
            (fun r n => fdiv (shifted_xy d r n) (video_max d (abs_video r))));
    [exact Hl | exact Htr | auto | | |].
  { unfold any_gt, out_of_scale, xy_columns_of. now rewrite map_map. }
  { apply scale_lines; [exact Hwf | congruence | exact Htr | exact Hsorted]. }
  clear Hl Htr h2. intros h3 d3 Hl Hc3 Htr.
  fold (legacy_cells d) in Htr.
  subst Q. cbv beta. exists l1, h3, d3.
  split; [reflexivity | split; [exact Hl | split; [congruence | exact Htr]]].
Qed.

(** *** The values of the legacy normalization *)

Lemma nanmin_cases (l : list fval) :
  (nanmin l = NaN /\ forall x, In x l -> x = NaN) \/
  (nanmin l <> NaN /\ In (nanmin l) l /\
   forall x, In x l -> x <> NaN -> fle (nanmin l) x).
Proof.
  induction l as [|x t IH]; simpl.
  - left. split; [reflexivity | intros x []].
  - destruct (isnan x) eqn:Ex.
    + apply isnan_true in Ex. subst x.
      destruct IH as [[Hm Hall] | (Hm & Hin & Hub)].
      * left. split; [exact Hm|]. intros y [<- | Hy]; [reflexivity | auto].
      * right. split; [exact Hm|]. split; [now right|].
        intros y [<- | Hy] Hne; [contradiction | auto].
    + apply isnan_false in Ex. right.
      destruct IH as [[Hm Hall] | (Hm & Hin & Hub)].
      * rewrite Hm. simpl. split; [exact Ex|]. split; [now left|].
        intros y [<- | Hy] Hne; [now apply fle_refl|].
        now rewrite (Hall y Hy) in Hne.
      * destruct (isnan (nanmin t)) eqn:Em;
          [apply isnan_true in Em; contradiction|].
        destruct (fltb (nanmin t) x) eqn:El.
        -- split; [exact Hm|]. split; [now right|].
           intros y [<- | Hy] Hne; [now apply fltb_true_fle | auto].
        -- split; [exact Ex|]. split; [now left|].
           intros y [<- | Hy] Hne; [now apply fle_refl|].
           eapply fle_trans; [|apply Hub; assumption].
           now apply fltb_false_fle.
Qed.

Lemma nanmax_ge (l : list fval) (x : fval) :
  In x l -> x <> NaN -> nanmax l <> NaN /\ fle x (nanmax l).
Proof.
  intros Hx Hne. destruct (nanmax_cases l) as [[_ Hall] | (Hm & _ & Hub)].
  - now rewrite (Hall x Hx) in Hne.
  - split; [exact Hm | now apply Hub].
Qed.

(** A value that is missing or not negative. *)
Lemma shift_not_negative (x mn : fval) :
  x <> NaN -> fle mn x ->
  fadd x (fabs mn) = NaN \/ fle (Fin 0) (fadd x (fabs mn)).
Proof.
  intros Hx Hle. destruct mn as [m| | |], x as [q| | |]; cbn [fle fabs] in *;
    try contradiction; unfold fadd; cbn [fadd_in];
    try (now left); try (now right).
  assert (H0 : 0 <= q + Qabs m).
  { pose proof (Qle_Qabs (- m)) as H. rewrite Qabs_opp in H. lra. }
  right.
  destruct (overflow_cases float64_max (q + Qabs m)) as [[-> _] | [[-> Hn] | [-> _]]];
    cbn [fle]; [exact I | | exact H0].
  pose proof float64_max_ge_1. lra.
Qed.

Lemma shifted_in (ns : list string) (T : Row -> string -> fval) (r : Row)
    (n : string) :
  In n ns ->
  shifted ns T r n = NaN \/ fle (Fin 0) (shifted ns T r n).
Proof.
  intros Hn. unfold shifted, assigned.
  rewrite (proj2 (existsb_eqb_In n ns) Hn), andb_true_r.
  assert (Hin : In (T r n) (map (T r) ns)) by now apply in_map.
  destruct (isnan (T r n)) eqn:Ex.
  { apply isnan_true in Ex. left. rewrite Ex. now destruct (negative_row ns T r). }
  apply isnan_false in Ex.
  destruct (negative_row ns T r) eqn:Em.
  - destruct (nanmin_cases (map (T r) ns)) as [[_ Hall] | (_ & _ & Hlb)].
    + now rewrite (Hall _ Hin) in Ex.
    + apply shift_not_negative; [exact Ex | now apply Hlb].
  - right. unfold negative_row in Em.
    rewrite <- not_true_iff_false, existsb_exists in Em.
    apply fltb_false_fle; [exact Ex | discriminate|].
    apply not_true_iff_false. intros Hlt. apply Em. eauto.
Qed.

Lemma shifted_out (ns : list string) (T : Row -> string -> fval) (r : Row)
    (n : string) :
  ~ In n ns -> shifted ns T r n = T r n.
Proof.
  intros Hn. unfold shifted, assigned.
  destruct (existsb (String.eqb n) ns) eqn:E.
  - apply existsb_eqb_In in E. contradiction.
  - now rewrite andb_false_r.
Qed.

Lemma column_axis (d : DataFrame) (n : string) :
  In n (columns d) -> In n (x_columns_of d) \/ In n (y_columns_of d).
Proof.
  intros Hn. apply list_elem_of_In, list_elem_of_lookup_1 in Hn as [p Hp].
  destruct (in_step2 (columns d) n) as [Hx Hy].
  destruct (Nat.even p) eqn:E; [left; apply Hx | right; apply Hy]; eauto.
Qed.

Lemma shifted_xy_not_negative (d : DataFrame) (r : Row) (n : string) :
  In n (columns d) ->
  shifted_xy d r n = NaN \/ fle (Fin 0) (shifted_xy d r n).
Proof.
  intros Hn. unfold shifted_xy.
  destruct (in_dec string_dec n (y_columns_of d)) as [Hy | Hy].
  - now apply shifted_in.
  - rewrite shifted_out by exact Hy.
    destruct (column_axis d n Hn) as [Hx | Hy']; [|contradiction].
    now apply shifted_in.
Qed.

Lemma scaled_unit (x V : fval) :
  x = NaN \/ fle (Fin 0) x ->
  (x <> NaN -> fle (fabs x) V) -> fle (Fin 1) V ->
  fdiv x V = NaN \/ exists q, fdiv x V = Fin q /\ 0 <= q <= 1.
Proof.
  intros [-> | Hx] Hle H1; [now left|].
  assert (Hne : x <> NaN) by (intros ->; exact Hx).
  specialize (Hle Hne).
  destruct x as [q| | |], V as [w| | |]; cbn [fle fabs] in *; try contradiction;
    try (now left).
  - apply Qabs_Qle_condition in Hle.
    assert (H0 : 0 <= q / w) by (apply Qle_shift_div_l; lra).
    assert (H2 : q / w <= 1) by (apply Qle_shift_div_r; lra).
    right. exists (q / w). split; [|split; assumption].
    apply fdiv_Fin_unit; [lra|]. apply Qabs_Qle_condition. lra.
  - right. exists 0. split; [reflexivity | lra].
Qed.

Lemma legacy_cells_range (d : DataFrame) (r : Row) (n : string) :
  In r (rows d) -> In n (columns d) ->
  legacy_cells d r n = NaN \/ exists q, legacy_cells d r n = Fin q /\ 0 <= q <= 1.
Proof.
  intros Hr Hn. unfold legacy_cells, assigned.
  rewrite (proj2 (existsb_eqb_In n (columns d)) Hn), andb_true_r.
  pose proof (shifted_xy_not_negative d r n Hn) as Hpos.
  destruct (out_of_scale d r) eqn:Eo.
  - set (g := group_of abs_video (List.filter (out_of_scale d) (rows d)) (abs_video r)).
    assert (Hg : In r g).
    { apply in_group_of. split; [|reflexivity]. apply filter_In. tauto. }
    assert (Hbound : forall n0, In n0 (columns d) -> shifted_xy d r n0 <> NaN ->
              video_max d (abs_video r) <> NaN /\
              fle (fabs (shifted_xy d r n0)) (video_max d (abs_video r))).
    { intros n0 Hn0 Hne. unfold video_max. fold g.
      destruct (nanmax_ge (map (fun r' => fabs (shifted_xy d r' n0)) g)
                  (fabs (shifted_xy d r n0))) as [Hm Hle].
      { apply (in_map (fun r' => fabs (shifted_xy d r' n0))). exact Hg. }
      { intros E. apply fabs_NaN_inv in E. contradiction. }
      destruct (nanmax_ge
                  (map (fun n1 => nanmax (map (fun r' => fabs (shifted_xy d r' n1)) g))
                     (columns d))
                  (nanmax (map (fun r' => fabs (shifted_xy d r' n0)) g)))
        as [HM Hle'].
      { apply (in_map (fun n1 => nanmax (map (fun r' => fabs (shifted_xy d r' n1)) g))).
        exact Hn0. }
      { exact Hm. }
      split; [exact HM | eapply fle_trans; eassumption]. }
    apply scaled_unit; [exact Hpos | intros Hne; now apply Hbound |].
    unfold out_of_scale in Eo. apply existsb_exists in Eo as (v & Hv & Hgt).
    apply in_map_iff in Hv as (n0 & <- & Hn0).
    unfold fgtb in Hgt. pose proof (fltb_true_fle _ _ Hgt) as H1.
    assert (Hne : shifted_xy d r n0 <> NaN) by (eapply fle_not_nan_r; exact H1).
    destruct (Hbound n0 Hn0 Hne) as [_ Hle].
    eapply fle_trans; [exact H1|]. eapply fle_trans; [|exact Hle].
    destruct (shifted_xy d r n0) as [q| | |]; simpl in *; try contradiction; auto.
    apply Qle_Qabs.
  - unfold out_of_scale in Eo.
    rewrite <- not_true_iff_false, existsb_exists in Eo.
    destruct Hpos as [-> | Hpos]; [now left|]. right.
    assert (Hle : fle (shifted_xy d r n) (Fin 1)).
    { apply fltb_false_fle; [discriminate | now apply (fle_not_nan_r (Fin 0))|].
      apply not_true_iff_false. intros Hgt. apply Eo.
      exists (shifted_xy d r n). split; [now apply in_map | exact Hgt]. }
    destruct (shifted_xy d r n) as [q| | |]; simpl in *; try contradiction.
    exists q. split; [reflexivity | lra].
Qed.

Lemma sorted_selection (m : Row -> bool) (rs : list Row) :
  StronglySorted Z.le (map video rs) ->
  Forall (fun r => (0 <= video r)%Z) rs ->
  StronglySorted Z.le (map abs_video (List.filter m rs)).
Proof.
  induction rs as [|r rs IH]; intros Hs Hpos; [constructor|].
  inversion Hs as [|? ? Hs' Hall]; subst.
  apply Forall_cons in Hpos as [Hr Hpos]. specialize (IH Hs' Hpos).
  cbn [List.filter]. destruct (m r); [|exact IH].
  cbn [map]. constructor; [exact IH|].
  rewrite Forall_forall. intros k Hk.
  apply list_elem_of_In, in_map_iff in Hk as (r' & <- & Hr').
  apply filter_In in Hr' as [Hr' _].
  rewrite Forall_forall in Hall. rewrite Forall_forall in Hpos.
  assert (H1 : (video r <= video r')%Z).
  { apply Hall, list_elem_of_In, in_map. exact Hr'. }
  assert (H2 : (0 <= video r')%Z).
  { apply Hpos, list_elem_of_In. exact Hr'. }
  unfold abs_video. lia.
Qed.

Lemma tracked_cells (d d' : DataFrame) (T : Row -> string -> fval) :
  columns d' = columns d -> tracks d [] [] T d' ->
  Forall2 (fun r r' => same_metadata r r' /\ cells r' = map (T r) (columns d))
    (rows d) (rows d').
Proof.
  intros Hc (Hwf' & _ & G & Hrows & HG). rewrite Hrows.
  apply Forall2_map_diag. intros r Hr. destruct (HG r Hr) as [Hmeta Hcell].
  split; [exact Hmeta|].
  rewrite (cells_by_name d' (G r) Hwf').
  2:{ apply wf_rows; [exact Hwf'|]. rewrite Hrows. now apply in_map. }
  rewrite Hc. apply map_ext_in. intros n Hn. apply Hcell; [exact Hn | intros []].
Qed.

(** X21. [normalize_dataframe_legacy] on a well-formed table returns a
    table with the same columns and rows in the same order; when the
    out-of-scale rows are in the order of the absolute value of their
    video id, every coordinate is first moved on its axis (by the
    absolute value of the least cell of the axis, in rows that have a
    negative cell on it) and then, in the rows that still have a cell
    above 1 and only in those, divided by the largest absolute value over
    the out-of-scale rows of the video. *)
Theorem legacy_moves_then_scales (h : heap) (l : loc) (d : DataFrame) :
  h !! l = Some d -> wf d ->
  StronglySorted Z.le (map abs_video (List.filter (out_of_scale d) (rows d))) ->
  exists l' h' d',
    normalize_dataframe_legacy l h = (Ok l', h') /\
    h' !! l' = Some d' /\
    columns d' = columns d /\
    Forall2 (fun r r' =>
      same_metadata r r' /\ cells r' = map (legacy_cells d r) (columns d))
      (rows d) (rows d').
Proof.
  intros Hl Hwf Hsorted.
  destruct (legacy_run h l d Hl Hwf Hsorted) as (l' & h' & d' & Hrun & Hl' & Hc & Htr).
  exists l', h', d'. split; [exact Hrun|]. split; [exact Hl'|]. split; [exact Hc|].
  now apply tracked_cells.
Qed.

Lemma wf_legacy_table : wf legacy_table.
Proof.
  split.
  - refine (bool_decide_unpack _ _). vm_compute. reflexivity.
  - repeat constructor.
Defined.

Lemma legacy_moves_then_scales_witness :
  exists l' h' d',
    normalize_dataframe_legacy 0 {[ 0%nat := legacy_table ]} = (Ok l', h') /\
    h' !! l' = Some d' /\
    columns d' = columns legacy_table /\
    Forall2 (fun r r' =>
      same_metadata r r' /\
      cells r' = map (legacy_cells legacy_table r) (columns legacy_table))
      (rows legacy_table) (rows d').
Proof.
  apply (legacy_moves_then_scales {[ 0%nat := legacy_table ]} 0 legacy_table).
  - reflexivity.
  - exact wf_legacy_table.
  - vm_compute. repeat constructor; discriminate.
Defined.

(** X22. In legacy mode [normalize_dataframe], on a well-formed table
    whose rows are in the order of their video ids, none negative, returns
    a table in which every coordinate is missing or lies between 0 and 1. *)
Theorem legacy_range (h : heap) (l : loc) (d : DataFrame) :
  h !! l = Some d -> wf d ->
  StronglySorted Z.le (map video (rows d)) ->
  Forall (fun r => (0 <= video r)%Z) (rows d) ->
  exists l' h' d',
    normalize_dataframe l Legacy h = (Ok l', h') /\
    h' !! l' = Some d' /\
    forall r' c, In r' (rows d') -> In c (cells r') ->
      c = NaN \/ exists q, c = Fin q /\ 0 <= q <= 1.
Proof.
  intros Hl Hwf Hs Hpos.
  destruct (legacy_run h l d Hl Hwf (sorted_selection _ _ Hs Hpos))
    as (l' & h' & d' & Hrun & Hl' & Hc & Htr).
  exists l', h', d'. split; [exact Hrun|]. split; [exact Hl'|].
  intros r' c Hr' Hcell.
  destruct (Forall2_In_r _ _ _ _ (tracked_cells d d' _ Hc Htr) Hr')
    as (r & Hr & _ & Hcells).
  rewrite Hcells in Hcell. apply in_map_iff in Hcell as (n & <- & Hn).
  now apply legacy_cells_range.
Qed.

Lemma legacy_range_witness :
  exists l' h' d',
    normalize_dataframe 0 Legacy {[ 0%nat := legacy_table ]} = (Ok l', h') /\
    h' !! l' = Some d' /\
    forall r' c, In r' (rows d') -> In c (cells r') ->
      c = NaN \/ exists q, c = Fin q /\ 0 <= q <= 1.
Proof.
  apply (legacy_range {[ 0%nat := legacy_table ]} 0 legacy_table).
  - reflexivity.
  - exact wf_legacy_table.
  - simpl. repeat constructor; lia.
  - simpl. repeat (constructor; [simpl; lia|]). constructor.
Defined.

Lemma unit_not_negative (c : fval) :
  c = NaN \/ (exists q, c = Fin q /\ 0 <= q <= 1) -> fltb c (Fin 0) = false.
Proof.
  intros [-> | (q & -> & Hq)]; [reflexivity|]. simpl. apply Qlt_bool_false. lra.
Qed.

Lemma unit_not_above (c : fval) :
  c = NaN \/ (exists q, c = Fin q /\ 0 <= q <= 1) -> fgtb c (Fin 1) = false.
Proof.
  intros [-> | (q & -> & Hq)]; [reflexivity|]. unfold fgtb. simpl.
  apply Qlt_bool_false. lra.
Qed.

Lemma existsb_none {A} (p : A -> bool) (l : list A) :
  (forall a, In a l -> p a = false) -> existsb p l = false.
Proof.
  intros H. apply not_true_iff_false. intros E.
  apply existsb_exists in E as (a & Ha & Hp). now rewrite (H a Ha) in Hp.
Qed.

Section UnitRow.

Variable d : DataFrame.
Variable r : Row.
Hypothesis unit_cells :
  forall n, In n (columns d) ->
    cell_by_name d r n = NaN \/
    exists q, cell_by_name d r n = Fin q /\ 0 <= q <= 1.

Lemma unit_row_not_moved (n : string) : shifted_xy d r n = cell_by_name d r n.
Proof.
  assert (H1 : forall n, shifted (x_columns_of d) (cell_by_name d) r n
                         = cell_by_name d r n).
  { intros n0. unfold shifted, assigned.
    replace (negative_row (x_columns_of d) (cell_by_name d) r) with false;
      [reflexivity|].
    symmetry. apply existsb_none. intros v Hv.
    apply in_map_iff in Hv as (a & <- & Ha).
    apply unit_not_negative, unit_cells. now apply x_columns_incl. }
  unfold shifted_xy, shifted at 1, assigned.
  replace (negative_row (y_columns_of d)
             (shifted (x_columns_of d) (cell_by_name d)) r) with false;
    [apply H1|].
  symmetry. apply existsb_none. intros v Hv.
  apply in_map_iff in Hv as (a & <- & Ha). rewrite H1.
  apply unit_not_negative, unit_cells. now apply y_columns_incl.
Qed.

Lemma unit_row_in_scale : out_of_scale d r = false.
Proof.
  apply existsb_none. intros v Hv. apply in_map_iff in Hv as (a & <- & Ha).
  rewrite unit_row_not_moved. now apply unit_not_above, unit_cells.
Qed.

Lemma unit_row_kept (n : string) : legacy_cells d r n = cell_by_name d r n.
Proof.
  unfold legacy_cells, assigned. rewrite unit_row_in_scale. apply unit_row_not_moved.
Qed.

End UnitRow.

Lemma filter_none {A} (p : A -> bool) (l : list A) :
  (forall a, In a l -> p a = false) -> List.filter p l = [].
Proof.
  induction l as [|a l IH]; intros H; simpl; [reflexivity|].
  rewrite (H a (or_introl eq_refl)). apply IH. intros; apply H; now right.
Qed.

(** X23. In legacy mode [normalize_dataframe] changes nothing in a
    table whose coordinates are all missing or between 0 and 1: it returns
    a new table equal to its argument. *)
Theorem legacy_keeps_unit_tables (h : heap) (l : loc) (d : DataFrame) :
  h !! l = Some d -> wf d ->
  (forall r c, In r (rows d) -> In c (cells r) ->
     c = NaN \/ exists q, c = Fin q /\ 0 <= q <= 1) ->
  exists l' h',
    normalize_dataframe l Legacy h = (Ok l', h') /\
    l' <> l /\ h' !! l' = Some d /\ h' !! l = Some d.
Proof.
  intros Hl Hwf Hunit.
  assert (Hcells : forall r, In r (rows d) -> forall n, In n (columns d) ->
            cell_by_name d r n = NaN \/
            exists q, cell_by_name d r n = Fin q /\ 0 <= q <= 1).
  { intros r Hr n Hn. apply (Hunit r); [exact Hr|].
    rewrite (cells_by_name d r Hwf (wf_rows d r Hwf Hr)). now apply in_map. }
  assert (Hnone : List.filter (out_of_scale d) (rows d) = []).
  { apply filter_none. intros r Hr. apply unit_row_in_scale. now apply Hcells. }
  destruct (legacy_run h l d Hl Hwf) as (l' & h' & d' & Hrun & Hl' & Hc & Htr).
  { rewrite Hnone. constructor. }
  pose proof (legacy_returns_new h l h (extends_refl h)) as [Hext Hnew].
  rewrite Hrun in Hext, Hnew. cbn [fst snd] in Hext, Hnew.
  destruct (Hnew l' eq_refl) as [Hfresh _].
  assert (Hd : d' = d).
  { destruct Htr as (Hwf' & _ & G & Hrows & HG).
    assert (Hrows' : rows d' = rows d).
    { rewrite Hrows. rewrite <- (map_id (rows d)) at 2. apply map_ext_in.
      intros r Hr. destruct (HG r Hr) as [(Hv & Hf & Hb) Hcell].
      assert (Hcs : cells (G r) = cells r).
      { rewrite (cells_by_name d' (G r) Hwf').
        2:{ apply wf_rows; [exact Hwf'|]. rewrite Hrows. now apply in_map. }
        rewrite (cells_by_name d r Hwf (wf_rows d r Hwf Hr)), Hc.
        apply map_ext_in. intros n Hn.
        rewrite (Hcell n Hn) by (intros []).
        apply unit_row_kept. now apply Hcells. }
      destruct (G r), r. simpl in *. congruence. }
    destruct d' as [c' rs']. destruct d as [c rs]. simpl in *. congruence. }
  subst d'. exists l', h'. split; [exact Hrun|]. split; [congruence|].
  split; [exact Hl' | now apply Hext].
Qed.

Lemma wf_unit_table : wf unit_table.
Proof.
  split.
  - refine (bool_decide_unpack _ _). vm_compute. reflexivity.
  - repeat constructor.
Defined.

Lemma legacy_keeps_unit_tables_witness :
  exists l' h',
    normalize_dataframe 0 Legacy {[ 0%nat := unit_table ]} = (Ok l', h') /\
    l' <> 0%nat /\ h' !! l' = Some unit_table /\ h' !! 0%nat = Some unit_table.
Proof.
  apply (legacy_keeps_unit_tables {[ 0%nat := unit_table ]} 0 unit_table).
  - reflexivity.
  - exact wf_unit_table.
  - intros r c Hr Hc. simpl in Hr.
    destruct Hr as [<- | [<- | []]]; simpl in Hc;
      repeat (destruct Hc as [<- | Hc];
              [first [now left | right; eexists; split; [reflexivity | lra]]|]);
      contradiction.
Defined.





End LegacyFacts.

(** ** The training script and the evaluation map *)

Module ScriptFacts.

Import ListFacts FrameFacts.
(** X24. [run_experiment] never trains: given a configuration it stops
    at its first call of the dataset, [get_training_set(...,
    pipeline=...)], with [TypeError], since [get_training_set] has no
    parameter [pipeline] (or earlier with [KeyError] when the
    configuration lacks [batch_size] or [pipeline]); no table is
    touched.  Without a configuration it returns [None]. *)
Theorem run_experiment_stops_at_first_call
    (INPUT_HEIGHT INPUT_WIDTH : Z) (default_mode : pyvalue) (History : Type)
    (fit : list (string * pyvalue) -> Pipeline -> Pipeline -> M History)
    (dataset : Dataset) (config : list (string * pyvalue)) (h : heap) :
  run_experiment INPUT_HEIGHT INPUT_WIDTH default_mode History fit dataset None h
  = (Ok None, h) /\
  exists e,
    run_experiment INPUT_HEIGHT INPUT_WIDTH default_mode History fit dataset
      (Some config) h = (Raise e, h) /\
    match dict_get config "batch_size", dict_get config "pipeline" with
    | Raise e', _ => e = e'
    | Ok _, Raise e' => e = e'
    | Ok _, Ok _ => exists msg, e = TypeError msg
    end.
Proof.
  split; [reflexivity|]. unfold run_experiment.
  destruct (dict_get config "batch_size") as [bs|e1]; [|eexists; split; reflexivity].
  destruct (dict_get config "pipeline") as [p|e2]; [|eexists; split; reflexivity].
  eexists. split; [reflexivity|]. eexists. reflexivity.
Qed.

Lemma le_fold_max (l : list nat) (n : nat) :
  In n l -> (n <= fold_right Nat.max 0%nat l)%nat.
Proof.
  induction l as [|a l IH]; [easy|]. simpl. intros [-> | H]; [lia|].
  specialize (IH H). lia.
Qed.

(** X25. The map function of the validation and test pipelines never
    fails and only pads: the batch tensor keeps the frames of every
    example in order and appends zero frames up to the larger of
    [INPUT_HEIGHT] and the longest example of the batch.  A batch with a
    longer example is taller than [INPUT_HEIGHT]; nothing is resized. *)
Theorem eval_map_fn_pads_only (INPUT_HEIGHT : Z) (b : list Example) :
  exists x,
    eval_map_fn INPUT_HEIGHT b = Ok (x, map ex_y b) /\
    dim0 x = length b /\
    Z.of_nat (dim1 x)
    = Z.max INPUT_HEIGHT
        (Z.of_nat (fold_right Nat.max 0%nat (map (fun e => length (ex_x e)) b))) /\
    forall k e, b !! k = Some e ->
      exists pad,
        data x !! k
        = Some (ex_x e ++ replicate pad (replicate (dim2 x) (replicate 3 (Fin 0)))) /\
        (length (ex_x e) + pad = dim1 x)%nat.
Proof.
  unfold eval_map_fn. eexists. split; [reflexivity|].
  unfold PadIfLessThan, to_tensor. cbn [dim0 dim1 dim2 dim3 data].
  rewrite !map_map, !length_map.
  set (frames := fold_right Nat.max 0%nat (map (fun e => length (ex_x e)) b)).
  split; [reflexivity|]. split; [lia|].
  intros k e Hk.
  exists (frames - length (ex_x e)
          + Z.to_nat (Z.max 0 (INPUT_HEIGHT - Z.of_nat frames)))%nat.
  split.
  - rewrite lookup_map, Hk. cbn [fmap option_fmap option_map].
    now rewrite <- app_assoc, <- replicate_add.
  - assert (length (ex_x e) <= frames)%nat; [|lia].
    apply le_fold_max. apply (in_map (fun e => length (ex_x e))).
    apply list_elem_of_In. eapply list_elem_of_lookup_2; exact Hk.
Qed.

End ScriptFacts.

(** ** Root columns, the column filter and substitution *)

Module PreprocessFacts.

Import ListFacts FrameFacts HeapFacts NormalizationFacts.
Lemma index_of_app_new (n : string) (cols : list string) :
  ~ In n cols -> index_of n (cols ++ [n]) = Some (length cols).
Proof.
  induction cols as [|x t IH]; intros Hn; simpl.
  - now rewrite String.eqb_refl.
  - destruct (String.eqb_spec n x) as [-> | Hne]; [exfalso; apply Hn; now left|].
    rewrite IH; [reflexivity|]. intros H. apply Hn. now right.
Qed.

(** Setting a column gives its cells the values set. *)
Lemma cell_set_column_eq (d : DataFrame) (n : string) (f : Row -> fval) (r : Row) :
  wf d -> is_base n = false -> In r (rows d) ->
  cell_by_name (set_column d n f) (set_column_row d n f r) n = f r.
Proof.
  intros Hwf Hb Hr. pose proof (wf_rows d r Hwf Hr) as Hlen.
  unfold set_column, set_column_row.
  destruct (index_of n (columns d)) as [p|] eqn:E.
  - assert (Hn : In n (columns d)).
    { apply index_of_Some in E. apply list_elem_of_In.
      eapply list_elem_of_lookup_2; exact E. }
    change (cell_by_name (mkDF (columns d) ?rs) ?x n) with (cell_by_name d x n).
    rewrite cell_set_cell; auto. now rewrite String.eqb_refl.
  - assert (Hn : ~ In n (columns d)).
    { intros Hn. destruct (index_of_In n _ Hn) as [q Hq]. congruence. }
    unfold cell_by_name. rewrite (meta_value_None _ n Hb). cbn [columns].
    rewrite (index_of_app_new n _ Hn). unfold cell. cbn [cells].
    rewrite lookup_app_r by lia. rewrite Hlen, Nat.sub_diag. reflexivity.
Qed.

Lemma in_rows_set_column (d : DataFrame) (n : string) (f : Row -> fval) (r : Row) :
  In r (rows d) -> In (set_column_row d n f r) (rows (set_column d n f)).
Proof. intros Hr. unfold set_column. cbn [rows]. now apply in_map. Qed.

Lemma filled_part_other (d : DataFrame) (part : Part) (axis : Axis)
    (T : Row -> string -> fval) (r : Row) (n : string) :
  str_in (part_pattern part) n = false ->
  filled (part_columns d part axis) (anchor_column part axis) T r n = T r n.
Proof. exact (fill_part_other d part axis T r n). Qed.

(** X26. With its defaults ([with_root], no [with_midhip], no column
    selection), the configuration of every getter of [Dataset],
    [preprocess_dataframe] returns a table with the columns [root_x] and
    [root_y], whose cells are the midpoint of the two shoulders of the
    row in the argument. *)
Theorem root_is_shoulder_midpoint (h : heap) (l : loc) (d : DataFrame) :
  h !! l = Some d -> wf d ->
  (forall a, In a (required_columns true false) -> In a (columns d)) ->
  exists l' h' d',
    preprocess_dataframe l [] true false h = (Ok l', h') /\
    h' !! l' = Some d' /\
    In "root_x" (columns d') /\ In "root_y" (columns d') /\
    Forall2 (fun r r' =>
      cell_by_name d' r' "root_x"
      = midpoint d (pose_column LEFT_SHOULDER "x") (pose_column RIGHT_SHOULDER "x") r /\
      cell_by_name d' r' "root_y"
      = midpoint d (pose_column LEFT_SHOULDER "y") (pose_column RIGHT_SHOULDER "y") r)
      (rows d) (rows d').
Proof.
  intros Hl0 Hwf Hreq. unfold preprocess_dataframe.
  rewrite (copy_run h l d _ Hl0).
  set (l1 := fresh (dom h)). set (h1 := <[l1 := d]> h).
  assert (Hl : h1 !! l1 = Some d) by apply lookup_insert_eq.
  rewrite (bind_run _ _ _ _ _ (df_read_run h1 l1 d Hl)).
  clearbody h1. cbv zeta. cbv iota.
  set (f1 := midpoint d (pose_column LEFT_SHOULDER "x") (pose_column RIGHT_SHOULDER "x")).
  set (d1 := set_column d "root_x" f1).
  set (f2 := midpoint d1 (pose_column LEFT_SHOULDER "y") (pose_column RIGHT_SHOULDER "y")).
  set (d2 := set_column d1 "root_y" f2).
  assert (Hwf1 : wf d1) by (now apply wf_set_column).
  assert (Hwf2 : wf d2) by (now apply wf_set_column).
  assert (Hcols1 : forall a, In a (columns d) -> In a (columns d1)).
  { intros a Ha. now apply columns_set_column. }
  assert (Hcols2 : forall a, In a (columns d) -> In a (columns d2)).
  { intros a Ha. now apply columns_set_column, Hcols1. }
  rewrite !bind_assoc_run.
  rewrite (set_midpoint_run h1 l1 d "root_x" _ _ _ Hl);
    [|in_columns Hreq | in_columns Hreq].
  fold f1. fold d1.
  rewrite (set_midpoint_run _ l1 d1 "root_y" _ _ _ (lookup_insert_eq _ _ _));
    [|apply Hcols1; in_columns Hreq | apply Hcols1; in_columns Hreq].
  fold f2. fold d2.
  rewrite insert_insert_eq.
  set (h2 := <[l1 := d2]> h1).
  assert (Hl2 : h2 !! l1 = Some d2) by apply lookup_insert_eq.
  clearbody h2.
  rewrite ret_bind_run.
  pose proof (tracks_init d2 [] Hwf2) as Htr.
  match goal with
  | |- exists l' h' d', ?X = _ /\ _ =>
      pattern X; match goal with |- ?Q0 _ => set (Q := Q0) end
  end.
  assert (Hstep : forall part axis,
            (forall a, In a (part_columns d part axis) -> In a (columns d2)) /\
            In (anchor_column part axis) (columns d2)).
  { intros part axis. split.
    - intros a Ha. apply Hcols2. eapply part_columns_incl; exact Ha.
    - apply Hcols2. destruct part, axis; in_columns Hreq. }
  eapply (fill_step_tracks h2 l1 d2 d2 [] [] _
            (part_columns d LeftHandPart AxisX) (anchor_column LeftHandPart AxisX));
    [exact Hl2 | exact Htr | apply Hstep | apply Hstep | intros [] |].
  clear Hl2 Htr h2. intros h2 dk Hl2 Htr.
  eapply (fill_step_tracks h2 l1 d2 dk [] [] _
            (part_columns d LeftHandPart AxisY) (anchor_column LeftHandPart AxisY));
    [exact Hl2 | exact Htr | apply Hstep | apply Hstep | intros [] |].
  clear Hl2 Htr h2 dk. intros h2 dk Hl2 Htr.
  eapply (fill_step_tracks h2 l1 d2 dk [] [] _
            (part_columns d RightHandPart AxisX) (anchor_column RightHandPart AxisX));
    [exact Hl2 | exact Htr | apply Hstep | apply Hstep | intros [] |].
  clear Hl2 Htr h2 dk. intros h2 dk Hl2 Htr.
  eapply (fill_step_tracks h2 l1 d2 dk [] [] _
            (part_columns d RightHandPart AxisY) (anchor_column RightHandPart AxisY));
    [exact Hl2 | exact Htr | apply Hstep | apply Hstep | intros [] |].
  clear Hl2 Htr h2 dk. intros h2 dk Hl2 Htr.
  eapply (fill_step_tracks h2 l1 d2 dk [] [] _
            (part_columns d FacePart AxisX) (anchor_column FacePart AxisX));
    [exact Hl2 | exact Htr | apply Hstep | apply Hstep | intros [] |].
  clear Hl2 Htr h2 dk. intros h2 dk Hl2 Htr.
  eapply (fill_step_tracks h2 l1 d2 dk [] [] _
            (part_columns d FacePart AxisY) (anchor_column FacePart AxisY));
    [exact Hl2 | exact Htr | apply Hstep | apply Hstep | intros [] |].
  clear Hl2 Htr h2 dk. intros h2 dk Hl2 Htr.
  subst Q. cbv beta. cbn [length Nat.ltb Nat.leb].
  exists l1, h2, dk. split; [reflexivity|]. split; [exact Hl2|].
  destruct Htr as (Hwfk & Hcolsk & G & Hrows & HG).
  assert (Hrx : In "root_x" (columns d2)).
  { apply columns_set_column, in_columns_set_column. }
  assert (Hry : In "root_y" (columns d2)) by apply in_columns_set_column.
  split; [apply Hcolsk; now left|]. split; [apply Hcolsk; now left|].
  assert (Hrows2 : rows d2
                   = map (fun r => set_column_row d1 "root_y" f2
                                     (set_column_row d "root_x" f1 r)) (rows d)).
  { unfold d2, set_column at 1. cbn [rows]. unfold d1 at 2, set_column at 1.
    cbn [rows]. now rewrite map_map. }
  rewrite Hrows, Hrows2, map_map. apply Forall2_map_diag. intros r Hr.
  set (r1 := set_column_row d "root_x" f1 r).
  set (r2 := set_column_row d1 "root_y" f2 r1).
  assert (Hr1 : In r1 (rows d1)) by (now apply in_rows_set_column).
  assert (Hr2 : In r2 (rows d2)) by (now apply in_rows_set_column).
  destruct (HG r2 Hr2) as [_ Hcell].
  rewrite (Hcell "root_x" Hrx) by (intros []).
  rewrite (Hcell "root_y" Hry) by (intros []).
  rewrite !filled_part_other by reflexivity.
  split.
  - unfold r2, d2.
    rewrite cell_set_column;
      [|exact Hwf1 | exact Hr1 | apply in_columns_set_column | discriminate].
    unfold r1, d1. now rewrite cell_set_column_eq.
  - unfold r2, d2. rewrite cell_set_column_eq by auto.
    unfold f2, midpoint. unfold r1, d1.
    rewrite !cell_set_column; auto; try discriminate; in_columns Hreq.
Qed.

Lemma root_is_shoulder_midpoint_witness :
  exists l' h' d',
    preprocess_dataframe 0 [] true false sample_heap = (Ok l', h') /\
    h' !! l' = Some d' /\
    In "root_x" (columns d') /\ In "root_y" (columns d') /\
    Forall2 (fun r r' =>
      cell_by_name d' r' "root_x"
      = midpoint sample_table (pose_column LEFT_SHOULDER "x")
          (pose_column RIGHT_SHOULDER "x") r /\
      cell_by_name d' r' "root_y"
      = midpoint sample_table (pose_column LEFT_SHOULDER "y")
          (pose_column RIGHT_SHOULDER "y") r)
      (rows sample_table) (rows d').
Proof.
  apply (root_is_shoulder_midpoint sample_heap 0 sample_table).
  - reflexivity.
  - exact wf_sample_table.
  - intros a Ha. simpl in Ha.
    repeat (destruct Ha as [<- | Ha];
            [simpl; repeat (first [left; reflexivity | right])|]).
    contradiction.
Defined.

(** The column filter is the last statement of [preprocess_dataframe]:
    a call with a selection is the call without one, followed by the
    filter on the table that call returns. *)
Lemma preprocess_then_filter (h : heap) (l : loc) (sel : list string)
    (wr wm : bool) :
  preprocess_dataframe l sel wr wm h
  = match preprocess_dataframe l [] wr wm h with
    | (Ok l1, h2) =>
        (if (0 <? length sel)%nat
         then df_loc_columns l1 (base_columns ++ np_unique sel)
         else mret l1) h2
    | (Raise e, h2) => (Raise e, h2)
    end.
Proof.
  unfold preprocess_dataframe. cbn [length Nat.ltb Nat.leb].
  unfold mbind, M_bind.
  repeat (match goal with
          | |- context [match ?x with _ => _ end] => destruct x
          end; try reflexivity).
Qed.

(** *** The column filter *)

Lemma compare_lt_trans (a b c : string) :
  String.compare a b = Lt -> String.compare b c = Lt -> String.compare a c = Lt.
Proof.
  intros H1 H2. apply OrderedTypeEx.String_as_OT.cmp_lt.
  apply OrderedTypeEx.String_as_OT.cmp_lt in H1, H2.
  eapply OrderedTypeEx.String_as_OT.lt_trans; eassumption.
Qed.

Lemma insert_unique_sorted (s : string) (l : list string) :
  StronglySorted (fun a b => String.compare a b = Lt) l ->
  StronglySorted (fun a b => String.compare a b = Lt) (insert_unique s l).
Proof.
  induction 1 as [|x t Hs IH Hall]; simpl.
  - repeat constructor.
  - destruct (String.compare s x) eqn:E.
    + now constructor.
    + constructor; [now constructor|].
      constructor; [exact E|].
      eapply Forall_impl; [exact Hall|]. intros y Hy. simpl in *.
      eapply compare_lt_trans; eassumption.
    + constructor; [exact IH|].
      apply Forall_forall. intros y Hy.
      apply list_elem_of_In, in_insert_unique in Hy. destruct Hy as [-> | Hy].
      * rewrite String.compare_antisym, E. reflexivity.
      * rewrite Forall_forall in Hall. apply Hall, list_elem_of_In, Hy.
Qed.

Lemma np_unique_sorted (l : list string) :
  StronglySorted (fun a b => String.compare a b = Lt) (np_unique l).
Proof.
  induction l; simpl; [constructor | now apply insert_unique_sorted].
Qed.

(** X27. With a non-empty [select_columns], [preprocess_dataframe]
    returns a table whose coordinate columns are the selected labels in
    ascending order without repetition, whatever their order and
    multiplicity in the argument; the rows are those of the argument, in
    order. *)
Theorem selection_is_sorted_and_unique (h : heap) (l : loc) (d : DataFrame)
    (sel : list string) (wr wm : bool) :
  h !! l = Some d -> wf d ->
  (forall a, In a (required_columns wr wm) -> In a (columns d)) ->
  sel <> [] ->
  (forall a, In a sel ->
     is_base a = true \/ In a (columns d) \/ In a (derived_columns wr wm)) ->
  exists l' h' d',
    preprocess_dataframe l sel wr wm h = (Ok l', h') /\
    h' !! l' = Some d' /\
    columns d' = np_unique sel /\
    StronglySorted (fun a b => String.compare a b = Lt) (columns d') /\
    (forall n, In n (columns d') <-> In n sel) /\
    Forall2 same_metadata (rows d) (rows d').
Proof.
  intros Hl Hwf Hreq Hne Hsel.
  destruct (preprocess_dataframe_run h l d sel wr wm Hl Hwf Hreq Hsel)
    as (l' & h' & d8 & Hrun & Hl' & _ & _ & G & Hrows & HG).
  exists l', h', (selected d8 sel). split; [exact Hrun|]. split; [exact Hl'|].
  assert (Hc : columns (selected d8 sel) = np_unique sel).
  { unfold selected. destruct sel; [contradiction | reflexivity]. }
  rewrite Hc. split; [reflexivity|]. split; [apply np_unique_sorted|].
  split; [intros n; apply in_np_unique|].
  rewrite rows_selected, Hrows, map_map. apply Forall2_map_diag.
  intros r Hr. destruct (HG r Hr) as [Hmeta _].
  eapply same_metadata_trans; [exact Hmeta | apply selected_row_metadata].
Qed.

Lemma selection_is_sorted_and_unique_witness :
  exists l' h' d',
    preprocess_dataframe 0 ["root_y"; "pose_0_x"; "root_y"; "face_0_x"] true false
      sample_heap = (Ok l', h') /\
    h' !! l' = Some d' /\
    columns d' = np_unique ["root_y"; "pose_0_x"; "root_y"; "face_0_x"] /\
    StronglySorted (fun a b => String.compare a b = Lt) (columns d') /\
    (forall n, In n (columns d')
               <-> In n ["root_y"; "pose_0_x"; "root_y"; "face_0_x"]) /\
    Forall2 same_metadata (rows sample_table) (rows d').
Proof.
  apply (selection_is_sorted_and_unique sample_heap 0 sample_table
           ["root_y"; "pose_0_x"; "root_y"; "face_0_x"] true false).
  - reflexivity.
  - exact wf_sample_table.
  - intros a Ha. simpl in Ha.
    repeat (destruct Ha as [<- | Ha];
            [simpl; repeat (first [left; reflexivity | right])|]).
    contradiction.
  - discriminate.
  - intros a Ha. simpl in Ha. right.
    repeat (destruct Ha as [<- | Ha]; [simpl; tauto|]). contradiction.
Defined.

(** X28. [replace_nan_with_other_column] returns, for every row and
    every source column, the cell itself when it is present and the cell
    of the target column of the same row when it is missing (so a cell
    stays missing when the target is missing too); it raises [KeyError]
    for a source or target column that the table lacks; in every case
    the table is left as it was. *)
Theorem replace_nan_takes_target (h : heap) (l : loc) (d : DataFrame)
    (source_columns : list string) (target_column : string) :
  h !! l = Some d ->
  ((forall a, In a source_columns -> In a (columns d)) ->
   In target_column (columns d) ->
   exists arr,
     replace_nan_with_other_column l source_columns target_column h = (Ok arr, h) /\
     Forall2 (fun r line =>
       Forall2 (fun n v =>
         v = if isnan (cell_by_name d r n)
             then cell_by_name d r target_column
             else cell_by_name d r n) source_columns line) (rows d) arr) /\
  ((exists a, In a source_columns /\ has_column d a = false) ->
   exists n,
     replace_nan_with_other_column l source_columns target_column h
     = (Raise (KeyError n), h)) /\
  ((forall a, In a source_columns -> has_column d a = true) ->
   has_column d target_column = false ->
   replace_nan_with_other_column l source_columns target_column h
   = (Raise (KeyError target_column), h)).
Proof.
  intros Hl. split; [|split].
  - intros Hns Htgt.
    exists (map (fun r => map (fill_value d target_column r) source_columns) (rows d)).
    split; [apply replace_nan_run; assumption|].
    apply Forall2_map_diag. intros r _.
    apply Forall2_map_diag. intros n _. reflexivity.
  - intros (a & Ha & Hlack).
    destruct (missing_column d source_columns) as [n|] eqn:Hn.
    + exists n. unfold replace_nan_with_other_column.
      rewrite (bind_run _ _ _ _ _ (df_read_run h l d Hl)).
      unfold getitems. now rewrite Hn.
    + unfold missing_column in Hn.
      apply (find_none _ _ Hn) in Ha. now rewrite Hlack in Ha.
  - intros Hn Ht. apply missing_column_has in Hn.
    unfold replace_nan_with_other_column.
    rewrite (bind_run _ _ _ _ _ (df_read_run h l d Hl)).
    unfold getitems, getitem. now rewrite Hn, Ht.
Qed.

Lemma replace_nan_takes_target_witness :
  (exists arr,
     replace_nan_with_other_column 0 ["face_0_x"; "leftHand_0_x"] "pose_0_x"
       sample_heap = (Ok arr, sample_heap) /\
     Forall2 (fun r line =>
       Forall2 (fun n v =>
         v = if isnan (cell_by_name sample_table r n)
             then cell_by_name sample_table r "pose_0_x"
             else cell_by_name sample_table r n) ["face_0_x"; "leftHand_0_x"] line)
       (rows sample_table) arr) /\
  (exists n,
     replace_nan_with_other_column 0 ["face_0_x"; "nose_x"] "pose_0_x" sample_heap
     = (Raise (KeyError n), sample_heap)) /\
  replace_nan_with_other_column 0 ["face_0_x"] "nose_x" sample_heap
  = (Raise (KeyError "nose_x"), sample_heap).
Proof.
  split; [|split].
  - apply (replace_nan_takes_target sample_heap 0 sample_table
             ["face_0_x"; "leftHand_0_x"] "pose_0_x" eq_refl).
    + intros a Ha. simpl in Ha.
      repeat (destruct Ha as [<- | Ha];
              [simpl; repeat (first [left; reflexivity | right])|]).
      contradiction.
    + simpl. tauto.
  - apply (replace_nan_takes_target sample_heap 0 sample_table
             ["face_0_x"; "nose_x"] "pose_0_x" eq_refl).
    exists "nose_x". split; [simpl; tauto | reflexivity].
  - apply (replace_nan_takes_target sample_heap 0 sample_table
             ["face_0_x"] "nose_x" eq_refl); [|reflexivity].
    intros a [<- | []]. reflexivity.
Defined.

Lemma has_column_false (d : DataFrame) (n : string) :
  has_column d n = false <-> is_base n = false /\ ~ In n (columns d).
Proof.
  unfold has_column. rewrite orb_false_iff, bool_decide_eq_false. split.
  - intros [Hb Hn]. split; [exact Hb|]. intros Hin.
    apply Hn. destruct (index_of_In n _ Hin) as [p ->]. eauto.
  - intros [Hb Hn]. split; [exact Hb|]. intros [p Hp].
    apply Hn. apply index_of_Some in Hp.
    apply list_elem_of_In. eapply list_elem_of_lookup_2. exact Hp.
Qed.

Lemma find_ext_in {A} (f g : A -> bool) (l : list A) :
  (forall x, In x l -> f x = g x) -> List.find f l = List.find g l.
Proof.
  induction l as [|x t IH]; intros H; simpl; [reflexivity|].
  rewrite (H x) by now left. destruct (g x); [reflexivity|].
  apply IH. intros y Hy. apply H. now right.
Qed.

Lemma missing_selection_run (h : heap) (l : loc) (d : DataFrame)
    (select_columns : list string) (with_root with_midhip : bool) (n : string) :
  h !! l = Some d -> wf d ->
  (forall a, In a (required_columns with_root with_midhip) -> In a (columns d)) ->
  List.find (fun a => negb (is_base a
                            || existsb (String.eqb a)
                                 (columns d ++ derived_columns with_root with_midhip)))
    (np_unique select_columns) = Some n ->
  exists h',
    preprocess_dataframe l select_columns with_root with_midhip h
    = (Raise (KeyError n), h') /\
    h' !! l = Some d.
Proof.
  intros Hl Hwf Hreq Hfind.
  assert (Hlen : (0 <? length select_columns)%nat = true).
  { destruct select_columns; [discriminate | reflexivity]. }
  pose proof (preprocess_dataframe_returns_new h l select_columns
                with_root with_midhip h (fun k d Hk => Hk)) as [Hext _].
  destruct (preprocess_columns_run h l d with_root with_midhip Hl Hwf Hreq)
    as (l1 & h2 & d8 & Hrun & Hl1 & Hwithin).
  destruct (preprocess_dataframe_run h l d [] with_root with_midhip Hl Hwf Hreq)
    as (l1' & h2' & d8' & Hrun' & Hl1' & Htr); [intros a []|].
  rewrite Hrun in Hrun'. injection Hrun' as <- <-.
  unfold selected in Hl1'. cbn [length Nat.ltb Nat.leb] in Hl1'.
  rewrite Hl1 in Hl1'. injection Hl1' as <-.
  destruct Htr as (_ & Hincl & _).
  rewrite preprocess_then_filter in Hext |- *. rewrite Hrun in Hext |- *.
  rewrite Hlen in Hext |- *.
  assert (Hmiss : missing_column d8 (np_unique select_columns) = Some n).
  { unfold missing_column. rewrite <- Hfind. apply find_ext_in.
    intros a _. f_equal. unfold has_column. f_equal.
    apply eq_true_iff_eq. rewrite bool_decide_eq_true, existsb_exists. split.
    - intros [p Hp]. exists a. split; [|apply String.eqb_refl].
      apply in_or_app. apply Hwithin. apply index_of_Some in Hp.
      apply list_elem_of_In. eapply list_elem_of_lookup_2. exact Hp.
    - intros (b & Hb & Hab). apply String.eqb_eq in Hab as <-.
      apply in_app_or in Hb.
      destruct (index_of_In a (columns d8) (Hincl a Hb)) as [p ->]. eauto. }
  assert (Heq : df_loc_columns l1 (base_columns ++ np_unique select_columns) h2
                = (Raise (KeyError n), h2)).
  { unfold df_loc_columns.
    rewrite (bind_run _ _ _ _ _ (df_read_run h2 l1 d8 Hl1)).
    unfold base_columns. cbn [app take drop].
    rewrite bool_decide_eq_true_2 by reflexivity.
    unfold select_columns_of. rewrite ?drop_0, Hmiss. reflexivity. }
  rewrite Heq in Hext |- *. exists h2. split; [reflexivity|].
  apply Hext. exact Hl.
Qed.

(** X29. A selected column that exists nowhere: when the table has the
    columns the substitution reads, and some label of [select_columns] is
    neither a metadata column, nor a column of the argument, nor one of
    the root and mid-hip columns the call adds, [preprocess_dataframe]
    raises [KeyError], after the substitution has run on the copy: the
    argument is as it was. *)
Theorem missing_selection_raises (h : heap) (l : loc) (d : DataFrame)
    (select_columns : list string) (with_root with_midhip : bool) :
  h !! l = Some d -> wf d ->
  (forall a, In a (required_columns with_root with_midhip) -> In a (columns d)) ->
  (exists a, In a select_columns /\ is_base a = false /\
             ~ In a (columns d) /\
             ~ In a (derived_columns with_root with_midhip)) ->
  exists n h',
    preprocess_dataframe l select_columns with_root with_midhip h
    = (Raise (KeyError n), h') /\
    h' !! l = Some d.
Proof.
  intros Hl Hwf Hreq (a & Ha & Hbase & Hcol & Hder).
  destruct (List.find (fun a => negb (is_base a
                            || existsb (String.eqb a)
                                 (columns d ++ derived_columns with_root with_midhip)))
              (np_unique select_columns)) as [n|] eqn:Hfind.
  - exists n. now apply missing_selection_run.
  - apply (proj2 (in_np_unique a select_columns)) in Ha.
    apply (find_none _ _ Hfind) in Ha. rewrite Hbase in Ha. cbn [orb] in Ha.
    apply negb_false_iff, existsb_exists in Ha as (b & Hb & Hab).
    apply String.eqb_eq in Hab as <-. apply in_app_or in Hb. tauto.
Qed.

Lemma missing_selection_raises_witness :
  exists n h',
    preprocess_dataframe 0 ["pose_0_x"; "iris_3_x"; "root_y"] true false
      sample_heap
    = (Raise (KeyError n), h') /\
    h' !! 0%nat = Some sample_table.
Proof.
  apply (missing_selection_raises sample_heap 0 sample_table
           ["pose_0_x"; "iris_3_x"; "root_y"] true false).
  - reflexivity.
  - exact wf_sample_table.
  - intros a Ha. simpl in Ha.
    repeat (destruct Ha as [<- | Ha];
            [simpl; repeat (first [left; reflexivity | right])|]).
    contradiction.
  - exists "iris_3_x". split; [simpl; tauto|]. split; [reflexivity|].
    split; intros H; vm_compute in H;
      repeat (destruct H as [H | H]; [discriminate|]); exact H.
Defined.

End PreprocessFacts.
